(** * AI image engine: the orchestration core

    A shallow embedding of the orchestration code of the image engine:
    the retry layer, the batch loop and the placement functions of the AI
    service, and the job processor and queue drainer of the results screen.

    Asynchronous code is written in a small state and exception monad
    ([Async]) over a world made of the state of everything outside the
    program ([Env]: network, providers) and the trace of the effects the
    program performed.  A promise that rejects is a computation that
    throws; [await] is sequencing. *)

From Stdlib Require Import ZArith NArith Arith List String Ascii Bool Lia.
From Stdlib Require Import DecimalString.
Import ListNotations.

Local Open Scope string_scope.
Local Open Scope list_scope.

Set Warnings "-register-all".

(* ================================================================== *)
(** * JavaScript values used by the code *)
(* ================================================================== *)

Module Js.

(** [s.includes(sub)].  Strings are sequences of code units; the
    development uses code units below 256. *)
Fixpoint includes (s sub : string) : bool :=
  String.prefix sub s ||
  match s with
  | EmptyString => false
  | String _ rest => includes rest sub
  end.

(** Decimal text of a non-negative integer, as a template literal
    renders it. *)
Definition decimal (n : N) : string :=
  NilZero.string_of_uint (N.to_uint n).

(** The three decimals of a number of milliseconds, without the zeros
    a number's text never ends with. *)
Definition fraction (r : N) : string :=
  if (r mod 100 =? 0)%N then decimal (r / 100)
  else if (r mod 10 =? 0)%N
       then (if (r <? 100)%N then "0" else EmptyString) ++ decimal (r / 10)
       else (if (r <? 10)%N then "00" else if (r <? 100)%N then "0" else EmptyString)
            ++ decimal r.

(** Text of [ms / 1000] for a whole number of milliseconds [ms] (below
    10^15, where the quotient prints with at most three decimals). *)
Definition thousandth (ms : N) : string :=
  if (ms mod 1000 =? 0)%N then decimal (ms / 1000)
  else decimal (ms / 1000) ++ "." ++ fraction (ms mod 1000).

Definition quote : string := String (ascii_of_nat 34) EmptyString.

(** The line feed a template literal or an escape puts in a string. *)
Definition nl : string := String (ascii_of_nat 10) EmptyString.

(** White space as [trim] and the pattern [\s] see it, among the code
    units below 256. *)
Definition isSpace (c : ascii) : bool :=
  let n := nat_of_ascii c in
  ((9 <=? n) && (n <=? 13) || (n =? 32) || (n =? 160))%nat.

Fixpoint dropSpaces (l : list ascii) : list ascii :=
  match l with
  | c :: rest => if isSpace c then dropSpaces rest else l
  | [] => []
  end.

(** [s.trim()] *)
Definition trim (s : string) : string :=
  string_of_list_ascii
    (rev (dropSpaces (rev (dropSpaces (list_ascii_of_string s))))).

Definition isDigit (c : ascii) : bool :=
  let n := nat_of_ascii c in ((48 <=? n) && (n <=? 57))%nat.

Fixpoint takeDigits (l : list ascii) : list ascii :=
  match l with
  | c :: rest => if isDigit c then c :: takeDigits rest else []
  | [] => []
  end.

(** [s.match(/\d+/)?.[0]]: the first run of digits of [s], if it has one. *)
Fixpoint firstDigits (l : list ascii) : option (list ascii) :=
  match l with
  | c :: rest => if isDigit c then Some (takeDigits l) else firstDigits rest
  | [] => None
  end.

(** [parseInt(digits, 10)] on a run of digits. *)
Definition parseInt (digits : list ascii) : N :=
  fold_left (fun acc c => (acc * 10 + (N.of_nat (nat_of_ascii c) - 48))%N) digits 0%N.

(** Text of an integer. *)
Definition decimalZ (z : Z) : string :=
  if (z <? 0)%Z then "-" ++ decimal (Z.abs_N z) else decimal (Z.to_N z).

(** [s.replace] of every double quote by the entity [&quot;] *)
Fixpoint escapeQuotes (s : string) : string :=
  match s with
  | EmptyString => EmptyString
  | String c rest =>
      if Ascii.eqb c (ascii_of_nat 34) then "&quot;" ++ escapeQuotes rest
      else String c (escapeQuotes rest)
  end.

(** The text a replacement string stands for: [$$], [$&], the text
    before the match and the text after it are the patterns of a
    replacement for a string pattern. *)
Fixpoint expand (replacement : list ascii) (matched before after : string) : string :=
  match replacement with
  | [] => EmptyString
  | c :: rest =>
      if Ascii.eqb c "$" then
        match rest with
        | d :: rest' =>
            if Ascii.eqb d "$" then String "$" (expand rest' matched before after)
            else if Ascii.eqb d "&" then matched ++ expand rest' matched before after
            else if Ascii.eqb d "`" then before ++ expand rest' matched before after
            else if Ascii.eqb d "'" then after ++ expand rest' matched before after
            else String c (expand rest matched before after)
        | [] => String c EmptyString
        end
      else String c (expand rest matched before after)
  end.

(** [s.replace(pattern, replacement)] for a string [pattern]: the first
    occurrence is replaced. *)
Fixpoint replaceFrom (before s pattern replacement : string) : string :=
  if String.prefix pattern s then
    before
    ++ expand (list_ascii_of_string replacement) pattern before
         (String.substring (String.length pattern) (String.length s - String.length pattern) s)
    ++ String.substring (String.length pattern) (String.length s - String.length pattern) s
  else
    match s with
    | EmptyString => before
    | String c rest => replaceFrom (before ++ String c EmptyString) rest pattern replacement
    end.

Definition replace (s pattern replacement : string) : string :=
  replaceFrom EmptyString s pattern replacement.

(** Classes of error objects the code tells apart with [instanceof] and
    [name]. *)
Inductive ErrorClass : Type :=
| PlainError
| SyntaxError
| TypeError
| FetchError (status : Z)            (* class FetchError, with its status *)
| DOMException (name : string).

(** A thrown value: an [Error] object of some class with its message,
    or any other value, given by the text [JSON.stringify] renders it
    to. *)
Inductive Thrown : Type :=
| ErrorObject (cls : ErrorClass) (message : string)
| NonError (json : string).

(** [new Error(message)] *)
Definition Error (message : string) : Thrown := ErrorObject PlainError message.

(** [error instanceof Error ? error.message : JSON.stringify(error)] *)
Definition messageOrJson (error : Thrown) : string :=
  match error with
  | ErrorObject _ message => message
  | NonError json => json
  end.

End Js.

Import Js.

(* ================================================================== *)
(** * The data model (types.ts) *)
(* ================================================================== *)

Module Types.

Inductive TextAIProvider : Type := TextGemini | TextOpenAI | TextGroq | TextOpenRouter.

Inductive AIProvider : Type := Gemini | DallE3 | OpenRouter | Stability | Pollinations.

(** The value of an enum member, as a template literal prints it. *)
Definition textProviderName (p : TextAIProvider) : string :=
  match p with
  | TextGemini => "gemini"
  | TextOpenAI => "openai"
  | TextGroq => "groq"
  | TextOpenRouter => "openrouter"
  end.

Definition providerName (p : AIProvider) : string :=
  match p with
  | Gemini => "gemini"
  | DallE3 => "dall-e-3"
  | OpenRouter => "openrouter"
  | Stability => "stability"
  | Pollinations => "pollinations"
  end.

Record AnalysisAIConfig : Type := {
  analysisProvider : TextAIProvider;
  analysisApiKey : option string;
  analysisModel : option string
}.

Record ImageAIConfig : Type := {
  imageProvider : AIProvider;
  imageApiKey : option string;
  imageModel : option string
}.

Record ImageSettings : Type := {
  style : string;
  negativePrompt : option string;
  aspectRatio : option string
}.

Record WordPressConfig : Type := {
  url : string;
  username : string;
  appPassword : option string
}.

Record Configuration : Type := {
  wordpress : WordPressConfig;
  aiAnalysis : AnalysisAIConfig;      (* config.ai.analysis *)
  aiImage : ImageAIConfig;            (* config.ai.image *)
  image : ImageSettings
}.

(** The values of [status]. *)
Module Status.
Inductive t : Type :=
| idle | pending | generating_brief | generating_image | analyzing
| analyzing_placement | uploading | inserting | setting_featured
| updating_meta | analysis_success | success | error.
End Status.

Record GeneratedImage : Type := {
  imageUrlOf : string;                (* url *)
  alt : string;
  mediaId : Z;
  imageBrief : option string          (* brief *)
}.

Record WordPressPost : Type := {
  id : Z;
  title : string;                     (* title.rendered *)
  excerpt : string;                   (* excerpt.rendered *)
  content : string;                   (* content.rendered *)
  featured_media : Z;
  imageCount : Z;
  existingImageUrl : option string;
  existingImageAltText : option string;
  generatedImage : option GeneratedImage;
  status : option Status.t;
  statusMessage : option string
}.

Record WordPressMediaResponse : Type := {
  mediaResponseId : Z;                (* id *)
  source_url : string
}.

(** An element of the array [generateImageBriefsAndAltsBatch] returns. *)
Record BriefResult : Type := {
  postId : Z;
  brief : string;
  altText : string
}.

(** [Partial<WordPressPost>], for the fields the job processor sets. *)
Record PostUpdate : Type := {
  newStatus : option Status.t;
  newStatusMessage : option string;
  newGeneratedImage : option GeneratedImage;
  newImageCount : option Z;
  newContent : option string;
  newFeaturedMedia : option Z
}.

Definition orElse {A} (o : option A) (d : A) : A :=
  match o with Some a => a | None => d end.

Definition orKeep {A} (o old : option A) : option A :=
  match o with Some a => Some a | None => old end.

(** [{ ...p, ...updates }] *)
Definition merge (p : WordPressPost) (u : PostUpdate) : WordPressPost :=
  {| id := id p;
     title := title p;
     excerpt := excerpt p;
     content := orElse (newContent u) (content p);
     featured_media := orElse (newFeaturedMedia u) (featured_media p);
     imageCount := orElse (newImageCount u) (imageCount p);
     existingImageUrl := existingImageUrl p;
     existingImageAltText := existingImageAltText p;
     generatedImage := orKeep (newGeneratedImage u) (generatedImage p);
     status := orKeep (newStatus u) (status p);
     statusMessage := orKeep (newStatusMessage u) (statusMessage p) |}.

End Types.

Import Types.

(* ================================================================== *)
(** * Documents *)
(* ================================================================== *)

Module Dom.

(** A node of a parsed document. *)
Inductive node : Type :=
| Text (data : string)
| Comment (data : string)
| Element (tag : string) (attributes : list (string * string)) (children : list node).

Definition isParagraph (n : node) : bool :=
  match n with
  | Element tag _ _ => String.eqb tag "p"
  | _ => false
  end.

(** The [p] elements among a node and its descendants, in document order. *)
Fixpoint paragraphsOf (n : node) : list node :=
  match n with
  | Element _ _ children =>
      (if isParagraph n then [n] else []) ++ flat_map paragraphsOf children
  | _ => []
  end.

(** [Array.from(doc.body.querySelectorAll('p'))], [body] being the
    children of [doc.body]. *)
Definition querySelectorAll_p (body : list node) : list node :=
  flat_map paragraphsOf body.

(** [node.textContent] *)
Fixpoint textContent (n : node) : string :=
  match n with
  | Text data => data
  | Comment _ => EmptyString
  | Element _ _ children => String.concat EmptyString (map textContent children)
  end.

(** [doc.body.textContent] *)
Definition bodyTextContent (body : list node) : string :=
  String.concat EmptyString (map textContent body).

(** [paragraphs[k].insertAdjacentHTML('afterend', markup)] inside the
    element [n], [paragraphs[k]] being the [p] number [k] (from 0) in
    document order below [n].  [fragment tag] is the list of nodes the
    markup parses to inside an element [tag], the parent of the
    paragraph; they become its next siblings. *)
Fixpoint insertAfterIn (fragment : string -> list node) (k : nat) (n : node) : node :=
  match n with
  | Element tag attributes children =>
      Element tag attributes
        ((fix siblings (k : nat) (l : list node) {struct l} : list node :=
            match l with
            | [] => []
            | c :: rest =>
                if isParagraph c && (k =? 0)%nat then c :: fragment tag ++ rest
                else
                  let here := List.length (paragraphsOf c) in
                  if (k <? here)%nat
                  then insertAfterIn fragment (k - (if isParagraph c then 1 else 0)) c :: rest
                  else c :: siblings (k - here) rest
            end) k children)
  | _ => n
  end.

(** The same on the children of [doc.body]. *)
Definition insertAfterParagraph (fragment : string -> list node) (k : nat)
    (body : list node) : list node :=
  match insertAfterIn fragment k (Element "body" [] body) with
  | Element _ _ children => children
  | _ => body
  end.

End Dom.

Import Dom.

(* ================================================================== *)
(** * Asynchronous computations *)
(* ================================================================== *)

(** How a computation ends: a promise fulfilled with a value, or
    rejected with a thrown value. *)
Inductive Outcome (A : Type) : Type :=
| Returned (value : A)
| Threw (error : Thrown).
Arguments Returned {A} value.
Arguments Threw {A} error.

(** The effects the orchestration code performs, in the order it
    performs them. *)
Inductive Effect : Type :=
| Invoked                                   (* one call of the operation given to the retrier *)
| Delayed (ms : Z)                          (* await delay(ms) *)
| BatchStarted (batch : list WordPressPost) (* the per-batch operation of the batch loop, on a slice *)
| Progress (processed total : nat)          (* onProgress(processed, total) *)
| PostUpdated (postId : Z) (updates : PostUpdate)  (* updatePostState(postId, updates) *)
| RemoteCall (name : string).               (* a call to the content platform *)

Section Monad.

(** State of everything outside the program. *)
Variable Env : Type.

Record World : Type := mkWorld { env : Env; trace : list Effect }.

(** An operation of the outside world: a remote call. *)
Definition Remote (A : Type) : Type := Env -> Outcome A * Env.

(** A computation of the program. *)
Definition Async (A : Type) : Type := World -> Outcome A * World.

Definition ret {A} (a : A) : Async A := fun w => (Returned a, w).

Definition throw {A} (e : Thrown) : Async A := fun w => (Threw e, w).

Definition bind {A B} (m : Async A) (k : A -> Async B) : Async B :=
  fun w =>
    match m w with
    | (Returned a, w') => k a w'
    | (Threw e, w') => (Threw e, w')
    end.

(** [try { m } catch (error) { handler error }] *)
Definition tryCatch {A} (m : Async A) (handler : Thrown -> Async A) : Async A :=
  fun w =>
    match m w with
    | (Returned a, w') => (Returned a, w')
    | (Threw e, w') => handler e w'
    end.

Definition emit (e : Effect) : Async unit :=
  fun w => (Returned tt, mkWorld (env w) (trace w ++ [e])).

(** Running an operation of the outside world. *)
Definition perform {A} (op : Remote A) : Async A :=
  fun w =>
    let (r, env') := op (env w) in
    (r, mkWorld env' (trace w)).

End Monad.

Arguments mkWorld {Env} env trace.
Arguments env {Env} w.
Arguments trace {Env} w.
Arguments ret {Env A} a.
Arguments throw {Env A} e.
Arguments bind {Env A B} m k.
Arguments tryCatch {Env A} m handler.
Arguments emit {Env} e.
Arguments perform {Env A} op.

Declare Scope async_scope.
Delimit Scope async_scope with async.
Notation "x <- m ;; k" := (bind m (fun x => k))
  (at level 61, m at next level, right associativity) : async_scope.
Notation "m ;; k" := (bind m (fun _ => k))
  (at level 61, right associativity) : async_scope.
Local Open Scope async_scope.

(* ================================================================== *)
(** * The AI service: remote-call gate and backoff retrier *)
(* ================================================================== *)

Module AiService.

Section Retry.

Variable Env : Type.

(** [const delay = (ms) => new Promise(res => setTimeout(res, ms))] *)
Definition delay (ms : Z) : Async Env unit := emit (Delayed ms).

(** [fetchWithTimeout(resource, options, timeout = 90000)]; [fetch] is
    the browser's fetch of the resource with the options and the signal
    of the controller.  When the timer fires it aborts the request
    through the signal, which makes [fetch] reject with a [DOMException]
    named AbortError; [timeout] is in milliseconds. *)
Definition fetchWithTimeout {Response : Type}
    (fetch : Remote Env Response) (timeout : N) : Remote Env Response :=
  fun e =>
    match fetch e with
    | (Returned response, e') => (Returned response, e')
    | (Threw error, e') =>
        match error with
        | ErrorObject (DOMException "AbortError") _ =>
            (Threw (Error ("Request timed out after " ++ thousandth timeout ++ " seconds.")), e')
        | _ => (Threw error, e')
        end
    end.

Definition defaultTimeout : N := 90000.

(** The test of the catch block of [retryableAIOperation]. *)
Definition isRateLimitError (error : Thrown) : bool :=
  let errorMessage := messageOrJson error in
  match error with
  | ErrorObject (FetchError status) _ => (status =? 429)%Z
  | _ => false
  end
  || includes errorMessage "429"
  || includes errorMessage "RESOURCE_EXHAUSTED".

(** The text that ends the message of the wrapping error: [lastError]
    is undefined until an attempt has failed. *)
Definition lastErrorText (lastError : option Thrown) : string :=
  match lastError with
  | Some error => messageOrJson error
  | None => "undefined"
  end.

Definition exhausted (retries : nat) (lastError : option Thrown) : Thrown :=
  Error ("AI request failed after " ++ decimal (N.of_nat retries)
         ++ " attempts. Last error: " ++ lastErrorText lastError).

(** The loop [for (let i = 0; i < retries; i++)] of
    [retryableAIOperation], entered at index [i] with [left = retries - i]
    iterations to go. *)
Fixpoint retryLoop {T} (apiCall : Remote Env T) (retries : nat) (initialDelay : Z)
    (left i : nat) (lastError : option Thrown) : Async Env T :=
  match left with
  | O => throw (exhausted retries lastError)
  | S left' =>
      tryCatch (emit Invoked ;; perform apiCall)
        (fun error =>
           if isRateLimitError error then
             let waitTime := (initialDelay * 2 ^ Z.of_nat i)%Z in
             delay waitTime ;;
             retryLoop apiCall retries initialDelay left' (S i) (Some error)
           else
             throw error)
  end.

(** [retryableAIOperation(apiCall, retries = 3, initialDelay = 2000)] *)
Definition retryableAIOperation {T} (apiCall : Remote Env T)
    (retries : nat) (initialDelay : Z) : Async Env T :=
  retryLoop apiCall retries initialDelay retries 0 None.

(** ** What a run of the retrier did, read from its trace *)

(** The environment after [n] calls of the operation. *)
Fixpoint envAfter {T} (apiCall : Remote Env T) (n : nat) (e : Env) : Env :=
  match n with
  | O => e
  | S n' => envAfter apiCall n' (snd (apiCall e))
  end.

(** How the call number [j] (from 0) of the operation ends. *)
Definition attempt {T} (apiCall : Remote Env T) (j : nat) (e : Env) : Outcome T :=
  fst (apiCall (envAfter apiCall j e)).

Definition failsRetryably {T} (apiCall : Remote Env T) (j : nat) (e : Env) : Prop :=
  exists error, attempt apiCall j e = Threw error /\ isRateLimitError error = true.

Definition invocations (tr : list Effect) : nat :=
  List.length (filter (fun ev => match ev with Invoked => true | _ => false end) tr).

Fixpoint waits (tr : list Effect) : list Z :=
  match tr with
  | [] => []
  | Delayed ms :: rest => ms :: waits rest
  | _ :: rest => waits rest
  end.

Definition total (l : list Z) : Z := fold_right Z.add 0%Z l.

(** [k] failed attempts from index [i] on, each followed by its wait. *)
Definition backoff (initialDelay : Z) (i k : nat) : list Effect :=
  flat_map (fun j => [Invoked; Delayed (initialDelay * 2 ^ Z.of_nat j)]) (seq i k).

(** An outcome that ends the loop: a value, or an error that is not
    classified as a rate limit. *)
Definition settles {T} (r : Outcome T) : Prop :=
  match r with
  | Returned _ => True
  | Threw error => isRateLimitError error = false
  end.

(** The effects the retrier itself performs. *)
Definition retryEffect (initialDelay : Z) (ev : Effect) : Prop :=
  ev = Invoked \/ exists j : nat, ev = Delayed (initialDelay * 2 ^ Z.of_nat j).

End Retry.

Arguments delay {Env} ms.
Arguments fetchWithTimeout {Env Response} fetch timeout.
Arguments retryLoop {Env T} apiCall retries initialDelay left i lastError.
Arguments retryableAIOperation {Env T} apiCall retries initialDelay.
Arguments envAfter {Env T} apiCall n e.
Arguments attempt {Env T} apiCall j e.
Arguments failsRetryably {Env T} apiCall j e.

(* ------------------------------------------------------------------ *)
(** ** Batches, image generation and placement *)
(* ------------------------------------------------------------------ *)

(** The browser: [new DOMParser().parseFromString(html, 'text/html')]
    (the children of the body of the document), the parsing of markup
    inside an element with a given tag ([innerHTML =],
    [insertAdjacentHTML]), and the serialisation [innerHTML] reads. *)
Class Browser : Type := {
  parseFromString : string -> list node;
  parseFragment : string -> string -> list node;
  innerHTML : list node -> string
}.

(** JSON in and out: [extractJson(text)], [JSON.parse(jsonString)] with
    the spread of its value into the results, and
    [JSON.stringify(postsToAnalyze)] on the triples id, title, excerpt. *)
Class Json : Type := {
  extractJson : string -> option string;
  parseBriefs : string -> Outcome (list BriefResult);
  stringifyPosts : list (Z * string * string) -> string
}.

(** The providers: [generateText(analysisConfig, prompt, maxTokens, timeout)],
    [generateJsonText(analysisConfig, prompt, briefSchema)] and the
    [operation] closure of [generateImage]. *)
Class Providers (Env : Type) : Type := {
  generateText : AnalysisAIConfig -> string -> option N -> option N -> Remote Env string;
  generateJsonText : AnalysisAIConfig -> string -> Remote Env string;
  imageOperation : ImageAIConfig -> string -> ImageSettings -> Remote Env string
}.

Section Service.

Context {Env : Type} {browser : Browser} {json : Json} {providers : Providers Env}.

(** [stripHtml(html)]: the text of the body of the parsed document *)
Definition stripHtml (html : string) : string :=
  bodyTextContent (parseFromString html).

Definition BATCH_SIZE : nat := 20.
Definition DELAY_BETWEEN_BATCHES : Z := 1000.

(** [posts.slice(from, to)] for [from <= to] *)
Definition slice {A} (l : list A) (from to : nat) : list A :=
  firstn (to - from) (skipn from l).

Definition briefPrompt (batch : list WordPressPost) : string :=
  "You are an expert content assistant. Analyze the following WordPress posts and for each one, generate a concise, visually descriptive image brief and an SEO-friendly alt text."
  ++ nl ++ "        - The 'brief' should guide an AI image generator to create a relevant, high-quality image."
  ++ nl ++ "        - The 'altText' should describe the resulting image for accessibility and SEO."
  ++ nl ++ "        Posts: "
  ++ stringifyPosts
       (map (fun p => (id p, stripHtml (title p), stripHtml (excerpt p))) batch).

(** [onProgress?.(processed, total)]; [onProgress] tells whether the
    caller passed the callback. *)
Definition reportProgress (onProgress : bool) (processed total : nat) : Async Env unit :=
  if onProgress then emit (Progress processed total) else ret tt.

Definition isSyntaxError (error : Thrown) : bool :=
  match error with
  | ErrorObject SyntaxError _ => true
  | _ => false
  end.

(** The body of the [try] block of one batch: the results so far with
    those of the batch pushed. *)
Definition processBatch (posts : list WordPressPost) (analysisConfig : AnalysisAIConfig)
    (onProgress : bool) (i : nat) (allResults : list BriefResult)
    : Async Env (list BriefResult) :=
  let batch := slice posts i (i + BATCH_SIZE) in
  emit (BatchStarted batch) ;;
  responseText <- retryableAIOperation (generateJsonText analysisConfig (briefPrompt batch)) 3 2000 ;;
  match extractJson responseText with
  | None =>
      throw (Error ("The AI provider (" ++ textProviderName (analysisProvider analysisConfig)
                    ++ ") returned a response that did not contain valid JSON."))
  | Some jsonString =>
      match parseBriefs jsonString with
      | Threw e => throw e
      | Returned batchResults =>
          reportProgress onProgress
            (Nat.min (i + BATCH_SIZE) (List.length posts)) (List.length posts) ;;
          ret (allResults ++ batchResults)
      end
  end.

(** The loop [for (let i = 0; i < posts.length; i += BATCH_SIZE)],
    entered at index [i]; [fuel] bounds the iterations left. *)
Fixpoint batchLoop (fuel : nat) (posts : list WordPressPost)
    (analysisConfig : AnalysisAIConfig) (onProgress : bool)
    (i : nat) (allResults : list BriefResult) : Async Env (list BriefResult) :=
  if (i <? List.length posts)%nat then
    match fuel with
    | O => ret allResults
    | S fuel' =>
        allResults' <-
          tryCatch (processBatch posts analysisConfig onProgress i allResults)
            (fun error =>
               if isSyntaxError error then
                 throw (Error ("The AI provider (" ++ textProviderName (analysisProvider analysisConfig)
                               ++ ") returned malformed JSON, even after cleanup."))
               else throw error) ;;
        (if (i + BATCH_SIZE <? List.length posts)%nat
         then delay DELAY_BETWEEN_BATCHES else ret tt) ;;
        batchLoop fuel' posts analysisConfig onProgress (i + BATCH_SIZE) allResults'
    end
  else ret allResults.

(** [generateImageBriefsAndAltsBatch(posts, analysisConfig, onProgress)];
    the loop runs at most once per post. *)
Definition generateImageBriefsAndAltsBatch (posts : list WordPressPost)
    (analysisConfig : AnalysisAIConfig) (onProgress : bool)
    : Async Env (list BriefResult) :=
  reportProgress onProgress 0 (List.length posts) ;;
  batchLoop (List.length posts) posts analysisConfig onProgress 0 [].

(** ** What a run of the batch loop did, read from its trace *)

(** The slices the loop goes through from index [i] on, as the for
    statement enumerates them. *)
Fixpoint chunksFrom {A} (fuel i : nat) (l : list A) : list (list A) :=
  if (i <? List.length l)%nat then
    match fuel with
    | O => []
    | S fuel' => slice l i (i + BATCH_SIZE) :: chunksFrom fuel' (i + BATCH_SIZE) l
    end
  else [].

Definition batches {A} (l : list A) : list (list A) := chunksFrom (List.length l) 0 l.

(** The slices the per-batch operation was started on, in order. *)
Fixpoint batchesStarted (tr : list Effect) : list (list WordPressPost) :=
  match tr with
  | [] => []
  | BatchStarted batch :: rest => batch :: batchesStarted rest
  | _ :: rest => batchesStarted rest
  end.

(** The pairs [onProgress] was called with, in order. *)
Fixpoint progressReports (tr : list Effect) : list (nat * nat) :=
  match tr with
  | [] => []
  | Progress processed total :: rest => (processed, total) :: progressReports rest
  | _ :: rest => progressReports rest
  end.

(** The starts of the per-batch operation and the waits of
    [DELAY_BETWEEN_BATCHES]. *)
Definition isPacing (ev : Effect) : bool :=
  match ev with
  | BatchStarted _ => true
  | Delayed ms => (ms =? DELAY_BETWEEN_BATCHES)%Z
  | _ => false
  end.

Fixpoint intersperse {A} (sep : A) (l : list A) : list A :=
  match l with
  | [] => []
  | x :: rest =>
      match rest with
      | [] => [x]
      | _ :: _ => x :: sep :: intersperse sep rest
      end
  end.

(** [!apiKey] *)
Definition missing (o : option string) : bool :=
  match o with
  | None => true
  | Some s => String.eqb s EmptyString
  end.

(** [generateImage(imageConfig, prompt, settings)] *)
Definition generateImage (imageConfig : ImageAIConfig) (prompt : string)
    (settings : ImageSettings) : Async Env string :=
  if missing (imageApiKey imageConfig)
     && negb (match imageProvider imageConfig with Pollinations => true | _ => false end)
  then throw (Error ("API Key for " ++ providerName (imageProvider imageConfig) ++ " is required."))
  else retryableAIOperation (imageOperation imageConfig prompt settings) 3 2000.

(** The markup [insertAdjacentHTML('afterend', ...)] is given. *)
Definition placeholderLine (placeholder : string) : string :=
  nl ++ placeholder ++ nl.

(** [insertPlaceholderHeuristically(postContent, placeholder)] *)
Definition insertPlaceholderHeuristically (postContent placeholder : string) : string :=
  let doc := parseFromString postContent in
  let paragraphs := querySelectorAll_p doc in
  let targetIndex : Z :=
    if (2 <? List.length paragraphs)%nat then 1%Z
    else if (1 <? List.length paragraphs)%nat then 0%Z
    else (-1)%Z in
  let fragment := fun tag => parseFragment tag (placeholderLine placeholder) in
  if negb (targetIndex =? -1)%Z
     && match nth_error paragraphs (Z.to_nat targetIndex) with Some _ => true | None => false end
  then innerHTML (insertAfterParagraph fragment (Z.to_nat targetIndex) doc)
  else if (0 <? List.length paragraphs)%nat
  then innerHTML (insertAfterParagraph fragment (List.length paragraphs - 1) doc)
  else innerHTML (parseFragment "body" (placeholder ++ nl ++ innerHTML doc)).

Definition placementPrompt (cleanTitle : string) (paragraphsToAnalyze : list (nat * string))
    : string :=
  "You are an expert in digital content layout and reader engagement. Your task is to find the most engaging and contextually appropriate location to insert an image within an article."
  ++ nl ++ "I will provide the article's title and its initial paragraphs, each numbered."
  ++ nl ++ nl ++ "An image should be placed after a paragraph that either introduces a new concept, concludes an introductory section, or provides a natural pause for the reader. Avoid placing it after a very short paragraph or in the middle of a continuous thought. The goal is to break up the text visually and enhance the topic being discussed."
  ++ nl ++ nl ++ "Article Title: " ++ quote ++ cleanTitle ++ quote
  ++ nl ++ nl ++ "Paragraphs:"
  ++ nl ++ String.concat EmptyString
             (map (fun p => (nl ++ decimal (N.of_nat (fst p)) ++ ". " ++ snd p)%string)
                  paragraphsToAnalyze)
  ++ nl ++ nl ++ "Based on the title and paragraphs, which paragraph number is the absolute best place to insert an image IMMEDIATELY AFTER?"
  ++ nl ++ "Respond with ONLY the paragraph number and nothing else.".

Definition PLACEHOLDER : string := "<!-- INSERT_IMAGE_HERE -->".

(** The first paragraphs, numbered from 1, whose trimmed text is longer
    than 80. *)
Definition significantParagraphs (paragraphs : list node) : list (nat * string) :=
  filter (fun p => (80 <? String.length (snd p))%nat)
    (combine (seq 1 5) (map (fun p => trim (textContent p)) (firstn 5 paragraphs))).

(** [parseInt(responseText.trim().match(/\d+/)?.[0] || '1', 10)] *)
Definition chosenNumber (responseText : string) : N :=
  match firstDigits (list_ascii_of_string (trim responseText)) with
  | Some digits => parseInt digits
  | None => 1%N
  end.

(** The index the reply of the provider leads to. *)
Definition targetOf (responseText : string) (paragraphCount : nat) : nat :=
  let chosenParagraphNumber := chosenNumber responseText in
  if (chosenParagraphNumber <? 1)%N || (N.of_nat paragraphCount <? chosenParagraphNumber)%N
  then 1
  else N.to_nat chosenParagraphNumber - 1.

(** [getContentWithImagePlaceholder(analysisConfig, postContent, postTitle)] *)
Definition getContentWithImagePlaceholder (analysisConfig : AnalysisAIConfig)
    (postContent postTitle : string) : Async Env string :=
  let placeholder := PLACEHOLDER in
  let cleanTitle := stripHtml postTitle in
  let doc := parseFromString postContent in
  let paragraphs := querySelectorAll_p doc in
  if (List.length paragraphs <? 3)%nat then
    ret (insertPlaceholderHeuristically postContent placeholder)
  else
    tryCatch
      (let paragraphsToAnalyze := significantParagraphs paragraphs in
       if (List.length paragraphsToAnalyze <? 2)%nat then
         ret (insertPlaceholderHeuristically postContent placeholder)
       else
         let prompt := placementPrompt cleanTitle paragraphsToAnalyze in
         responseText <-
           retryableAIOperation (generateText analysisConfig prompt (Some 10%N) (Some 20000%N)) 2 500 ;;
         let targetParagraphIndex := targetOf responseText (List.length paragraphs) in
         match nth_error paragraphs targetParagraphIndex with
         | Some _ =>
             ret (innerHTML
                    (insertAfterParagraph
                       (fun tag => parseFragment tag (placeholderLine placeholder))
                       targetParagraphIndex doc))
         | None => ret (insertPlaceholderHeuristically postContent placeholder)
         end)
      (fun error => ret (insertPlaceholderHeuristically postContent placeholder)).

End Service.

End AiService.


(* ================================================================== *)
(** * A small browser, for running the code on examples *)
(* ================================================================== *)

(** Markup made of elements without attributes, comments and text
    without markup characters is parsed and printed the way a browser
    does (no white space before the first node of a document). *)
Module SmallBrowser.

Inductive mode : Type :=
| Data (acc : list ascii)
| Tag (closing : bool) (acc : list ascii)
| InComment (acc : list ascii).

(** Open elements, innermost first, each with its children so far in
    reverse order. *)
Definition Stack : Type := list (string * list node).

Definition addNode (n : node) (st : Stack) : Stack :=
  match st with
  | (tag, kids) :: below => (tag, n :: kids) :: below
  | [] => []
  end.

Definition addText (acc : list ascii) (st : Stack) : Stack :=
  match acc with
  | [] => st
  | _ => addNode (Text (string_of_list_ascii (rev acc))) st
  end.

Definition closeTop (st : Stack) : Stack :=
  match st with
  | (tag, kids) :: (below :: _) as rest => addNode (Element tag [] (rev kids)) rest
  | _ => st
  end.

Fixpoint startsWith (p l : list ascii) : bool :=
  match p, l with
  | [], _ => true
  | a :: p', b :: l' => Ascii.eqb a b && startsWith p' l'
  | _ :: _, [] => false
  end.

Fixpoint scan (l : list ascii) (skip : nat) (m : mode) (st : Stack) : Stack :=
  match l with
  | [] => match m with Data acc => addText acc st | _ => st end
  | c :: rest =>
      match skip with
      | S k => scan rest k m st
      | O =>
          match m with
          | Data acc =>
              if startsWith (list_ascii_of_string "<!--") l
              then scan rest 3 (InComment []) (addText acc st)
              else if Ascii.eqb c "<"
              then scan rest 0 (Tag false []) (addText acc st)
              else scan rest 0 (Data (c :: acc)) st
          | Tag closing acc =>
              if Ascii.eqb c "/" && match acc with [] => true | _ => false end
              then scan rest 0 (Tag true []) st
              else if Ascii.eqb c ">"
              then scan rest 0 (Data [])
                     (if closing then closeTop st
                      else (string_of_list_ascii (rev acc), []) :: st)
              else scan rest 0 (Tag closing (c :: acc)) st
          | InComment acc =>
              if startsWith (list_ascii_of_string "-->") l
              then scan rest 2 (Data []) (addNode (Comment (string_of_list_ascii (rev acc))) st)
              else scan rest 0 (InComment (c :: acc)) st
          end
      end
  end.

Fixpoint closeAll (fuel : nat) (st : Stack) : list node :=
  match st with
  | [(_, kids)] => rev kids
  | _ => match fuel with
         | O => []
         | S f => closeAll f (closeTop st)
         end
  end.

Definition parse (markup : string) : list node :=
  let st := scan (list_ascii_of_string markup) 0 (Data []) [("body", [])] in
  closeAll (List.length st) st.

Fixpoint print (n : node) : string :=
  match n with
  | Text data => data
  | Comment data => "<!--" ++ data ++ "-->"
  | Element tag _ children =>
      "<" ++ tag ++ ">" ++ String.concat EmptyString (map print children)
      ++ "</" ++ tag ++ ">"
  end.

Definition printAll (l : list node) : string :=
  String.concat EmptyString (map print l).

#[export] Instance browser : AiService.Browser := {
  AiService.parseFromString := parse;
  AiService.parseFragment := fun _ markup => parse markup;
  AiService.innerHTML := printAll
}.

End SmallBrowser.


(* ================================================================== *)
(** * The results screen: job processor and queue drainer *)
(* ================================================================== *)

Module ResultsStep.
Import AiService.

Definition MAX_CONCURRENT_JOBS : Z := 3.

Inductive JobAction : Type := generate | insert | insert_at | set_featured | upload_insert.

Record Payload : Type := {
  imageUrl : string;
  payloadAltText : string;            (* altText *)
  imageDataUrl : option string;
  prebuiltContent : option string
}.

Record Job : Type := {
  post : WordPressPost;
  action : JobAction;
  payload : option Payload
}.

(** The fields [updatePost] is given. *)
Inductive PostFields : Type :=
| ContentField (content : string)
| FeaturedMediaField (mediaId : Z).

(** The content platform (wordpressService) and the clock. *)
Class WordPress (Env : Type) : Type := {
  uploadImage : WordPressConfig -> string -> string -> string -> string
                -> Remote Env WordPressMediaResponse;
  updatePost : WordPressConfig -> Z -> PostFields -> Remote Env unit;
  dateNow : Env -> Z
}.

Definition noUpdate : PostUpdate :=
  {| newStatus := None; newStatusMessage := None; newGeneratedImage := None;
     newImageCount := None; newContent := None; newFeaturedMedia := None |}.

(** [{ status, statusMessage }] *)
Definition statusUpdate (s : Status.t) (message : string) : PostUpdate :=
  {| newStatus := Some s; newStatusMessage := Some message; newGeneratedImage := None;
     newImageCount := None; newContent := None; newFeaturedMedia := None |}.

(** [setPosts(prev => prev.map(p => p.id === postId ? { ...p, ...updates } : p))] *)
Definition applyUpdate (postId : Z) (updates : PostUpdate) (prev : list WordPressPost)
    : list WordPressPost :=
  map (fun p => if (id p =? postId)%Z then merge p updates else p) prev.

(** The posts after the updates of a trace, in order. *)
Definition postsAfter (tr : list Effect) (posts : list WordPressPost) : list WordPressPost :=
  fold_left
    (fun prev ev =>
       match ev with
       | PostUpdated postId updates => applyUpdate postId updates prev
       | _ => prev
       end)
    tr posts.

Section Processor.

Context {Env : Type} {browser : Browser} {json : Json} {providers : Providers Env}
        {wp : WordPress Env}.

Definition updatePostState (postId : Z) (updates : PostUpdate) : Async Env unit :=
  emit (PostUpdated postId updates).

(** A call to the content platform. *)
Definition remote {A} (name : string) (op : Remote Env A) : Async Env A :=
  emit (RemoteCall name) ;; perform op.

(** The figure both insertions build. *)
Definition imageHtml (src altText : string) : string :=
  let safeAlt := escapeQuotes altText in
  "<figure class=" ++ quote ++ "wp-block-image size-large" ++ quote ++ "><img src=" ++ quote
  ++ src ++ quote ++ " alt=" ++ quote ++ safeAlt ++ quote ++ "/><figcaption>" ++ altText
  ++ "</figcaption></figure>".

Definition truthy (s : string) : bool := negb (String.eqb s EmptyString).

(** The [try] block of [processJob], [current] being [postsRef.current]. *)
Definition runJob (config : Configuration) (current : list WordPressPost) (job : Job)
    : Async Env unit :=
  let post := post job in
  match find (fun p => (id p =? id post)%Z) current with
  | None => throw (Error ("Post " ++ decimalZ (id post) ++ " not found in current state."))
  | Some currentPost =>
      match action job with
      | generate =>
          updatePostState (id post) (statusUpdate Status.generating_brief "Analyzing content...") ;;
          briefs <- generateImageBriefsAndAltsBatch [currentPost] (aiAnalysis config) false ;;
          match briefs with
          | [] => throw (Error "Failed to generate image brief.")
          | briefData :: _ =>
              let fullPrompt : string :=
                (brief briefData ++ ", " ++ style (image config)
                 ++ match negativePrompt (image config) with
                    | Some n => if truthy n then ", avoiding " ++ n else EmptyString
                    | None => EmptyString
                    end)%string in
              updatePostState (id post) (statusUpdate Status.generating_image "Creating image...") ;;
              imageDataUrl <- generateImage (aiImage config) fullPrompt (image config) ;;
              updatePostState (id post) (statusUpdate Status.uploading "Uploading to WordPress...") ;;
              uploadedImage <-
                remote "uploadImage"
                  (uploadImage (wordpress config) imageDataUrl
                     ("ai-img-" ++ decimalZ (id post) ++ ".png")
                     (altText briefData) (altText briefData)) ;;
              updatePostState (id post)
                {| newStatus := Some Status.success;
                   newStatusMessage := Some "Image generated!";
                   newGeneratedImage :=
                     Some {| imageUrlOf := source_url uploadedImage;
                             mediaId := mediaResponseId uploadedImage;
                             alt := altText briefData;
                             imageBrief := Some (brief briefData) |};
                   newImageCount := None; newContent := None; newFeaturedMedia := None |}
          end
      | insert =>
          match payload job with
          | Some pl =>
              if truthy (imageUrl pl) then
                updatePostState (id post)
                  (statusUpdate Status.analyzing_placement "AI finding best spot...") ;;
                contentWithPlaceholder <-
                  getContentWithImagePlaceholder (aiAnalysis config)
                    (content currentPost) (title currentPost) ;;
                let newContent :=
                  replace contentWithPlaceholder PLACEHOLDER
                    (imageHtml (imageUrl pl) (payloadAltText pl)) in
                updatePostState (id post) (statusUpdate Status.inserting "Updating post...") ;;
                remote "updatePost"
                  (updatePost (wordpress config) (id post) (ContentField newContent)) ;;
                updatePostState (id post)
                  {| newStatus := Some Status.success;
                     newStatusMessage := Some "Image inserted (auto)!";
                     newGeneratedImage := None;
                     newImageCount := Some (imageCount currentPost + 1)%Z;
                     newContent := Some newContent; newFeaturedMedia := None |}
              else throw (Error "No image URL for insertion.")
          | None => throw (Error "No image URL for insertion.")
          end
      | insert_at =>
          match match payload job with Some pl => prebuiltContent pl | None => None end with
          | Some prebuilt =>
              if truthy prebuilt then
                updatePostState (id post) (statusUpdate Status.inserting "Updating post...") ;;
                remote "updatePost"
                  (updatePost (wordpress config) (id post) (ContentField prebuilt)) ;;
                updatePostState (id post)
                  {| newStatus := Some Status.success;
                     newStatusMessage := Some "Image inserted (manual)!";
                     newGeneratedImage := None;
                     newImageCount := Some (imageCount currentPost + 1)%Z;
                     newContent := Some prebuilt; newFeaturedMedia := None |}
              else throw (Error "No content provided for manual insertion.")
          | None => throw (Error "No content provided for manual insertion.")
          end
      | set_featured =>
          match generatedImage currentPost with
          | Some generated =>
              if negb (mediaId generated =? 0)%Z then
                updatePostState (id post)
                  (statusUpdate Status.setting_featured "Setting featured image...") ;;
                remote "updatePost"
                  (updatePost (wordpress config) (id post)
                     (FeaturedMediaField (mediaId generated))) ;;
                updatePostState (id post)
                  {| newStatus := Some Status.success;
                     newStatusMessage := Some "Featured image set!";
                     newGeneratedImage := None; newImageCount := None; newContent := None;
                     newFeaturedMedia := Some (mediaId generated) |}
              else throw (Error "No generated image to set as featured.")
          | None => throw (Error "No generated image to set as featured.")
          end
      | upload_insert =>
          match payload job with
          | Some pl =>
              match imageDataUrl pl with
              | Some dataUrl =>
                  if truthy dataUrl && truthy (payloadAltText pl) then
                    updatePostState (id post) (statusUpdate Status.uploading "Uploading image...") ;;
                    now <- perform (fun e => (Returned (dateNow e), e)) ;;
                    uploadedImage <-
                      remote "uploadImage"
                        (uploadImage (wordpress config) dataUrl
                           ("uploaded-img-" ++ decimalZ (id post) ++ "-" ++ decimalZ now ++ ".png")
                           (payloadAltText pl) (payloadAltText pl)) ;;
                    updatePostState (id post)
                      (statusUpdate Status.analyzing_placement "Finding best spot...") ;;
                    contentWithPlaceholder <-
                      getContentWithImagePlaceholder (aiAnalysis config)
                        (content currentPost) (title currentPost) ;;
                    let newContent :=
                      replace contentWithPlaceholder PLACEHOLDER
                        (imageHtml (source_url uploadedImage) (payloadAltText pl)) in
                    updatePostState (id post) (statusUpdate Status.inserting "Updating post...") ;;
                    remote "updatePost"
                      (updatePost (wordpress config) (id post) (ContentField newContent)) ;;
                    updatePostState (id post)
                      {| newStatus := Some Status.success;
                         newStatusMessage := Some "Image uploaded & inserted!";
                         newGeneratedImage :=
                           Some {| imageUrlOf := source_url uploadedImage;
                                   mediaId := mediaResponseId uploadedImage;
                                   alt := payloadAltText pl;
                                   imageBrief := None |};
                         newImageCount := Some (imageCount currentPost + 1)%Z;
                         newContent := Some newContent; newFeaturedMedia := None |}
                  else throw (Error "Image data and alt text required.")
              | None => throw (Error "Image data and alt text required.")
              end
          | None => throw (Error "Image data and alt text required.")
          end
      end
  end.

(** [error instanceof Error ? error.message : 'An unknown error occurred.'] *)
Definition failureMessage (e : Thrown) : string :=
  match e with
  | ErrorObject _ message => message
  | NonError _ => "An unknown error occurred."
  end.

(** [processJob(job)] *)
Definition processJob (config : Configuration) (current : list WordPressPost) (job : Job)
    : Async Env unit :=
  tryCatch (runJob config current job)
    (fun e => updatePostState (id (post job)) (statusUpdate Status.error (failureMessage e))).

End Processor.

(* ------------------------------------------------------------------ *)
(** ** The queue drainer *)
(* ------------------------------------------------------------------ *)

(** The refs of the component, and the jobs whose [processJob] promise
    has not settled yet (the jobs in flight). *)
Record Scheduler : Type := {
  jobQueue : list Job;                (* jobQueueRef.current *)
  activeCount : Z;                    (* activeCountRef.current *)
  isProcessing : bool;                (* isProcessingRef.current *)
  running : list Job
}.

Definition setQueue (q : list Job) (s : Scheduler) : Scheduler :=
  {| jobQueue := q; activeCount := activeCount s;
     isProcessing := isProcessing s; running := running s |}.

Definition setActive (n : Z) (s : Scheduler) : Scheduler :=
  {| jobQueue := jobQueue s; activeCount := n;
     isProcessing := isProcessing s; running := running s |}.

Definition setProcessing (b : bool) (s : Scheduler) : Scheduler :=
  {| jobQueue := jobQueue s; activeCount := activeCount s;
     isProcessing := b; running := running s |}.

Definition setRunning (r : list Job) (s : Scheduler) : Scheduler :=
  {| jobQueue := jobQueue s; activeCount := activeCount s;
     isProcessing := isProcessing s; running := r |}.

Definition initial : Scheduler :=
  {| jobQueue := []; activeCount := 0; isProcessing := false; running := [] |}.

(** An operation is given by the states it goes through, one per
    assignment, in order; [latest s h] is the state it ends in when it
    starts in [s]. *)
Definition latest (s : Scheduler) (h : list Scheduler) : Scheduler := last h s.

(** The [while] loop of [tryNext]; [queue] is [jobQueue s]. *)
Fixpoint whileLoop (queue : list Job) (s : Scheduler) : list Scheduler :=
  match queue with
  | job :: rest =>
      if (activeCount s <? MAX_CONCURRENT_JOBS)%Z then
        let s1 := setQueue rest s in                      (* jobQueueRef.current.shift() *)
        let s2 := setActive (activeCount s1 + 1) s1 in    (* activeCountRef.current++ *)
        let s3 := setRunning (running s2 ++ [job]) s2 in  (* processJob(job) *)
        s1 :: s2 :: s3 :: whileLoop rest s3
      else []
  | [] => []
  end.

Definition tryNext (s : Scheduler) : list Scheduler :=
  let h := whileLoop (jobQueue s) s in
  let s' := latest s h in
  if (activeCount s' =? 0)%Z && (List.length (jobQueue s') =? 0)%nat
  then h ++ [setProcessing false s']
  else h.

Definition drainQueue (s : Scheduler) : list Scheduler :=
  if isProcessing s then []
  else
    let s1 := setProcessing true s in
    s1 :: tryNext s1.

Definition addJobsToQueue (jobs : list Job) (s : Scheduler) : list Scheduler :=
  if (List.length jobs =? 0)%nat then []
  else
    let s1 := setQueue (jobQueue s ++ jobs) s in          (* jobQueueRef.current.push(...jobs) *)
    s1 :: drainQueue s1.

Definition removeAt {A} (k : nat) (l : list A) : list A := firstn k l ++ skipn (S k) l.

(** The promise of the job in flight number [k] settles and its
    [finally] callback runs. *)
Definition settle (k : nat) (s : Scheduler) : list Scheduler :=
  match nth_error (running s) k with
  | None => []
  | Some _ =>
      let s1 := setActive (activeCount s - 1) (setRunning (removeAt k (running s)) s) in
      s1 :: tryNext s1
  end.

Definition handleClearCompleted (s : Scheduler) : list Scheduler :=
  let s1 := setQueue [] s in
  let s2 := setActive 0 s1 in
  let s3 := setProcessing false s2 in
  [s1; s2; s3].

(** What happens to the scheduler. *)
Inductive Event : Type :=
| Enqueue (jobs : list Job)           (* addJobsToQueue(jobs) *)
| Settle (k : nat)                    (* a job in flight completes *)
| Clear.                              (* handleClearCompleted() *)

Definition handle (ev : Event) (s : Scheduler) : list Scheduler :=
  match ev with
  | Enqueue jobs => addJobsToQueue jobs s
  | Settle k => settle k s
  | Clear => handleClearCompleted s
  end.

(** Every state the scheduler goes through under a sequence of events. *)
Fixpoint timeline (events : list Event) (s : Scheduler) : list Scheduler :=
  match events with
  | [] => []
  | ev :: rest =>
      let h := handle ev s in
      h ++ timeline rest (latest s h)
  end.

Definition isClear (ev : Event) : bool :=
  match ev with Clear => true | _ => false end.

End ResultsStep.

(* ================================================================== *)
(** * What the statements speak of *)
(* ================================================================== *)

Module Properties.
Import AiService ResultsStep.

(** The timeouts this service passes to [fetchWithTimeout], the default
    included. *)
Definition timeoutsInUse : list N := [90000; 60000; 30000; 120000; 20000]%N.

(** The error [fetchWithTimeout] throws when the timer aborts the request. *)
Definition timeoutError (timeout : N) : Thrown :=
  Error ("Request timed out after " ++ thousandth timeout ++ " seconds.").

(** [error instanceof FetchError && error.status === 429] *)
Definition hasStatus429 (error : Thrown) : bool :=
  match error with
  | ErrorObject (FetchError status) _ => (status =? 429)%Z
  | _ => false
  end.

(** The reports of one batch of the loop over [posts]. *)
Definition reported (posts : list WordPressPost) (onProgress : bool) (i : nat) : list Effect :=
  if onProgress
  then [Progress (Nat.min (i + BATCH_SIZE) (List.length posts)) (List.length posts)]
  else [].

(** The sibling loop of [insertAfterIn], on the children of an element
    with tag [tag]. *)
Definition siblingsOf (fragment : string -> list node) (tag : string) (k : nat)
    (l : list node) : list node :=
  match insertAfterIn fragment k (Element tag [] l) with
  | Element _ _ children => children
  | _ => l
  end.

(** The payload carries no image URL: it is absent, or its [imageUrl] is
    the empty string. *)
Definition lacksImageUrl (job : Job) : Prop :=
  payload job = None \/ exists pl, payload job = Some pl /\ imageUrl pl = EmptyString.

(** What the failed insertion tells: the precondition, or that the post
    is not in the posts the processor reads. *)
Definition insertFailure (current : list WordPressPost) (job : Job) : string :=
  match find (fun p => (id p =? id (post job))%Z) current with
  | Some _ => "No image URL for insertion."
  | None => "Post " ++ decimalZ (id (post job)) ++ " not found in current state."
  end.

(** A post with status and message replaced, everything else kept. *)
Definition failed (p : WordPressPost) (message : string) : WordPressPost :=
  {| id := id p; title := title p; excerpt := excerpt p; content := content p;
     featured_media := featured_media p; imageCount := imageCount p;
     existingImageUrl := existingImageUrl p;
     existingImageAltText := existingImageAltText p;
     generatedImage := generatedImage p;
     status := Some Status.error; statusMessage := Some message |}.

(** What holds at every instant without a clear: the counter is between
    0 and the ceiling and covers the jobs in flight. *)
Definition Bounded (s : Scheduler) : Prop :=
  (0 <= activeCount s <= MAX_CONCURRENT_JOBS)%Z
  /\ (Z.of_nat (List.length (running s)) <= activeCount s)%Z.

(** What holds between two events: the counter is the number of jobs in
    flight. *)
Definition Settled (s : Scheduler) : Prop :=
  activeCount s = Z.of_nat (List.length (running s))
  /\ (activeCount s <= MAX_CONCURRENT_JOBS)%Z.

(** The content with the markup of the placeholder inserted after the
    paragraph number [k]. *)
Definition afterParagraph {browser : AiService.Browser} (postContent placeholder : string)
    (k : nat) : string :=
  innerHTML
    (insertAfterParagraph (fun tag => parseFragment tag (placeholderLine placeholder)) k
       (parseFromString postContent)).

End Properties.

(* ================================================================== *)
(** * Sample posts, jobs and providers *)
(* ================================================================== *)

Module Samples.
Import AiService ResultsStep.

(** An operation that is throttled twice, then answers. *)
Definition throttledTwice : Remote nat string :=
  fun n =>
    (if (n <? 2)%nat
     then Threw (ErrorObject (FetchError 429) "API request failed with status 429")
     else Returned "4",
     S n).

(** An operation that is throttled every time. *)
Definition alwaysThrottled : Remote nat string :=
  fun n => (Threw (ErrorObject PlainError "RESOURCE_EXHAUSTED: quota exceeded"), S n).

(** A request the timer always aborts. *)
Definition abortedFetch : Remote nat string :=
  fun n => (Threw (ErrorObject (DOMException "AbortError") "The operation was aborted."), S n).

(** A post, a provider that answers an empty array at once, and JSON
    tools that take any text for an array without elements. *)
Definition samplePost (n : Z) : WordPressPost :=
  {| id := n; title := "Title"; excerpt := "Excerpt"; content := "<p>Body</p>";
     featured_media := 0; imageCount := 0; existingImageUrl := None;
     existingImageAltText := None; generatedImage := None; status := None;
     statusMessage := None |}.

Definition sampleConfig : AnalysisAIConfig :=
  {| analysisProvider := TextGemini; analysisApiKey := Some "key"; analysisModel := None |}.

Definition emptyJson : Json :=
  {| extractJson := fun text => Some text;
     parseBriefs := fun _ => Returned [];
     stringifyPosts := fun _ => EmptyString |}.

Definition promptCounter : Providers nat :=
  {| generateText := fun _ _ _ _ n => (Returned "2", S n);
     generateJsonText := fun _ _ n => (Returned "[]", S n);
     imageOperation := fun _ _ _ n => (Returned "data:image/png;base64,", S n) |}.

(** Three paragraphs long enough to be asked about, and a provider whose
    answer names no paragraph. *)
Definition longText (name : string) : string :=
  name ++ " paragraph: a sentence that is long enough, beyond eighty characters, to count as significant.".

Definition threeParagraphs : string :=
  "<p>" ++ longText "First" ++ "</p><p>" ++ longText "Second" ++ "</p><p>"
  ++ longText "Third" ++ "</p>".

Definition undecided : Providers nat :=
  {| generateText := fun _ _ _ _ n => (Returned "none of them", S n);
     generateJsonText := fun _ _ n => (Returned "[]", S n);
     imageOperation := fun _ _ _ n => (Returned "data:image/png;base64,", S n) |}.

(** A content platform that accepts everything. *)
Definition acceptingPlatform : WordPress nat :=
  {| uploadImage := fun _ _ _ _ _ n =>
       (Returned {| mediaResponseId := 1; source_url := "https://example.org/1.png" |}, S n);
     updatePost := fun _ _ _ n => (Returned tt, S n);
     dateNow := fun n => Z.of_nat n |}.

Definition sampleConfiguration : Configuration :=
  {| wordpress := {| url := "https://example.org"; username := "editor"; appPassword := None |};
     aiAnalysis := sampleConfig;
     aiImage := {| imageProvider := Pollinations; imageApiKey := None; imageModel := None |};
     image := {| style := "photo"; negativePrompt := None; aspectRatio := None |} |}.

Definition insertJob (n : Z) (pl : option Payload) : Job :=
  {| post := samplePost n; action := insert; payload := pl |}.

Definition jobsNumbered (first count : nat) : list Job :=
  map (fun n => insertJob (Z.of_nat n) None) (seq first count).

End Samples.

(* ================================================================== *)
(** * More readings of the queue drainer *)
(* ================================================================== *)

Module QueueReadings.
Import ResultsStep.

(** The jobs handed to [addJobsToQueue] by a sequence of events, in order. *)
Definition enqueued (events : list Event) : list Job :=
  flat_map (fun ev => match ev with Enqueue jobs => jobs | _ => [] end) events.

(** The number of completions of a job in flight in a sequence of events
    that starts in [s]. *)
Fixpoint completed (events : list Event) (s : Scheduler) : nat :=
  match events with
  | [] => 0
  | ev :: rest =>
      match ev with
      | Settle k => match nth_error (running s) k with Some _ => 1 | None => 0 end
      | _ => 0
      end
      + completed rest (latest s (handle ev s))
  end.

(** The number of jobs the [while] loop of [tryNext] starts: the free
    slots, or the pending jobs if there are fewer. *)
Definition startable (s : Scheduler) : nat :=
  Nat.min (Z.to_nat (MAX_CONCURRENT_JOBS - activeCount s)) (List.length (jobQueue s)).

(** The drainer between two events: off exactly when nothing is pending
    or in flight, on with at least one job in flight, and never leaving a
    free slot when a job is pending unless it is on. *)
Definition Armed (s : Scheduler) : Prop :=
  activeCount s = Z.of_nat (List.length (running s))
  /\ (activeCount s <= MAX_CONCURRENT_JOBS)%Z
  /\ (isProcessing s = false -> activeCount s = 0%Z /\ jobQueue s = [])
  /\ (isProcessing s = true -> (1 <= activeCount s)%Z).

End QueueReadings.

(* ================================================================== *)
(** * The cards, the upload dialog and the action handlers *)
(* ================================================================== *)

Module PostCard.
Import ResultsStep.

(** [!!s] for a string that may be undefined *)
Definition present (o : option string) : bool :=
  match o with
  | Some s => truthy s
  | None => false
  end.

Definition needsImage (post : WordPressPost) : bool :=
  (featured_media post =? 0)%Z || (imageCount post =? 0)%Z.

(** [getStatusIndicator()]: whether the spinner is rendered. *)
Definition getStatusIndicator (post : WordPressPost) : bool :=
  match status post with
  | None => false
  | Some Status.idle | Some Status.success | Some Status.error
  | Some Status.analysis_success => false
  | Some _ => true
  end.

Definition canInsert (post : WordPressPost) : bool :=
  match generatedImage post with
  | Some generated => truthy (imageUrlOf generated)
  | None => false
  end
  || present (existingImageUrl post).

Definition canSetFeatured (post : WordPressPost) : bool :=
  match generatedImage post with
  | Some generated => negb (mediaId generated =? 0)%Z
  | None => false
  end.

End PostCard.

Module UploadImageModal.
Import ResultsStep PostCard.

(** [handleUpload()]: the data URL and the alternative text [onUpload]
    is called with; nothing when the dialog alerts instead. *)
Definition handleUpload (preview : option string) (altText : string)
    : option (string * string) :=
  match preview with
  | Some dataUrl =>
      if negb (truthy dataUrl) || negb (truthy (trim altText)) then None
      else Some (dataUrl, trim altText)
  | None => None
  end.

End UploadImageModal.

Module Handlers.
Import ResultsStep PostCard.

(** The state [insertModalData]. *)
Record InsertModalData : Type := {
  modalPost : WordPressPost;
  modalImageUrl : string;
  modalAltText : string
}.

Definition generateJob (p : WordPressPost) : Job :=
  {| post := p; action := generate; payload := None |}.

Definition handleGenerate (postsToProcess : list WordPressPost) (s : Scheduler)
    : list Scheduler :=
  addJobsToQueue (map generateJob postsToProcess) s.

(** [handleInsert(post)]: the data of the dialog it opens; nothing when
    it alerts instead. *)
Definition handleInsert (post : WordPressPost) : option InsertModalData :=
  match generatedImage post with
  | Some generated =>
      Some {| modalPost := post; modalImageUrl := imageUrlOf generated;
              modalAltText := alt generated |}
  | None =>
      match existingImageUrl post with
      | Some existing =>
          if truthy existing then
            Some {| modalPost := post; modalImageUrl := existing;
                    modalAltText := orElse (existingImageAltText post) EmptyString |}
          else None
      | None => None
      end
  end.

Definition autoInsertJob (d : InsertModalData) : Job :=
  {| post := modalPost d; action := insert;
     payload := Some {| imageUrl := modalImageUrl d; payloadAltText := modalAltText d;
                        imageDataUrl := None; prebuiltContent := None |} |}.

Definition handleAutoInsert (insertModalData : option InsertModalData) (s : Scheduler)
    : list Scheduler :=
  match insertModalData with
  | None => []
  | Some d => addJobsToQueue [autoInsertJob d] s
  end.

Definition manualInsertJob (d : InsertModalData) (newContent : string) : Job :=
  {| post := modalPost d; action := insert_at;
     payload := Some {| imageUrl := modalImageUrl d; payloadAltText := modalAltText d;
                        imageDataUrl := None; prebuiltContent := Some newContent |} |}.

Definition handleManualInsert (insertModalData : option InsertModalData)
    (newContent : string) (s : Scheduler) : list Scheduler :=
  match insertModalData with
  | None => []
  | Some d => addJobsToQueue [manualInsertJob d newContent] s
  end.

Definition setFeaturedJob (p : WordPressPost) : Job :=
  {| post := p; action := set_featured; payload := None |}.

Definition handleSetFeatured (post : WordPressPost) (s : Scheduler) : list Scheduler :=
  addJobsToQueue [setFeaturedJob post] s.

(** The jobs of [handleBulkInsertExisting]; an undefined [existingImageUrl]
    cannot pass the filter. *)
Definition bulkInsertJobs (postsToProcess : list WordPressPost) : list Job :=
  map (fun p =>
         {| post := p; action := insert;
            payload := Some {| imageUrl := orElse (existingImageUrl p) EmptyString;
                               payloadAltText := orElse (existingImageAltText p) EmptyString;
                               imageDataUrl := None; prebuiltContent := None |} |})
      (filter (fun p => present (existingImageUrl p)) postsToProcess).

(** [handleBulkInsertExisting(postsToProcess)]; it alerts when no job is
    left. *)
Definition handleBulkInsertExisting (postsToProcess : list WordPressPost) (s : Scheduler)
    : list Scheduler :=
  let jobs := bulkInsertJobs postsToProcess in
  if (0 <? List.length jobs)%nat then addJobsToQueue jobs s else [].

Definition uploadJob (p : WordPressPost) (dataUrl altText : string) : Job :=
  {| post := p; action := upload_insert;
     payload := Some {| imageUrl := EmptyString; payloadAltText := altText;
                        imageDataUrl := Some dataUrl; prebuiltContent := None |} |}.

Definition handleUploadImage (post : WordPressPost) (imageDataUrl altText : string)
    (s : Scheduler) : list Scheduler :=
  addJobsToQueue [uploadJob post imageDataUrl altText] s.

Definition filteredPosts (filter : string) (posts : list WordPressPost)
    : list WordPressPost :=
  if String.eqb filter "missing" then List.filter needsImage posts
  else if String.eqb filter "generated"
  then List.filter (fun p => match generatedImage p with Some _ => true | None => false end)
         posts
  else posts.

Definition missingImagePosts (posts : list WordPressPost) : list WordPressPost :=
  List.filter
    (fun p => match generatedImage p with Some _ => false | None => true end
              && needsImage p)
    posts.

(** [handleGenerateForAllMissing()]; [confirmed] is the answer to
    [window.confirm]. *)
Definition handleGenerateForAllMissing (confirmed : bool) (posts : list WordPressPost)
    (s : Scheduler) : list Scheduler :=
  if confirmed then handleGenerate (missingImagePosts posts) s else [].

End Handlers.

(* ================================================================== *)
(** * More sample posts *)
(* ================================================================== *)

Module MoreSamples.
Import ResultsStep.

(** A post that has an image of its own already. *)
Definition illustrated (n : Z) : WordPressPost :=
  {| id := n; title := "Title"; excerpt := "Excerpt"; content := "<p>Body</p>";
     featured_media := 5; imageCount := 0;
     existingImageUrl := Some "https://example.org/old.png";
     existingImageAltText := Some "An old picture"; generatedImage := None;
     status := None; statusMessage := None |}.

(** A post an image has been generated for. *)
Definition withGenerated (n : Z) : WordPressPost :=
  {| id := n; title := "Title"; excerpt := "Excerpt"; content := "<p>Body</p>";
     featured_media := 0; imageCount := 0; existingImageUrl := None;
     existingImageAltText := None;
     generatedImage := Some {| imageUrlOf := "https://example.org/new.png";
                               alt := "A new picture"; mediaId := 7;
                               imageBrief := None |};
     status := Some Status.success; statusMessage := Some "Image generated!" |}.

End MoreSamples.

(* ================================================================== *)
(** * The AI service: providers, connection tests and image data *)
(* ================================================================== *)

(** String methods the provider layer uses. *)
Module JsText.

(** [toLowerCase] on one code unit below 256. *)
Definition lowerUnit (c : ascii) : ascii :=
  let n := nat_of_ascii c in
  if ((65 <=? n) && (n <=? 90) || (192 <=? n) && (n <=? 222) && negb (n =? 215))%nat
  then ascii_of_nat (n + 32)
  else c.

Fixpoint toLowerCase (s : string) : string :=
  match s with
  | EmptyString => EmptyString
  | String c rest => String (lowerUnit c) (toLowerCase rest)
  end.

Fixpoint indexFrom (i : nat) (s sub : string) : Z :=
  if String.prefix sub s then Z.of_nat i
  else
    match s with
    | EmptyString => (-1)%Z
    | String _ rest => indexFrom (S i) rest sub
    end.

(** [s.indexOf(sub)] *)
Definition indexOf (s sub : string) : Z := indexFrom 0 s sub.

Fixpoint lastIndexFrom (i : nat) (s sub : string) (found : Z) : Z :=
  let found' := if String.prefix sub s then Z.of_nat i else found in
  match s with
  | EmptyString => found'
  | String _ rest => lastIndexFrom (S i) rest sub found'
  end.

(** [s.lastIndexOf(sub)] *)
Definition lastIndexOf (s sub : string) : Z := lastIndexFrom 0 s sub (-1)%Z.

(** [s.substring(start, finish)]: both ends are clamped to the string,
    and swapped when the first is the larger. *)
Definition substring (s : string) (start finish : Z) : string :=
  let len := Z.of_nat (String.length s) in
  let a := Z.max 0 (Z.min start len) in
  let b := Z.max 0 (Z.min finish len) in
  String.substring (Z.to_nat (Z.min a b)) (Z.to_nat (Z.max a b - Z.min a b)) s.

(** [s.substring(start)] *)
Definition substringFrom (s : string) (start : Z) : string :=
  substring s start (Z.of_nat (String.length s)).

(** [s.startsWith(p)] *)
Definition startsWith (s p : string) : bool := String.prefix p s.

End JsText.

Module AiClient.
Import JsText.

(** The object a request body is the JSON text of. *)
Inductive Body : Type :=
| ChatBody (model prompt : string) (max_tokens : option N)
| ImageBody (model prompt : string) (aspectRatio : option string)
| StabilityBody (prompt : string) (aspectRatio : option string)
| ProxyBody (imageUrl : string).

(** [fetch(resource, { method, headers, body })] *)
Record Request : Type := {
  resource : string;
  method : option string;
  headers : list (string * string);
  body : option Body
}.

(** What the code reads in the JSON of a chat completion: the content of
    the first choice when [data.choices], its first element and its
    message content are all truthy, and the finish reason of the first
    choice otherwise. *)
Inductive ChatReply : Type :=
| Content (content : string)
| NoContent (finish_reason : option string).

(** The result of a connection test. *)
Record TestResult : Type := {
  testSuccess : bool;                 (* success *)
  testMessage : string                (* message *)
}.

(** The network and the Gemini client library.  The readers of a
    response body ([text()], [json()] followed by the property reads,
    [blob()] followed by the file reader) are asynchronous and may
    fail. *)
Class Network (Env : Type) : Type := {
  Response : Type;
  responseOk : Response -> bool;                          (* response.ok *)
  responseStatus : Response -> Z;                         (* response.status *)
  fetch : Request -> Remote Env Response;
  responseText : Response -> Remote Env string;           (* response.text() *)
  chatReply : Response -> Remote Env ChatReply;
  imageBytes : Response -> Remote Env (option string);    (* data.data[0].b64_json, if truthy *)
  artifactBytes : Response -> Remote Env (option string); (* data.artifacts[0].base64, if truthy *)
  proxyErrorData : Response -> Remote Env (option string);(* errorData.error, if truthy *)
  proxyBase64 : Response -> Remote Env string;            (* data.base64 *)
  readAsDataURL : Response -> Remote Env string;          (* response.blob() and the file reader *)
  (* ai.models.generateContent for a key and a prompt, with or without
     the JSON response configuration: response.text *)
  geminiGenerateContent : string -> string -> bool -> Remote Env string;
  (* ai.models.generateImages for a key, a prompt and an aspect ratio:
     the image bytes of the first image *)
  geminiGenerateImages : string -> string -> option string -> Remote Env string;
  (* ai.models.generateContent on an image part, for a key, a mime type
     and the data: response.text *)
  geminiVision : string -> string -> string -> Remote Env string;
  Analysis : Type;
  parseAnalysis : string -> option Analysis;              (* JSON.parse, when it does not throw *)
  encodeURIComponent : string -> string;
  supabaseUrl : option string;                            (* import.meta.env.VITE_SUPABASE_URL *)
  supabaseKey : option string                             (* import.meta.env.VITE_SUPABASE_ANON_KEY *)
}.

Section Client.

Context {Env : Type} {net : Network Env}.

Definition pure {A} (a : A) : Remote Env A := fun e => (Returned a, e).

Definition raise {A} (error : Thrown) : Remote Env A := fun e => (Threw error, e).

(** [await m] followed by [k] *)
Definition andThen {A B} (m : Remote Env A) (k : A -> Remote Env B) : Remote Env B :=
  fun e =>
    match m e with
    | (Returned a, e') => k a e'
    | (Threw error, e') => (Threw error, e')
    end.

(** [try { m } catch (error) { handler error }] *)
Definition orCatch {A} (m : Remote Env A) (handler : Thrown -> Remote Env A) : Remote Env A :=
  fun e =>
    match m e with
    | (Returned a, e') => (Returned a, e')
    | (Threw error, e') => handler error e'
    end.

(** [getGeminiClient(apiKey)]: the key the client is made with. *)
Definition getGeminiClient (apiKey : option string) : Remote Env string :=
  match apiKey with
  | Some key =>
      if AiService.missing apiKey
      then raise (Error "Google Gemini API Key is missing. Please provide it in the configuration.")
      else pure key
  | None =>
      raise (Error "Google Gemini API Key is missing. Please provide it in the configuration.")
  end.

Definition bearer (apiKey : string) : list (string * string) :=
  [("Content-Type", "application/json"); ("Authorization", ("Bearer " ++ apiKey)%string)].

(** [if (maxTokens) body.max_tokens = maxTokens] *)
Definition tokenLimit (maxTokens : option N) : option N :=
  match maxTokens with
  | Some n => if (n =? 0)%N then None else Some n
  | None => None
  end.

Definition chatRequest (apiUrl apiKey model prompt : string) (maxTokens : option N)
    : Request :=
  {| resource := apiUrl; method := Some "POST"; headers := bearer apiKey;
     body := Some (ChatBody model prompt (tokenLimit maxTokens)) |}.

(** [callOpenAICompatibleAPI(apiUrl, apiKey, model, prompt, maxTokens, timeout)] *)
Definition callOpenAICompatibleAPI (apiUrl apiKey model prompt : string)
    (maxTokens timeout : option N) : Remote Env string :=
  andThen
    (AiService.fetchWithTimeout (fetch (chatRequest apiUrl apiKey model prompt maxTokens))
       (orElse timeout AiService.defaultTimeout))
    (fun response =>
       if negb (responseOk response) then
         andThen (responseText response)
           (fun errorBody =>
              raise (ErrorObject (FetchError (responseStatus response))
                       ("API request failed with status "
                        ++ decimalZ (responseStatus response))))
       else
         andThen (chatReply response)
           (fun data =>
              match data with
              | Content content => pure content
              | NoContent finishReason =>
                  if match finishReason with
                     | Some reason => String.eqb reason "content_filter"
                     | None => false
                     end
                  then raise (Error "The AI provider blocked the response due to its safety filters.")
                  else raise (Error "AI provider returned an empty or invalid response. This can happen if the model is overloaded or safety filters are triggered. Try a different model.")
              end)).

(** [generateText(analysisConfig, prompt, maxTokens, timeout)] *)
Definition generateText (analysisConfig : AnalysisAIConfig) (prompt : string)
    (maxTokens timeout : option N) : Remote Env string :=
  let apiKey := analysisApiKey analysisConfig in
  let model := analysisModel analysisConfig in
  match analysisProvider analysisConfig with
  | TextGemini =>
      andThen (getGeminiClient apiKey) (fun ai => geminiGenerateContent ai prompt false)
  | TextOpenAI =>
      if AiService.missing apiKey then raise (Error "OpenAI API key is required.")
      else callOpenAICompatibleAPI "https://api.openai.com/v1/chat/completions"
             (orElse apiKey EmptyString) "gpt-4-turbo" prompt maxTokens timeout
  | TextGroq =>
      if AiService.missing apiKey then raise (Error "Groq API key is required.")
      else if AiService.missing model then raise (Error "Groq model name is required.")
      else callOpenAICompatibleAPI "https://api.groq.com/openai/v1/chat/completions"
             (orElse apiKey EmptyString) (orElse model EmptyString) prompt maxTokens timeout
  | TextOpenRouter =>
      if AiService.missing apiKey then raise (Error "OpenRouter API key is required.")
      else if AiService.missing model then raise (Error "OpenRouter model name is required.")
      else callOpenAICompatibleAPI "https://openrouter.ai/api/v1/chat/completions"
             (orElse apiKey EmptyString) (orElse model EmptyString) prompt maxTokens timeout
  end.

Definition jsonInstruction : string :=
  nl ++ nl ++ "IMPORTANT: Your response MUST be a valid JSON object (or array of objects) and nothing else. Do not include markdown formatting, code blocks, or any explanatory text.".

(** [generateJsonText(analysisConfig, prompt, schema)] *)
Definition generateJsonText (analysisConfig : AnalysisAIConfig) (prompt : string)
    : Remote Env string :=
  match analysisProvider analysisConfig with
  | TextGemini =>
      andThen (getGeminiClient (analysisApiKey analysisConfig))
        (fun ai => geminiGenerateContent ai prompt true)
  | _ => generateText analysisConfig (prompt ++ jsonInstruction) None None
  end.

Definition pngDataUrl (base64 : string) : string := "data:image/png;base64," ++ base64.

(** [callOpenAICompatibleImageAPI(apiUrl, apiKey, model, prompt, aspectRatio)] *)
Definition callOpenAICompatibleImageAPI (apiUrl apiKey model prompt : string)
    (aspectRatio : option string) : Remote Env string :=
  andThen
    (AiService.fetchWithTimeout
       (fetch {| resource := apiUrl; method := Some "POST"; headers := bearer apiKey;
                 body := Some (ImageBody model prompt aspectRatio) |})
       120000)
    (fun response =>
       if negb (responseOk response) then
         andThen (responseText response)
           (fun errorBody =>
              raise (ErrorObject (FetchError (responseStatus response))
                       ("Image API request failed with status "
                        ++ decimalZ (responseStatus response))))
       else
         andThen (imageBytes response)
           (fun data =>
              match data with
              | Some b64_json => pure (pngDataUrl b64_json)
              | None => raise (Error "Invalid response from image generation API.")
              end)).

(** [callStabilityImageAPI(apiKey, model, prompt, aspectRatio)] *)
Definition callStabilityImageAPI (apiKey model prompt : string)
    (aspectRatio : option string) : Remote Env string :=
  andThen
    (AiService.fetchWithTimeout
       (fetch {| resource := "https://api.stability.ai/v1/generation/" ++ model
                             ++ "/text-to-image";
                 method := Some "POST";
                 headers := [("Content-Type", "application/json");
                             ("Accept", "application/json");
                             ("Authorization", ("Bearer " ++ apiKey)%string)];
                 body := Some (StabilityBody prompt aspectRatio) |})
       120000)
    (fun response =>
       if negb (responseOk response) then
         andThen (responseText response)
           (fun errorBody =>
              raise (ErrorObject (FetchError (responseStatus response))
                       ("Image API request failed with status "
                        ++ decimalZ (responseStatus response))))
       else
         andThen (artifactBytes response)
           (fun data =>
              match data with
              | Some base64 => pure (pngDataUrl base64)
              | None => raise (Error "Invalid response from Stability API.")
              end)).

(** The direct fetch that ends [fetchImageAsBase64]. *)
Definition directFetch (imageUrl : string) : Remote Env string :=
  andThen
    (AiService.fetchWithTimeout
       (fetch {| resource := imageUrl; method := None; headers := []; body := None |})
       30000)
    (fun response =>
       if negb (responseOk response)
       then raise (Error ("Failed to fetch image from URL: " ++ imageUrl))
       else readAsDataURL response).

(** The [try] block of [fetchImageAsBase64], for a proxy at [proxyBase]
    and its key. *)
Definition proxyFetch (proxyBase proxyKey imageUrl : string) : Remote Env string :=
  andThen
    (AiService.fetchWithTimeout
       (fetch {| resource := proxyBase ++ "/functions/v1/image-proxy";
                 method := Some "POST"; headers := bearer proxyKey;
                 body := Some (ProxyBody imageUrl) |})
       60000)
    (fun response =>
       if negb (responseOk response) then
         andThen (proxyErrorData response)
           (fun errorData =>
              raise (Error (match errorData with
                            | Some error => error
                            | None => "Proxy request failed with status "
                                      ++ decimalZ (responseStatus response)
                            end)))
       else proxyBase64 response).

(** [fetchImageAsBase64(imageUrl)] *)
Definition fetchImageAsBase64 (imageUrl : string) : Remote Env string :=
  if startsWith imageUrl "data:" then pure imageUrl
  else if negb (AiService.missing supabaseUrl) && negb (AiService.missing supabaseKey)
  then orCatch
         (proxyFetch (orElse supabaseUrl EmptyString) (orElse supabaseKey EmptyString)
            imageUrl)
         (fun proxyError => directFetch imageUrl)
  else directFetch imageUrl.

(** A value that may be undefined, in a template literal. *)
Definition templated (o : option string) : string :=
  match o with
  | Some text => text
  | None => "undefined"
  end.

(** The closure [operation] of [generateImage]; the key is asserted to
    be defined ([apiKey!]), which [generateImage] has checked for every
    provider that uses it. *)
Definition operation (imageConfig : ImageAIConfig) (prompt : string)
    (settings : ImageSettings) : Remote Env string :=
  let apiKey := imageApiKey imageConfig in
  let model := imageModel imageConfig in
  match imageProvider imageConfig with
  | Gemini =>
      andThen (getGeminiClient apiKey)
        (fun ai =>
           andThen (geminiGenerateImages ai prompt (aspectRatio settings))
             (fun base64ImageBytes => pure (pngDataUrl base64ImageBytes)))
  | DallE3 =>
      callOpenAICompatibleImageAPI "https://api.openai.com/v1/images/generations"
        (templated apiKey) "dall-e-3" prompt (aspectRatio settings)
  | OpenRouter =>
      if AiService.missing model
      then raise (Error "A model name is required for OpenRouter image generation.")
      else callOpenAICompatibleImageAPI "https://openrouter.ai/api/v1/images/generations"
             (templated apiKey) (orElse model EmptyString) prompt (aspectRatio settings)
  | Stability =>
      if AiService.missing model
      then raise (Error "A model name (engine ID) is required for Stability AI.")
      else callStabilityImageAPI (templated apiKey) (orElse model EmptyString)
             prompt (aspectRatio settings)
  | Pollinations =>
      fetchImageAsBase64 ("https://pollinations.ai/p/" ++ encodeURIComponent prompt)
  end.

(** The provider layer as the operations the orchestration code calls. *)
#[export] Instance providers : AiService.Providers Env := {
  AiService.generateText := generateText;
  AiService.generateJsonText := generateJsonText;
  AiService.imageOperation := operation
}.

(** The two parts [analyzeImageWithVision] cuts a data URL into. *)
Definition mimeTypeOf (base64ImageData : string) : string :=
  substring base64ImageData (indexOf base64ImageData ":" + 1) (indexOf base64ImageData ";").

Definition dataOf (base64ImageData : string) : string :=
  substringFrom base64ImageData (indexOf base64ImageData "," + 1).

(** [analyzeImageWithVision(geminiApiKey, imageUrl)] *)
Definition analyzeImageWithVision (geminiApiKey imageUrl : string) : Async Env Analysis :=
  ai <- perform (getGeminiClient (Some geminiApiKey)) ;;
  base64ImageData <- perform (fetchImageAsBase64 imageUrl) ;;
  response <-
    AiService.retryableAIOperation
      (geminiVision ai (mimeTypeOf base64ImageData) (dataOf base64ImageData)) 3 2000 ;;
  match parseAnalysis response with
  | Some analysis => ret analysis
  | None => throw (Error "AI failed to generate valid analysis data.")
  end.

(** [getFriendlyAIError(error, provider)] *)
Definition getFriendlyAIError (error : Thrown) (provider : string) : string :=
  let message :=
    match error with
    | ErrorObject _ text => text
    | NonError _ => "An unknown error occurred."
    end in
  if includes message "401" || includes (toLowerCase message) "api key"
     || includes (toLowerCase message) "authentication"
  then "Authentication failed for " ++ provider ++ ". Please check your API Key."
  else if includes message "404"
  then "Model not found for " ++ provider ++ ". Please check the model name."
  else if includes message "429" || includes message "RESOURCE_EXHAUSTED"
  then "API rate limit exceeded for " ++ provider ++ ". Please wait and try again."
  else if includes message "timed out"
  then "The request to " ++ provider ++ " timed out. The service may be unavailable."
  else message.

(** [testTextAIProvider(config)] *)
Definition testTextAIProvider (config : AnalysisAIConfig) : Remote Env TestResult :=
  orCatch
    (if AiService.missing (analysisApiKey config) then raise (Error "API Key is required.")
     else
       andThen (generateText config "This is a connection test." (Some 5%N) (Some 20000%N))
         (fun _ => pure {| testSuccess := true; testMessage := "Connection successful." |}))
    (fun error =>
       pure {| testSuccess := false;
               testMessage :=
                 getFriendlyAIError error (textProviderName (analysisProvider config)) |}).

Definition testRequest (testUrl apiKey : string) : Request :=
  {| resource := testUrl; method := Some "GET";
     headers := [("Authorization", ("Bearer " ++ apiKey)%string)]; body := None |}.

(** The address the credentials of an image provider are tested at. *)
Definition testUrlOf (provider : AIProvider) : option string :=
  match provider with
  | DallE3 => Some "https://api.openai.com/v1/models"
  | OpenRouter => Some "https://openrouter.ai/api/v1/models"
  | Stability => Some "https://api.stability.ai/v1/user/balance"
  | _ => None
  end.

(** [testImageAIProvider(config)] *)
Definition testImageAIProvider (config : ImageAIConfig) : Remote Env TestResult :=
  let provider := imageProvider config in
  let apiKey := imageApiKey config in
  orCatch
    (if AiService.missing apiKey then raise (Error "API Key is required.")
     else
       match provider with
       | Gemini =>
           testTextAIProvider
             {| analysisProvider := TextGemini; analysisApiKey := apiKey;
                analysisModel := None |}
       | DallE3 | OpenRouter | Stability =>
           andThen
             (AiService.fetchWithTimeout
                (fetch (testRequest (orElse (testUrlOf provider) EmptyString)
                          (orElse apiKey EmptyString)))
                20000)
             (fun response =>
                if negb (responseOk response)
                then raise (ErrorObject (FetchError (responseStatus response))
                              ("API test failed with status "
                               ++ decimalZ (responseStatus response)))
                else pure {| testSuccess := true;
                             testMessage := "Connection successful." |})
       | Pollinations =>
           pure {| testSuccess := true; testMessage := "No test required." |}
       end)
    (fun error =>
       pure {| testSuccess := false;
               testMessage := getFriendlyAIError error (providerName provider) |}).

End Client.

End AiClient.

(* ================================================================== *)
(** * Readings of the provider layer *)
(* ================================================================== *)

Module ClientReadings.
Import JsText AiClient.

(** The message of the error [generateText] and [generateJsonText] throw
    for a provider whose API key is missing. *)
Definition keyMessage (provider : TextAIProvider) : string :=
  match provider with
  | TextGemini => "Google Gemini API Key is missing. Please provide it in the configuration."
  | TextOpenAI => "OpenAI API key is required."
  | TextGroq => "Groq API key is required."
  | TextOpenRouter => "OpenRouter API key is required."
  end.

(** The code unit [c] does not occur in [s]. *)
Fixpoint lacks (c : ascii) (s : string) : bool :=
  match s with
  | EmptyString => true
  | String d rest => negb (Ascii.eqb c d) && lacks c rest
  end.

(** The tests of [getFriendlyAIError] on a message, in the order of the
    code. *)
Definition signs (message : string) : list bool :=
  [ includes message "401"; includes (toLowerCase message) "api key";
    includes (toLowerCase message) "authentication"; includes message "404";
    includes message "429"; includes message "RESOURCE_EXHAUSTED";
    includes message "timed out" ].

(** What the connection test of an image provider reports for a
    response that is not ok, by its status. *)
Definition reportOfStatus (status : Z) (provider : string) : string :=
  if (status =? 401)%Z
  then "Authentication failed for " ++ provider ++ ". Please check your API Key."
  else if (status =? 404)%Z
  then "Model not found for " ++ provider ++ ". Please check the model name."
  else if (status =? 429)%Z
  then "API rate limit exceeded for " ++ provider ++ ". Please wait and try again."
  else "API test failed with status " ++ decimalZ status.

(** The statuses from 0 to 999: whether a message that ends with the
    status shows every sign as the status alone tells. *)
Definition statusSigns (prefix : string) (n : nat) : bool :=
  let message := (prefix ++ decimalZ (Z.of_nat n))%string in
  match signs message with
  | [s401; key; auth; s404; s429; exhausted; timedOut] =>
      Bool.eqb s401 (n =? 401)%nat && negb key && negb auth
      && Bool.eqb s404 (n =? 404)%nat && Bool.eqb s429 (n =? 429)%nat
      && negb exhausted && negb timedOut
  | _ => false
  end.

(** The request [generateImage] makes for Pollinations when no proxy is
    configured. *)
Definition pollinationsRequest {Env : Type} {net : Network Env} (prompt : string)
    : Request :=
  {| resource := "https://pollinations.ai/p/" ++ encodeURIComponent prompt;
     method := None; headers := []; body := None |}.

End ClientReadings.

(* ================================================================== *)
(** * A sample network *)
(* ================================================================== *)

Module SampleNetwork.
Import AiClient.

Record SampleResponse : Type := { sampleOk : bool; sampleStatus : Z }.

(** A network whose servers answer every request with the status
    [status] (ok from 200 to 299) and count the requests; the readers of
    a body answer at once. *)
Definition answering (status : Z) : Network nat :=
  {| Response := SampleResponse;
     responseOk := sampleOk;
     responseStatus := sampleStatus;
     fetch := fun _ n =>
       (Returned {| sampleOk := (200 <=? status)%Z && (status <=? 299)%Z;
                    sampleStatus := status |}, S n);
     responseText := fun _ n => (Returned "body", n);
     chatReply := fun _ n => (Returned (Content "2"), n);
     imageBytes := fun _ n => (Returned (Some "AAAA"), n);
     artifactBytes := fun _ n => (Returned (Some "AAAA"), n);
     proxyErrorData := fun _ n => (Returned None, n);
     proxyBase64 := fun _ n => (Returned "data:image/jpeg;base64,AAAA", n);
     readAsDataURL := fun _ n => (Returned "data:image/jpeg;base64,AAAA", n);
     geminiGenerateContent := fun _ _ _ n => (Returned "[]", S n);
     geminiGenerateImages := fun _ _ _ n => (Returned "AAAA", S n);
     geminiVision := fun _ _ _ n => (Returned "{}", S n);
     Analysis := string;
     parseAnalysis := fun text => Some text;
     encodeURIComponent := fun text => text;
     supabaseUrl := None;
     supabaseKey := None |}.

(** A network whose requests are all aborted by the timer. *)
Definition stalled : Network nat :=
  {| Response := SampleResponse;
     responseOk := sampleOk;
     responseStatus := sampleStatus;
     fetch := fun _ n =>
       (Threw (ErrorObject (DOMException "AbortError") "The operation was aborted."), S n);
     responseText := fun _ n => (Returned "body", n);
     chatReply := fun _ n => (Returned (Content "2"), n);
     imageBytes := fun _ n => (Returned (Some "AAAA"), n);
     artifactBytes := fun _ n => (Returned (Some "AAAA"), n);
     proxyErrorData := fun _ n => (Returned None, n);
     proxyBase64 := fun _ n => (Returned "data:image/jpeg;base64,AAAA", n);
     readAsDataURL := fun _ n => (Returned "data:image/jpeg;base64,AAAA", n);
     geminiGenerateContent := fun _ _ _ n => (Returned "[]", S n);
     geminiGenerateImages := fun _ _ _ n => (Returned "AAAA", S n);
     geminiVision := fun _ _ _ n => (Returned "{}", S n);
     Analysis := string;
     parseAnalysis := fun text => Some text;
     encodeURIComponent := fun text => text;
     supabaseUrl := None;
     supabaseKey := None |}.

(** A configuration whose analysis provider has no API key. *)
Definition keyless (provider : TextAIProvider) : Configuration :=
  {| wordpress := {| url := "https://example.org"; username := "editor";
                     appPassword := None |};
     aiAnalysis := {| analysisProvider := provider; analysisApiKey := None;
                      analysisModel := None |};
     aiImage := {| imageProvider := Pollinations; imageApiKey := None;
                   imageModel := None |};
     image := {| style := "photo"; negativePrompt := None; aspectRatio := None |} |}.

End SampleNetwork.

(* ================================================================== *)
(** * The insertion dialog *)
(* ================================================================== *)

Module InsertImageModal.
Import JsText AiService.

Record ContentBlock : Type := {
  index : nat;
  tagName : string;
  textPreview : string;
  isHeading : bool
}.

Definition isElement (n : node) : bool :=
  match n with
  | Element _ _ _ => true
  | _ => false
  end.

(** [Array.from(doc.body.children)]: the elements among the children of
    the body. *)
Definition children (body : list node) : list node := filter isElement body.

Definition tagOf (n : node) : string :=
  match n with
  | Element tag _ _ => tag
  | _ => EmptyString
  end.

(** The pattern [^h[1-6]$] *)
Definition headingTag (tag : string) : bool :=
  match tag with
  | String h (String d EmptyString) =>
      Ascii.eqb h "h" && (49 <=? nat_of_ascii d)%nat && (nat_of_ascii d <=? 54)%nat
  | _ => false
  end.

(** [(child.textContent?.trim() || '').substring(0, 150)] *)
Definition preview (child : node) : string :=
  JsText.substring (trim (textContent child)) 0 150.

(** The block of the child at [index]; the tag name of an element in
    lower case is its tag. *)
Definition blockOf (entry : nat * node) : ContentBlock :=
  {| index := fst entry;
     tagName := toLowerCase (tagOf (snd entry));
     textPreview := preview (snd entry);
     isHeading := headingTag (toLowerCase (tagOf (snd entry))) |}.

Section Modal.

Context {browser : Browser}.

(** [contentBlocks]: the blocks the dialog shows. *)
Definition contentBlocks (content : string) : list ContentBlock :=
  let elements := children (parseFromString content) in
  filter (fun block => (0 <? String.length (textPreview block))%nat)
    (map blockOf (combine (seq 0 (List.length elements)) elements)).

(** The markup of the image, as a block of the editor. *)
Definition blockHtml (imageUrl altText : string) : string :=
  nl ++ "<!-- wp:image {" ++ quote ++ "sizeSlug" ++ quote ++ ":" ++ quote ++ "large"
  ++ quote ++ "} -->" ++ nl ++ ResultsStep.imageHtml imageUrl altText ++ nl
  ++ "<!-- /wp:image -->" ++ nl.

(** [children[k].insertAdjacentHTML('afterend', ...)] on the children of
    the body: the nodes of the fragment become the next siblings of the
    element number [k]. *)
Fixpoint insertAfterChild (fragment : list node) (k : nat) (body : list node) : list node :=
  match body with
  | [] => []
  | c :: rest =>
      if isElement c then
        match k with
        | O => c :: fragment ++ rest
        | S k' => c :: insertAfterChild fragment k' rest
        end
      else c :: insertAfterChild fragment k rest
  end.

(** [handleManualConfirm()]: the content [onManualInsert] is called
    with; nothing when no position is selected. *)
Definition handleManualConfirm (content imageUrl altText : string)
    (selectedPosition : option Z) : option string :=
  match selectedPosition with
  | None => None
  | Some position =>
      let doc := parseFromString content in
      let fragment := parseFragment "body" (blockHtml imageUrl altText) in
      if (position =? -1)%Z then Some (innerHTML (fragment ++ doc))
      else
        match (if (position <? 0)%Z then None
               else nth_error (contentBlocks content) (Z.to_nat position)) with
        | Some targetBlock =>
            match nth_error (children doc) (index targetBlock) with
            | Some _ => Some (innerHTML (insertAfterChild fragment (index targetBlock) doc))
            | None => Some (innerHTML (doc ++ fragment))
            end
        | None => Some (innerHTML (doc ++ fragment))
        end
  end.

(** The children of the body the dialog shows as blocks. *)
Definition shown (c : node) : bool :=
  isElement c && (0 <? String.length (preview c))%nat.

End Modal.

End InsertImageModal.

(* ================================================================== *)
(** * The AI service: JSON in a reply *)
(* ================================================================== *)

Module JsonText.
Import JsText.

Definition backquote : ascii := "`".

Definition fence : list ascii := list_ascii_of_string "```".

Fixpoint startsWith (p l : list ascii) : bool :=
  match p, l with
  | [], _ => true
  | a :: p', b :: l' => Ascii.eqb a b && startsWith p' l'
  | _ :: _, [] => false
  end.

(** The end of the pattern, after the group: white space, then the
    closing fence. *)
Definition closes (l : list ascii) : bool := startsWith fence (dropSpaces l).

(** The lazy group of the pattern: the shortest run of code units after
    which the end of the pattern matches. *)
Fixpoint capture (l : list ascii) : option (list ascii) :=
  if closes l then Some []
  else
    match l with
    | [] => None
    | c :: rest => option_map (cons c) (capture rest)
    end.

(** The pattern at one position: the opening fence, [json] if it is
    there, all the white space there is, and the group.  Giving back
    white space or the optional [json] cannot make the rest match where
    this first try fails, since neither holds a backquote. *)
Definition fromFence (l : list ascii) : option (list ascii) :=
  if startsWith fence l then
    let afterFence := skipn 3 l in
    let afterTag :=
      if startsWith (list_ascii_of_string "json") afterFence
      then skipn 4 afterFence else afterFence in
    capture (dropSpaces afterTag)
  else None.

(** [text.match(...)]: the group of the leftmost match of the pattern
    fence, optional json, white space, lazy group, white space, fence. *)
Fixpoint codeBlock (l : list ascii) : option (list ascii) :=
  match fromFence l with
  | Some group => Some group
  | None =>
      match l with
      | [] => None
      | _ :: rest => codeBlock rest
      end
  end.

(** The second part of [extractJson]: from the first opening bracket to
    the last closing one. *)
Definition betweenBrackets (text : string) : option string :=
  let firstBracket := indexOf text "{" in
  let firstSquare := indexOf text "[" in
  let startIndex :=
    if (firstBracket =? -1)%Z then firstSquare
    else if (firstSquare =? -1)%Z then firstBracket
    else Z.min firstBracket firstSquare in
  if (startIndex =? -1)%Z then None
  else
    let lastBracket := lastIndexOf text "}" in
    let lastSquare := lastIndexOf text "]" in
    let endIndex := Z.max lastBracket lastSquare in
    if (endIndex =? -1)%Z || (endIndex <? startIndex)%Z then None
    else Some (trim (JsText.substring text startIndex (endIndex + 1))).

(** [extractJson(text)] *)
Definition extractJson (text : string) : option string :=
  match codeBlock (list_ascii_of_string text) with
  | Some (c :: group) => Some (trim (string_of_list_ascii (c :: group)))
  | _ => betweenBrackets text
  end.

(** ** Shapes of text *)

(** The text starts with an opening bracket. *)
Definition opens (s : string) : bool :=
  match s with
  | String c _ => Ascii.eqb c "{" || Ascii.eqb c "["
  | EmptyString => false
  end.

(** The text ends with a closing bracket. *)
Fixpoint shuts (s : string) : bool :=
  match s with
  | EmptyString => false
  | String c EmptyString => Ascii.eqb c "}" || Ascii.eqb c "]"
  | String _ rest => shuts rest
  end.

(** The text is white space. *)
Fixpoint blank (s : string) : bool :=
  match s with
  | EmptyString => true
  | String c rest => isSpace c && blank rest
  end.

End JsonText.

(* ================================================================== *)
(** * The results screen: saving alternative texts *)
(* ================================================================== *)

Module SaveAltText.
Import ResultsStep.

(** The media library of the content platform (wordpressService). *)
Class MediaLibrary (Env : Type) : Type := {
  updateMediaAltText : WordPressConfig -> Z -> string -> Remote Env unit
}.

(** An element of [updates]. *)
Record Update : Type := {
  updateMediaId : Z;                  (* mediaId *)
  updateAltText : string              (* altText *)
}.

(** An element of [results]. *)
Record Result : Type := {
  resultMediaId : Z;                  (* mediaId *)
  resultAltText : string;             (* altText *)
  resultSuccess : bool;               (* success *)
  resultError : option string         (* error *)
}.

(** [p.generatedImage && updates.some(u => u.mediaId === p.generatedImage.mediaId)] *)
Definition hasUpdate (updates : list Update) (p : WordPressPost) : bool :=
  match generatedImage p with
  | Some generated => existsb (fun u => (updateMediaId u =? mediaId generated)%Z) updates
  | None => false
  end.

(** [postIdsToUpdate], as the list of its elements. *)
Definition postIdsToUpdate (posts : list WordPressPost) (updates : list Update) : list Z :=
  map id (filter (hasUpdate updates) posts).

(** What the last [setPosts] does to a post. *)
Definition settleAltText (results : list Result) (p : WordPressPost) : WordPressPost :=
  match generatedImage p with
  | None => p
  | Some generated =>
      match find (fun r => (resultMediaId r =? mediaId generated)%Z) results with
      | None => p
      | Some result =>
          if resultSuccess result then
            {| id := id p; title := title p; excerpt := excerpt p; content := content p;
               featured_media := featured_media p; imageCount := imageCount p;
               existingImageUrl := existingImageUrl p;
               existingImageAltText := existingImageAltText p;
               generatedImage :=
                 Some {| imageUrlOf := imageUrlOf generated; alt := resultAltText result;
                         mediaId := mediaId generated;
                         imageBrief := imageBrief generated |};
               status := Some Status.success;
               statusMessage := Some "Alt text updated!" |}
          else
            {| id := id p; title := title p; excerpt := excerpt p; content := content p;
               featured_media := featured_media p; imageCount := imageCount p;
               existingImageUrl := existingImageUrl p;
               existingImageAltText := existingImageAltText p;
               generatedImage := generatedImage p;
               status := Some Status.error;
               statusMessage :=
                 Some ("Failed to update alt text: "
                       ++ match resultError result with
                          | Some error => error
                          | None => "null"
                          end)%string |}
      end
  end.

Section Saving.

Context {Env : Type} {library : MediaLibrary Env}.

(** The loop [posts.forEach] that marks the posts. *)
Fixpoint markPosts (ids : list Z) (posts : list WordPressPost) : Async Env unit :=
  match posts with
  | [] => ret tt
  | p :: rest =>
      (if existsb (Z.eqb (id p)) ids
       then updatePostState (id p) (statusUpdate Status.updating_meta "Saving alt text...")
       else ret tt) ;;
      markPosts ids rest
  end.

(** One of the [promises]: it is fulfilled whatever the library does. *)
Definition saveOne (config : WordPressConfig) (u : Update) : Async Env Result :=
  tryCatch
    (perform (updateMediaAltText config (updateMediaId u) (updateAltText u)) ;;
     ret {| resultMediaId := updateMediaId u; resultAltText := updateAltText u;
            resultSuccess := true; resultError := None |})
    (fun error =>
       ret {| resultMediaId := updateMediaId u; resultAltText := EmptyString;
              resultSuccess := false;
              resultError :=
                Some match error with
                     | ErrorObject _ message => message
                     | NonError _ => "Update failed"
                     end |}).

(** [Promise.all(promises)]: the calls are started in the order of
    [updates] and the results come in that order. *)
Fixpoint saveAll (config : WordPressConfig) (updates : list Update)
    : Async Env (list Result) :=
  match updates with
  | [] => ret []
  | u :: rest =>
      result <- saveOne config u ;;
      results <- saveAll config rest ;;
      ret (result :: results)
  end.

(** [handleSaveAltText(updates)], [posts] being the posts of the render
    the callback was made in; the function it returns is the one the
    last [setPosts] is given. *)
Definition handleSaveAltText (config : Configuration) (posts : list WordPressPost)
    (updates : list Update) : Async Env (list WordPressPost -> list WordPressPost) :=
  markPosts (postIdsToUpdate posts updates) posts ;;
  results <- saveAll (wordpress config) updates ;;
  ret (map (settleAltText results)).

End Saving.

(** The update that marks a post. *)
Definition mark (p : WordPressPost) : Z * PostUpdate :=
  (id p, statusUpdate Status.updating_meta "Saving alt text...").

(** A media library that refuses every other update. *)
Definition fussyLibrary : MediaLibrary nat :=
  {| updateMediaAltText := fun _ _ _ n =>
       (if Nat.even n then Returned tt else Threw (Error "Forbidden"), S n) |}.

End SaveAltText.

(* ================================================================== *)
(** * The image proxy (edge function) *)
(* ================================================================== *)

Module ImageProxy.
Import AiClient.

Definition corsHeaders : list (string * string) :=
  [ ("Access-Control-Allow-Origin", "*");
    ("Access-Control-Allow-Methods", "GET, POST, PUT, DELETE, OPTIONS");
    ("Access-Control-Allow-Headers", "Content-Type, Authorization, X-Client-Info, Apikey") ].

(** [{ ...corsHeaders, "Content-Type": "application/json" }] *)
Definition jsonHeaders : list (string * string) :=
  corsHeaders ++ [("Content-Type", "application/json")].

(** The property [imageUrl] of the JSON of a request: a string, or
    anything else (undefined included). *)
Inductive Field : Type :=
| TextField (text : string)
| OtherField.

(** The object a response body is the JSON text of. *)
Inductive AnswerBody : Type :=
| ErrorBody (error : string)
| ImageData (base64 contentType : string).

(** A response of the function. *)
Record Answer : Type := {
  answerStatus : Z;
  answerHeaders : list (string * string);
  answerBody : option AnswerBody
}.

(** The runtime: the request, the fetch of the image, and [btoa] on a
    string of bytes. *)
Class Runtime (Env : Type) : Type := {
  Incoming : Type;
  requestMethod : Incoming -> string;                     (* req.method *)
  requestImageUrl : Incoming -> Remote Env Field;         (* const { imageUrl } = await req.json() *)
  Upstream : Type;
  fetchImage : string -> Remote Env Upstream;             (* fetch(imageUrl, { headers }) *)
  upstreamOk : Upstream -> bool;
  upstreamStatus : Upstream -> Z;
  contentTypeOf : Upstream -> option string;              (* headers.get("Content-Type") *)
  arrayBuffer : Upstream -> Remote Env string;            (* the bytes, as code units *)
  btoa : string -> string;
  (* the message of the error [new Response] throws for a status *)
  refusalMessage : Z -> string
}.

Section Function.

Context {Env : Type} {runtime : Runtime Env}.

(** [new Response(body, { status, headers })]: the constructor throws
    an error (a range error or a type error, both errors with a message)
    for a status outside 200 to 599, and for a body with a status that
    allows none (204, 205, 304). *)
Definition newResponse (responseBody : option AnswerBody) (status : Z)
    (responseHeaders : list (string * string)) : Remote Env Answer :=
  if (status <? 200)%Z || (599 <? status)%Z
     || match responseBody with Some _ => true | None => false end
        && ((status =? 204)%Z || (status =? 205)%Z || (status =? 304)%Z)
  then raise (ErrorObject PlainError (refusalMessage status))
  else pure {| answerStatus := status; answerHeaders := responseHeaders;
               answerBody := responseBody |}.

(** The handler given to [Deno.serve]. *)
Definition serve (req : Incoming) : Remote Env Answer :=
  if String.eqb (requestMethod req) "OPTIONS" then newResponse None 200 corsHeaders
  else
    orCatch
      (andThen (requestImageUrl req)
         (fun field =>
            match field with
            | TextField imageUrl =>
                if String.eqb imageUrl EmptyString
                then newResponse (Some (ErrorBody "imageUrl is required")) 400 jsonHeaders
                else
                  andThen (fetchImage imageUrl)
                    (fun imageResponse =>
                       if negb (upstreamOk imageResponse) then
                         newResponse
                           (Some (ErrorBody ("Failed to fetch image: "
                                             ++ decimalZ (upstreamStatus imageResponse))))
                           (upstreamStatus imageResponse) jsonHeaders
                       else
                         let contentType :=
                           match contentTypeOf imageResponse with
                           | Some value =>
                               if String.eqb value EmptyString then "image/jpeg" else value
                           | None => "image/jpeg"
                           end in
                         andThen (arrayBuffer imageResponse)
                           (fun bytes =>
                              newResponse
                                (Some (ImageData
                                         ("data:" ++ contentType ++ ";base64," ++ btoa bytes)
                                         contentType))
                                200 jsonHeaders))
            | OtherField =>
                newResponse (Some (ErrorBody "imageUrl is required")) 400 jsonHeaders
            end))
      (fun error =>
         newResponse
           (Some (ErrorBody match error with
                            | ErrorObject _ message => message
                            | NonError _ => "Unknown error"
                            end))
           500 jsonHeaders).

End Function.

(** A runtime whose upstream answers every fetch with a picture of
    three bytes. *)
Definition pictureRuntime : Runtime nat :=
  {| Incoming := string * string;
     requestMethod := fst;
     requestImageUrl := fun req n => (Returned (TextField (snd req)), n);
     Upstream := unit;
     fetchImage := fun _ n => (Returned tt, S n);
     upstreamOk := fun _ => true;
     upstreamStatus := fun _ => 200%Z;
     contentTypeOf := fun _ => Some "image/webp";
     arrayBuffer := fun _ n => (Returned "abc", n);
     btoa := fun _ => "YWJj";
     refusalMessage := fun _ => "Invalid status" |}.

End ImageProxy.

(* ================================================================== *)
(** * Readings of the job processor *)
(* ================================================================== *)

Module ProcessorReadings.
Import AiService ResultsStep.

(** The computation adds to the trace only effects that satisfy [P],
    however it ends. *)
Definition Adds {Env A : Type} (P : Effect -> Prop) (m : Async Env A) : Prop :=
  forall w, exists added, trace (snd (m w)) = trace w ++ added /\ Forall P added.

Definition isUpdate (ev : Effect) : bool :=
  match ev with PostUpdated _ _ => true | _ => false end.

(** An effect that is not a post update. *)
Definition Silent (ev : Effect) : Prop := isUpdate ev = false.

(** The post updates of a trace: the id of the post and the status set. *)
Fixpoint published (tr : list Effect) : list (Z * option Status.t) :=
  match tr with
  | [] => []
  | PostUpdated postId updates :: rest => (postId, newStatus updates) :: published rest
  | _ :: rest => published rest
  end.

Definition announces (postId : Z) (l : list Status.t) : list (Z * option Status.t) :=
  map (fun st => (postId, Some st)) l.

(** The statuses an action goes through before its terminal status, in
    the order [processJob] publishes them. *)
Definition steps (a : JobAction) : list Status.t :=
  match a with
  | generate => [Status.generating_brief; Status.generating_image; Status.uploading]
  | insert => [Status.analyzing_placement; Status.inserting]
  | insert_at => [Status.inserting]
  | set_featured => [Status.setting_featured]
  | upload_insert => [Status.uploading; Status.analyzing_placement; Status.inserting]
  end.

(** The post updates of a trace: the id of the post and the fields set. *)
Fixpoint updatesOf (tr : list Effect) : list (Z * PostUpdate) :=
  match tr with
  | [] => []
  | PostUpdated postId updates :: rest => (postId, updates) :: updatesOf rest
  | _ :: rest => updatesOf rest
  end.

(** Updates of the post [postId] that set the statuses [sts], in order,
    each with a message and nothing else. *)
Definition Interim (postId : Z) (sts : list Status.t) (ups : list (Z * PostUpdate)) : Prop :=
  Forall2 (fun st up => exists message, up = (postId, statusUpdate st message)) sts ups.

(** The computation updates the post [postId] alone: when it returns, it
    has gone through the statuses [todo] in order and ended with an
    update to success that satisfies [Final]; when it throws, it has gone
    through a prefix of [todo]. *)
Definition Script {Env A : Type} (postId : Z) (todo : list Status.t)
    (Final : PostUpdate -> Prop) (m : Async Env A) : Prop :=
  forall w, exists added,
    trace (snd (m w)) = trace w ++ added
    /\ match fst (m w) with
       | Returned _ =>
           exists front u,
             updatesOf added = front ++ [(postId, u)]
             /\ Interim postId todo front
             /\ newStatus u = Some Status.success
             /\ Final u
       | Threw _ =>
           exists j, j <= List.length todo
                     /\ Interim postId (firstn j todo) (updatesOf added)
       end.

(** What the last update of a successful job of action [a] sets besides
    the status: a generated or uploaded image is recorded with the post. *)
Definition records (a : JobAction) (u : PostUpdate) : Prop :=
  match a with
  | generate | upload_insert => newGeneratedImage u <> None
  | _ => newGeneratedImage u = None
  end.

(** One update of [setPosts], on one post. *)
Definition revise (up : Z * PostUpdate) (p : WordPressPost) : WordPressPost :=
  if (id p =? fst up)%Z then merge p (snd up) else p.

(** A post after a list of updates. *)
Definition revised (ups : list (Z * PostUpdate)) (p : WordPressPost) : WordPressPost :=
  fold_left (fun q up => revise up q) ups p.

(** What [processJob] checks before its first status update: the message
    of the error it throws, if it throws one. *)
Definition refusal (current : list WordPressPost) (job : Job) : option string :=
  match find (fun p => (id p =? id (post job))%Z) current with
  | None =>
      Some ("Post " ++ decimalZ (id (post job)) ++ " not found in current state.")%string
  | Some currentPost =>
      match action job with
      | generate => None
      | insert =>
          match payload job with
          | Some pl => if truthy (imageUrl pl) then None else Some "No image URL for insertion."
          | None => Some "No image URL for insertion."
          end
      | insert_at =>
          match payload job with
          | Some pl =>
              match prebuiltContent pl with
              | Some prebuilt =>
                  if truthy prebuilt then None
                  else Some "No content provided for manual insertion."
              | None => Some "No content provided for manual insertion."
              end
          | None => Some "No content provided for manual insertion."
          end
      | set_featured =>
          match generatedImage currentPost with
          | Some generated =>
              if (mediaId generated =? 0)%Z then Some "No generated image to set as featured."
              else None
          | None => Some "No generated image to set as featured."
          end
      | upload_insert =>
          match payload job with
          | Some pl =>
              match imageDataUrl pl with
              | Some dataUrl =>
                  if truthy dataUrl && truthy (payloadAltText pl) then None
                  else Some "Image data and alt text required."
              | None => Some "Image data and alt text required."
              end
          | None => Some "Image data and alt text required."
          end
      end
  end.

End ProcessorReadings.

(* ================================================================== *)
(** * Properties of the retrier *)
(* ================================================================== *)

Module RetryFacts.
Import AiService Properties Samples.

Section Facts.

Context {Env T : Type}.
Variable apiCall : Remote Env T.
Variable retries : nat.
Variable initialDelay : Z.

(** One iteration of the loop, as an equation. *)
Lemma retryLoop_step (left i : nat) (lastError : option Thrown) (w : World Env) :
  retryLoop apiCall retries initialDelay (S left) i lastError w
  = match apiCall (env w) with
    | (Returned v, e') => (Returned v, mkWorld e' (trace w ++ [Invoked]))
    | (Threw error, e') =>
        if isRateLimitError error then
          retryLoop apiCall retries initialDelay left (S i) (Some error)
            (mkWorld e' (trace w ++ [Invoked; Delayed (initialDelay * 2 ^ Z.of_nat i)]))
        else (Threw error, mkWorld e' (trace w ++ [Invoked]))
    end.
Proof.
  cbn [retryLoop]. unfold delay, tryCatch, bind, emit, perform, throw. cbn [env trace].
  destruct (apiCall (env w)) as [[v|error] e']; [reflexivity|].
  destruct (isRateLimitError error); [|reflexivity].
  cbn [env trace]. rewrite <- app_assoc. reflexivity.
Qed.

Lemma waits_app (a b : list Effect) : waits (a ++ b) = waits a ++ waits b.
Proof.
  induction a as [|ev a IH]; [reflexivity|].
  destruct ev; cbn; rewrite IH; reflexivity.
Qed.

Lemma invocations_app (a b : list Effect) :
  invocations (a ++ b) = invocations a + invocations b.
Proof. unfold invocations. rewrite filter_app, List.length_app. reflexivity. Qed.

Lemma backoff_S (i k : nat) :
  backoff initialDelay i (S k)
  = Invoked :: Delayed (initialDelay * 2 ^ Z.of_nat i) :: backoff initialDelay (S i) k.
Proof. reflexivity. Qed.

Lemma waits_backoff (i k : nat) :
  waits (backoff initialDelay i k)
  = map (fun j => (initialDelay * 2 ^ Z.of_nat j)%Z) (seq i k).
Proof.
  revert i; induction k as [|k IH]; intro i; [reflexivity|].
  rewrite backoff_S. cbn [waits seq map]. rewrite IH. reflexivity.
Qed.

Lemma invocations_backoff (i k : nat) : invocations (backoff initialDelay i k) = k.
Proof.
  revert i; induction k as [|k IH]; intro i; [reflexivity|].
  rewrite backoff_S. unfold invocations in *. cbn [filter List.length]. rewrite IH. reflexivity.
Qed.

(** The geometric sum of the waits. *)
Lemma total_backoff (i k : nat) :
  total (map (fun j => (initialDelay * 2 ^ Z.of_nat j)%Z) (seq i k))
  = (initialDelay * (2 ^ Z.of_nat (i + k) - 2 ^ Z.of_nat i))%Z.
Proof.
  revert i; induction k as [|k IH]; intro i.
  - cbn. rewrite Nat.add_0_r. lia.
  - cbn [seq map total fold_right]. fold (total (map (fun j => (initialDelay * 2 ^ Z.of_nat j)%Z) (seq (S i) k))).
    rewrite IH. replace (i + S k) with (S i + k) by lia.
    replace (Z.of_nat (S i)) with (Z.of_nat i + 1)%Z by lia.
    rewrite Z.pow_add_r by lia. change (2 ^ 1)%Z with 2%Z.
    set (p := (2 ^ Z.of_nat i)%Z). set (q := (2 ^ Z.of_nat (S i + k))%Z). lia.
Qed.

(** [k] retryable failures, then an attempt that ends the loop. *)
Lemma retryLoop_settles (k : nat) :
  forall (left i : nat) (lastError : option Thrown) (w : World Env) (r : Outcome T),
    k < left ->
    (forall j, j < k -> failsRetryably apiCall j (env w)) ->
    attempt apiCall k (env w) = r ->
    settles r ->
    retryLoop apiCall retries initialDelay left i lastError w
    = (r, mkWorld (envAfter apiCall (S k) (env w))
                  (trace w ++ backoff initialDelay i k ++ [Invoked])).
Proof.
  induction k as [|k IH]; intros left i lastError w r Hlt Hfail Hk Hr;
    (destruct left as [|left]; [lia|]); rewrite retryLoop_step.
  - unfold attempt in Hk. cbn [envAfter] in Hk |- *.
    destruct (apiCall (env w)) as [r' e']. cbn [fst snd] in Hk |- *. subst r'.
    destruct r as [v|error]; [reflexivity|].
    cbn in Hr. rewrite Hr. reflexivity.
  - destruct (Hfail 0) as [error [Herr Hrate]]; [lia|].
    unfold attempt in Herr. cbn [envAfter] in Herr.
    destruct (apiCall (env w)) as [r' e'] eqn:Hcall. cbn [fst] in Herr. subst r'.
    rewrite Hrate.
    rewrite (IH left (S i) (Some error) _ r); cbn [env trace]; try assumption.
    + rewrite backoff_S. rewrite <- !app_assoc. cbn [envAfter]. rewrite Hcall.
      reflexivity.
    + lia.
    + intros j Hj. destruct (Hfail (S j)) as [error' [H1 H2]]; [lia|].
      exists error'. unfold attempt in H1 |- *. cbn [envAfter] in H1.
      rewrite Hcall in H1. split; assumption.
    + unfold attempt in Hk |- *. cbn [envAfter] in Hk. rewrite Hcall in Hk.
      exact Hk.
Qed.

(** Every attempt fails retryably: the loop waits after each of them,
    the last one included, and throws the wrapping error. *)
Lemma retryLoop_exhausts (left : nat) :
  forall (i : nat) (lastError : option Thrown) (w : World Env) (cause : Thrown),
    (forall j, j < S left -> failsRetryably apiCall j (env w)) ->
    attempt apiCall left (env w) = Threw cause ->
    retryLoop apiCall retries initialDelay (S left) i lastError w
    = (Threw (exhausted retries (Some cause)),
       mkWorld (envAfter apiCall (S left) (env w))
               (trace w ++ backoff initialDelay i (S left))).
Proof.
  induction left as [|left IH]; intros i lastError w cause Hfail Hlast;
    rewrite retryLoop_step;
    (destruct (Hfail 0) as [error [Herr Hrate]]; [lia|]);
    unfold attempt in Herr; cbn [envAfter] in Herr;
    destruct (apiCall (env w)) as [r' e'] eqn:Hcall; cbn [fst] in Herr; subst r';
    rewrite Hrate.
  - unfold attempt in Hlast. cbn [envAfter] in Hlast. rewrite Hcall in Hlast.
    cbn [fst] in Hlast. injection Hlast as <-.
    cbn [retryLoop envAfter]. rewrite Hcall. reflexivity.
  - rewrite (IH (S i) (Some error) _ cause); cbn [env trace].
    + rewrite (backoff_S i (S left)). rewrite <- !app_assoc.
      cbn [envAfter]. rewrite Hcall. reflexivity.
    + intros j Hj. destruct (Hfail (S j)) as [error' [H1 H2]]; [lia|].
      exists error'. unfold attempt in H1 |- *. cbn [envAfter] in H1.
      rewrite Hcall in H1. split; assumption.
    + unfold attempt in Hlast |- *. cbn [envAfter] in Hlast. rewrite Hcall in Hlast.
      exact Hlast.
Qed.

(** Whatever the operation does, the loop only adds invocations and
    backoff waits to the trace, starting with an invocation. *)
Lemma retryLoop_trace (left : nat) :
  forall (i : nat) (lastError : option Thrown) (w : World Env),
  exists rest,
    trace (snd (retryLoop apiCall retries initialDelay left i lastError w))
    = trace w ++ rest
    /\ Forall (retryEffect initialDelay) rest
    /\ (0 < left -> exists rest', rest = Invoked :: rest').
Proof.
  induction left as [|left IH]; intros i lastError w.
  - exists []. cbn. rewrite app_nil_r. repeat split; [constructor | lia].
  - rewrite retryLoop_step.
    destruct (apiCall (env w)) as [[v|error] e'].
    + exists [Invoked]. cbn [snd trace]. repeat split.
      * repeat constructor.
      * intros _. exists []. reflexivity.
    + destruct (isRateLimitError error).
      * destruct (IH (S i) (Some error)
                     (mkWorld e' (trace w ++ [Invoked; Delayed (initialDelay * 2 ^ Z.of_nat i)])))
          as [rest [Heq [Hall _]]].
        exists (Invoked :: Delayed (initialDelay * 2 ^ Z.of_nat i) :: rest).
        rewrite Heq. cbn [trace]. rewrite <- app_assoc. repeat split.
        -- constructor; [left; reflexivity|].
           constructor; [right; exists i; reflexivity | exact Hall].
        -- intros _. eexists; reflexivity.
      * exists [Invoked]. cbn [snd trace]. repeat split.
        -- repeat constructor.
        -- intros _. exists []. reflexivity.
Qed.

Lemma backoff_snoc (i k : nat) :
  backoff initialDelay i (S k)
  = backoff initialDelay i k ++ [Invoked; Delayed (initialDelay * 2 ^ Z.of_nat (i + k))].
Proof.
  unfold backoff. rewrite seq_S, flat_map_app. cbn [flat_map]. rewrite app_nil_r.
  reflexivity.
Qed.

End Facts.

(** C4: when the operation fails with a retryable (rate-limit-classified)
    error exactly k times, k < retries, and then succeeds, it is invoked
    exactly k+1 times, one call after the other, the successful result is
    returned, the wait number i is initialDelay * 2^i and the waits add up
    to initialDelay * (2^0 + ... + 2^(k-1)) = initialDelay * (2^k - 1). *)
Theorem retry_succeeds_after_k_failures :
  forall (Env T : Type) (apiCall : Remote Env T) (retries : nat) (initialDelay : Z)
         (k : nat) (w : World Env) (v : T),
    k < retries ->
    (forall j, j < k -> failsRetryably apiCall j (env w)) ->
    attempt apiCall k (env w) = Returned v ->
    exists performed,
      retryableAIOperation apiCall retries initialDelay w
      = (Returned v, mkWorld (envAfter apiCall (S k) (env w)) (trace w ++ performed))
      /\ performed = backoff initialDelay 0 k ++ [Invoked]
      /\ invocations performed = k + 1
      /\ waits performed = map (fun i => (initialDelay * 2 ^ Z.of_nat i)%Z) (seq 0 k)
      /\ total (waits performed) = (initialDelay * (2 ^ Z.of_nat k - 1))%Z.
Proof.
  intros Env T apiCall retries initialDelay k w v Hk Hfail Hok.
  exists (backoff initialDelay 0 k ++ [Invoked]).
  assert (Hw : waits (backoff initialDelay 0 k ++ [Invoked])
               = map (fun i => (initialDelay * 2 ^ Z.of_nat i)%Z) (seq 0 k)).
  { rewrite waits_app, waits_backoff. cbn [waits]. apply app_nil_r. }
  repeat split.
  - unfold retryableAIOperation.
    apply (retryLoop_settles apiCall retries initialDelay k retries 0 None w (Returned v));
      [assumption | assumption | assumption | exact I].
  - rewrite invocations_app, invocations_backoff. reflexivity.
  - exact Hw.
  - rewrite Hw, total_backoff. cbn [Nat.add]. change (2 ^ Z.of_nat 0)%Z with 1%Z. reflexivity.
Qed.

Lemma retry_succeeds_after_k_failures_witness :
  exists performed,
    retryableAIOperation throttledTwice 3 2000 (mkWorld 0%nat [])
    = (Returned "4", mkWorld (envAfter throttledTwice 3 0%nat) ([] ++ performed))
    /\ performed = backoff 2000 0 2 ++ [Invoked]
    /\ invocations performed = 2 + 1
    /\ waits performed = map (fun i => (2000 * 2 ^ Z.of_nat i)%Z) (seq 0 2)
    /\ total (waits performed) = (2000 * (2 ^ Z.of_nat 2 - 1))%Z.
Proof.
  apply (retry_succeeds_after_k_failures nat string throttledTwice 3 2000 2
           (mkWorld 0%nat []) "4").
  - lia.
  - intros j Hj.
    exists (ErrorObject (FetchError 429) "API request failed with status 429").
    destruct j as [|[|j]]; [split; reflexivity | split; reflexivity | lia].
  - reflexivity.
Defined.

(** C10: when every one of the [retries] attempts fails with a retryable
    error, the backoff delay initialDelay * 2^(retries-1) is awaited after
    the final failed attempt as well, so that the waits add up to
    initialDelay * (2^retries - 1), before the error that wraps the message
    of the last cause is thrown: there is one more wait than re-attempts. *)
Theorem retry_exhaustion_waits_after_last_failure :
  forall (Env T : Type) (apiCall : Remote Env T) (retries : nat) (initialDelay : Z)
         (w : World Env) (cause : Thrown),
    0 < retries ->
    (forall j, j < retries -> failsRetryably apiCall j (env w)) ->
    attempt apiCall (retries - 1) (env w) = Threw cause ->
    exists performed,
      retryableAIOperation apiCall retries initialDelay w
      = (Threw (Error ("AI request failed after " ++ decimal (N.of_nat retries)
                       ++ " attempts. Last error: " ++ messageOrJson cause)),
         mkWorld (envAfter apiCall retries (env w)) (trace w ++ performed))
      /\ performed = backoff initialDelay 0 retries
      /\ last performed Invoked = Delayed (initialDelay * 2 ^ Z.of_nat (retries - 1))
      /\ invocations performed = retries
      /\ waits performed = map (fun i => (initialDelay * 2 ^ Z.of_nat i)%Z) (seq 0 retries)
      /\ total (waits performed) = (initialDelay * (2 ^ Z.of_nat retries - 1))%Z
      /\ List.length (waits performed) = (invocations performed - 1) + 1.
Proof.
  intros Env T apiCall retries initialDelay w cause Hpos Hfail Hlast.
  destruct retries as [|n]; [lia|].
  replace (S n - 1) with n in * by lia.
  exists (backoff initialDelay 0 (S n)).
  repeat split.
  - unfold retryableAIOperation.
    apply (retryLoop_exhausts apiCall (S n) initialDelay n 0 None w cause); assumption.
  - rewrite backoff_snoc.
    change [Invoked; Delayed (initialDelay * 2 ^ Z.of_nat (0 + n))]
      with ([Invoked] ++ [Delayed (initialDelay * 2 ^ Z.of_nat (0 + n))]).
    rewrite app_assoc, last_last. reflexivity.
  - apply invocations_backoff.
  - apply waits_backoff.
  - rewrite waits_backoff, total_backoff. cbn [Nat.add].
    change (2 ^ Z.of_nat 0)%Z with 1%Z. reflexivity.
  - rewrite waits_backoff, invocations_backoff, length_map, length_seq. lia.
Qed.

Lemma retry_exhaustion_waits_after_last_failure_witness :
  exists performed,
    retryableAIOperation alwaysThrottled 3 2000 (mkWorld 0%nat [])
    = (Threw (Error ("AI request failed after " ++ decimal (N.of_nat 3)
                     ++ " attempts. Last error: "
                     ++ messageOrJson (ErrorObject PlainError "RESOURCE_EXHAUSTED: quota exceeded"))),
       mkWorld (envAfter alwaysThrottled 3 0%nat) ([] ++ performed))
    /\ performed = backoff 2000 0 3
    /\ last performed Invoked = Delayed (2000 * 2 ^ Z.of_nat (3 - 1))
    /\ invocations performed = 3
    /\ waits performed = map (fun i => (2000 * 2 ^ Z.of_nat i)%Z) (seq 0 3)
    /\ total (waits performed) = (2000 * (2 ^ Z.of_nat 3 - 1))%Z
    /\ List.length (waits performed) = (invocations performed - 1) + 1.
Proof.
  apply (retry_exhaustion_waits_after_last_failure nat string alwaysThrottled 3 2000
           (mkWorld 0%nat []) (ErrorObject PlainError "RESOURCE_EXHAUSTED: quota exceeded")).
  - lia.
  - intros j _. exists (ErrorObject PlainError "RESOURCE_EXHAUSTED: quota exceeded").
    split; reflexivity.
  - reflexivity.
Defined.

Lemma fetchWithTimeout_aborted {Env Response : Type} (fetch : Remote Env Response)
    (timeout : N) (e : Env) (m : string) :
  fst (fetch e) = Threw (ErrorObject (DOMException "AbortError") m) ->
  fetchWithTimeout fetch timeout e = (Threw (timeoutError timeout), snd (fetch e)).
Proof.
  intro H. unfold fetchWithTimeout. destruct (fetch e) as [r e']. cbn [fst snd] in *.
  subst r. reflexivity.
Qed.

Lemma timeouts_are_not_rate_limits (timeout : N) :
  In timeout timeoutsInUse -> isRateLimitError (timeoutError timeout) = false.
Proof.
  unfold timeoutsInUse. cbn [In].
  intros [<-|[<-|[<-|[<-|[<-|[]]]]]]; reflexivity.
Qed.

(** C3, amended: a failure is retried, after a backoff wait, exactly when
    it is a FetchError of status 429 or its message (the JSON text of a
    thrown value that is no Error) contains 429 or RESOURCE_EXHAUSTED;
    every other failure is rethrown at once, after one invocation and no
    wait.  The timeout error of [fetchWithTimeout], for each timeout this
    service uses, is one of those other failures. *)
Theorem retry_only_on_rate_limit :
  forall (Env T : Type) (apiCall : Remote Env T) (retries : nat) (initialDelay : Z)
         (w : World Env) (error : Thrown),
    0 < retries ->
    attempt apiCall 0 (env w) = Threw error ->
    (isRateLimitError error = true <->
       hasStatus429 error = true
       \/ includes (messageOrJson error) "429" = true
       \/ includes (messageOrJson error) "RESOURCE_EXHAUSTED" = true)
    /\ (isRateLimitError error = true ->
        exists rest,
          trace (snd (retryableAIOperation apiCall retries initialDelay w))
          = trace w ++ Invoked :: Delayed (initialDelay * 2 ^ 0) :: rest
          /\ (1 < retries -> exists rest', rest = Invoked :: rest'))
    /\ (isRateLimitError error = false ->
        retryableAIOperation apiCall retries initialDelay w
        = (Threw error, mkWorld (envAfter apiCall 1 (env w)) (trace w ++ [Invoked])))
    /\ (forall (fetch : Remote Env T) (timeout : N) (m : string),
          In timeout timeoutsInUse ->
          apiCall = fetchWithTimeout fetch timeout ->
          fst (fetch (env w)) = Threw (ErrorObject (DOMException "AbortError") m) ->
          error = timeoutError timeout /\ isRateLimitError error = false).
Proof.
  intros Env T apiCall retries initialDelay w error Hpos Hfirst.
  split; [|split; [|split]].
  - unfold isRateLimitError, hasStatus429.
    rewrite !Bool.orb_true_iff. tauto.
  - intro Hrate. unfold retryableAIOperation.
    destruct retries as [|n]; [lia|].
    rewrite retryLoop_step.
    unfold attempt in Hfirst. cbn [envAfter] in Hfirst.
    destruct (apiCall (env w)) as [r e']. cbn [fst] in Hfirst. subst r. rewrite Hrate.
    destruct (retryLoop_trace apiCall (S n) initialDelay n 1 (Some error)
                (mkWorld e' (trace w ++ [Invoked; Delayed (initialDelay * 2 ^ Z.of_nat 0)])))
      as [rest [Heq [_ Hnext]]].
    exists rest. split.
    + rewrite Heq. cbn [trace]. rewrite <- app_assoc. reflexivity.
    + intro H1. apply Hnext. lia.
  - intro Hrate. unfold retryableAIOperation.
    apply (retryLoop_settles apiCall retries initialDelay 0 retries 0 None w (Threw error));
      [assumption | intros j Hj; lia | assumption | exact Hrate].
  - intros fetch timeout m Hin -> Habort.
    unfold attempt in Hfirst. cbn [envAfter] in Hfirst.
    rewrite (fetchWithTimeout_aborted fetch timeout (env w) m Habort) in Hfirst.
    cbn [fst] in Hfirst. injection Hfirst as <-.
    split; [reflexivity | apply timeouts_are_not_rate_limits; exact Hin].
Qed.

Lemma retry_only_on_rate_limit_witness :
  (isRateLimitError (timeoutError 90000) = true <->
     hasStatus429 (timeoutError 90000) = true
     \/ includes (messageOrJson (timeoutError 90000)) "429" = true
     \/ includes (messageOrJson (timeoutError 90000)) "RESOURCE_EXHAUSTED" = true)
  /\ (isRateLimitError (timeoutError 90000) = true ->
      exists rest,
        trace (snd (retryableAIOperation (fetchWithTimeout abortedFetch 90000) 3 2000
                      (mkWorld 0%nat [])))
        = [] ++ Invoked :: Delayed (2000 * 2 ^ 0) :: rest
        /\ (1 < 3 -> exists rest', rest = Invoked :: rest'))
  /\ (isRateLimitError (timeoutError 90000) = false ->
      retryableAIOperation (fetchWithTimeout abortedFetch 90000) 3 2000 (mkWorld 0%nat [])
      = (Threw (timeoutError 90000),
         mkWorld (envAfter (fetchWithTimeout abortedFetch 90000) 1 0%nat) ([] ++ [Invoked])))
  /\ (forall (fetch : Remote nat string) (timeout : N) (m : string),
        In timeout timeoutsInUse ->
        fetchWithTimeout abortedFetch 90000 = fetchWithTimeout fetch timeout ->
        fst (fetch 0%nat) = Threw (ErrorObject (DOMException "AbortError") m) ->
        timeoutError 90000 = timeoutError timeout
        /\ isRateLimitError (timeoutError 90000) = false).
Proof.
  apply (retry_only_on_rate_limit nat string (fetchWithTimeout abortedFetch 90000) 3 2000
           (mkWorld 0%nat []) (timeoutError 90000)).
  - lia.
  - reflexivity.
Defined.

(** C3 as stated fails on a request timeout: the request is aborted by
    the timer of [fetchWithTimeout], and the retrier, given three attempts,
    invokes the operation once, awaits nothing and rethrows the timeout
    error. *)
Lemma timeout_is_rethrown_at_once :
  fst (abortedFetch 0%nat)
  = Threw (ErrorObject (DOMException "AbortError") "The operation was aborted.")
  /\ retryableAIOperation (fetchWithTimeout abortedFetch defaultTimeout) 3 2000
       (mkWorld 0%nat [])
     = (Threw (Error "Request timed out after 90 seconds."), mkWorld 1%nat [Invoked])
  /\ waits [Invoked] = []
  /\ invocations [Invoked] = 1.
Proof. repeat split. Qed.

End RetryFacts.

(* ================================================================== *)
(** * Properties of the batch loop *)
(* ================================================================== *)

Module BatchFacts.
Import AiService Properties Samples RetryFacts.

Section Chunks.

Context {A : Type}.
Variable l : list A.

Lemma slice_batch (i : nat) : slice l i (i + BATCH_SIZE) = firstn BATCH_SIZE (skipn i l).
Proof. unfold slice. replace (i + BATCH_SIZE - i) with BATCH_SIZE by lia. reflexivity. Qed.

Lemma chunksFrom_concat (fuel : nat) :
  forall i, List.length l <= i + fuel * BATCH_SIZE ->
            List.concat (chunksFrom fuel i l) = skipn i l.
Proof.
  induction fuel as [|fuel IH]; intros i Hfuel; cbn [chunksFrom];
    destruct (Nat.ltb_spec i (List.length l)) as [Hlt|Hge].
  - cbn in Hfuel. lia.
  - symmetry. apply skipn_all2. lia.
  - cbn [List.concat]. rewrite slice_batch, IH by (unfold BATCH_SIZE in *; lia).
    rewrite <- (firstn_skipn BATCH_SIZE (skipn i l)) at 2.
    rewrite skipn_skipn. replace (BATCH_SIZE + i) with (i + BATCH_SIZE) by lia. reflexivity.
  - symmetry. apply skipn_all2. lia.
Qed.

Lemma chunksFrom_length (fuel : nat) :
  forall i, List.length l <= i + fuel * BATCH_SIZE ->
            List.length (chunksFrom fuel i l) = (List.length l - i + 19) / 20.
Proof.
  unfold BATCH_SIZE.
  induction fuel as [|fuel IH]; intros i Hfuel; cbn [chunksFrom];
    destruct (Nat.ltb_spec i (List.length l)) as [Hlt|Hge].
  - lia.
  - replace (List.length l - i) with 0 by lia. reflexivity.
  - cbn [List.length]. rewrite IH by (unfold BATCH_SIZE; lia). unfold BATCH_SIZE.
    destruct (Nat.le_gt_cases 20 (List.length l - i)) as [Hbig|Hsmall].
    + replace (List.length l - i + 19) with ((List.length l - (i + 20) + 19) + 1 * 20) by lia.
      rewrite Nat.div_add by lia. lia.
    + replace (List.length l - (i + 20)) with 0 by lia.
      replace ((List.length l - i + 19) / 20) with 1; [reflexivity|].
      apply Nat.div_unique with (r := List.length l - i - 1); lia.
  - replace (List.length l - i) with 0 by lia. reflexivity.
Qed.

Lemma chunksFrom_nonempty (fuel i : nat) :
  chunksFrom fuel i l <> [] -> i < List.length l.
Proof.
  destruct fuel; cbn [chunksFrom];
    destruct (Nat.ltb_spec i (List.length l)); congruence.
Qed.

Lemma chunksFrom_sizes (fuel : nat) :
  forall i, Forall (fun b => 1 <= List.length b <= BATCH_SIZE) (chunksFrom fuel i l)
            /\ Forall (fun b => List.length b = BATCH_SIZE) (removelast (chunksFrom fuel i l)).
Proof.
  induction fuel as [|fuel IH]; intro i.
  - cbn [chunksFrom]. destruct (i <? List.length l)%nat; split; constructor.
  - cbn [chunksFrom]. destruct (Nat.ltb_spec i (List.length l)) as [Hlt|Hge];
      [|split; constructor].
    destruct (IH (i + BATCH_SIZE)) as [Hall Hfull].
    pose proof (chunksFrom_nonempty fuel (i + BATCH_SIZE)) as Hmore.
    split.
    + constructor; [|exact Hall].
      rewrite slice_batch, length_firstn, length_skipn. unfold BATCH_SIZE. lia.
    + destruct (chunksFrom fuel (i + BATCH_SIZE) l) as [|c rest] eqn:Hrest.
      * constructor.
      * cbn [removelast]. constructor; [|exact Hfull].
        assert (i + BATCH_SIZE < List.length l) by (apply Hmore; discriminate).
        rewrite slice_batch, length_firstn, length_skipn. unfold BATCH_SIZE in *. lia.
Qed.

End Chunks.

Lemma batchesStarted_app (a b : list Effect) :
  batchesStarted (a ++ b) = batchesStarted a ++ batchesStarted b.
Proof.
  induction a as [|ev a IH]; [reflexivity|].
  destruct ev; cbn; rewrite IH; reflexivity.
Qed.

Lemma progressReports_app (a b : list Effect) :
  progressReports (a ++ b) = progressReports a ++ progressReports b.
Proof.
  induction a as [|ev a IH]; [reflexivity|].
  destruct ev; cbn; rewrite IH; reflexivity.
Qed.

(** The effects of the retrier are invisible to the three readings of
    the batch loop: its waits are at least the initial 2000 ms. *)
Lemma retryEffects_unseen (rest : list Effect) :
  Forall (retryEffect 2000) rest ->
  batchesStarted rest = [] /\ progressReports rest = [] /\ filter isPacing rest = [].
Proof.
  induction 1 as [|ev rest Hev _ [IH1 [IH2 IH3]]]; [repeat split|].
  destruct Hev as [->|[j ->]]; cbn [batchesStarted progressReports filter isPacing].
  - repeat split; assumption.
  - assert (Hne : (2000 * 2 ^ Z.of_nat j =? DELAY_BETWEEN_BATCHES)%Z = false).
    { apply Z.eqb_neq. unfold DELAY_BETWEEN_BATCHES.
      pose proof (Z.pow_pos_nonneg 2 (Z.of_nat j)). lia. }
    rewrite Hne. repeat split; assumption.
Qed.

Lemma last_append {A} (a b : list A) (d : A) :
  b <> [] -> last (a ++ b) d = last b d.
Proof.
  intro Hb. induction a as [|x a IH]; [reflexivity|].
  cbn [app]. destruct (a ++ b) eqn:Hab.
  - destruct a; [cbn in Hab; congruence | discriminate].
  - cbn [last]. exact IH.
Qed.

Lemma intersperse_cons {A} (sep x y : A) (l : list A) :
  intersperse sep (x :: y :: l) = x :: sep :: intersperse sep (y :: l).
Proof. reflexivity. Qed.

Section Loop.

Context {Env : Type} {browser : Browser} {json : Json} {providers : Providers Env}.
Variable posts : list WordPressPost.
Variable analysisConfig : AnalysisAIConfig.
Variable onProgress : bool.

Lemma retryable_trace {T} (apiCall : Remote Env T) (retries : nat) (initialDelay : Z)
    (w : World Env) :
  exists rest,
    trace (snd (retryableAIOperation apiCall retries initialDelay w)) = trace w ++ rest
    /\ Forall (retryEffect initialDelay) rest.
Proof.
  destruct (retryLoop_trace apiCall retries initialDelay retries 0 None w)
    as [rest [Heq [Hall _]]].
  exists rest. split; assumption.
Qed.

Lemma processBatch_returns (i : nat) (acc acc' : list BriefResult) (w w' : World Env) :
  processBatch posts analysisConfig onProgress i acc w = (Returned acc', w') ->
  exists rest,
    Forall (retryEffect 2000) rest
    /\ trace w' = trace w ++ BatchStarted (slice posts i (i + BATCH_SIZE)) :: rest ++ reported posts onProgress i.
Proof.
  unfold processBatch, bind, emit. cbn [env trace].
  set (w1 := mkWorld (env w) (trace w ++ [BatchStarted (slice posts i (i + BATCH_SIZE))])).
  destruct (retryable_trace
              (generateJsonText analysisConfig (briefPrompt (slice posts i (i + BATCH_SIZE))))
              3 2000 w1) as [rest [Heq Hall]].
  destruct (retryableAIOperation _ 3 2000 w1) as [[responseText|e] w2]; [|discriminate].
  cbn [snd] in Heq.
  destruct (extractJson responseText) as [jsonString|]; [|unfold throw; discriminate].
  destruct (parseBriefs jsonString) as [batchResults|e]; [|unfold throw; discriminate].
  unfold reportProgress, reported, ret, emit.
  destruct onProgress; intro H; injection H as _ <-; exists rest; split; try assumption;
    cbn [trace]; rewrite Heq; unfold w1; cbn [trace]; rewrite <- !app_assoc; cbn [app];
    rewrite ?app_nil_r; reflexivity.
Qed.

Lemma batchLoop_returns (fuel : nat) :
  forall (i : nat) (acc results : list BriefResult) (w w' : World Env),
    List.length posts <= i + fuel * BATCH_SIZE ->
    batchLoop fuel posts analysisConfig onProgress i acc w = (Returned results, w') ->
    exists performed,
      trace w' = trace w ++ performed
      /\ batchesStarted performed = chunksFrom fuel i posts
      /\ filter isPacing performed
         = intersperse (Delayed DELAY_BETWEEN_BATCHES) (map BatchStarted (chunksFrom fuel i posts))
      /\ (onProgress = true -> i < List.length posts ->
          last (progressReports performed) (0, 0) = (List.length posts, List.length posts))
      /\ (List.length posts <= i -> performed = []).
Proof.
  induction fuel as [|fuel IH]; intros i acc results w w' Hfuel Hrun.
  - cbn [batchLoop chunksFrom] in *.
    destruct (Nat.ltb_spec i (List.length posts)) as [Hlt|Hge]; [cbn in Hfuel; lia|].
    injection Hrun as _ <-. exists []. rewrite app_nil_r. repeat split. lia.
  - cbn [batchLoop chunksFrom] in *.
    destruct (Nat.ltb_spec i (List.length posts)) as [Hlt|Hge].
    2:{ injection Hrun as _ <-. exists []. rewrite app_nil_r. repeat split. lia. }
    unfold bind, tryCatch in Hrun.
    destruct (processBatch posts analysisConfig onProgress i acc w) as [[acc1|e] w1] eqn:Hbatch.
    2:{ destruct (isSyntaxError e); unfold throw in Hrun; discriminate. }
    destruct (processBatch_returns i acc acc1 w w1 Hbatch) as [rest [Hrest Hw1]].
    destruct (retryEffects_unseen rest Hrest) as [Hb [Hp Hf]].
    destruct (Nat.ltb_spec (i + BATCH_SIZE) (List.length posts)) as [Hmore|Hlast].
    + unfold delay, emit in Hrun. cbn [env trace] in Hrun.
      apply IH in Hrun; [|unfold BATCH_SIZE in *; lia].
      destruct Hrun as [performed [Htr [Hst [Hpace [Hprog _]]]]]. cbn [trace] in Htr.
      exists (BatchStarted (slice posts i (i + BATCH_SIZE)) :: rest ++ reported posts onProgress i
              ++ [Delayed DELAY_BETWEEN_BATCHES] ++ performed).
      assert (Hne : chunksFrom fuel (i + BATCH_SIZE) posts <> []).
      { destruct fuel as [|f]; [unfold BATCH_SIZE in *; cbn in Hfuel; lia|].
        cbn [chunksFrom]. destruct (Nat.ltb_spec (i + BATCH_SIZE) (List.length posts)); [|lia].
        discriminate. }
      repeat split.
      * rewrite Htr, Hw1. rewrite <- !app_assoc. cbn [app]. rewrite <- !app_assoc. reflexivity.
      * cbn [batchesStarted]. rewrite !batchesStarted_app, Hb, Hst.
        unfold reported. destruct onProgress; reflexivity.
      * cbn [filter isPacing]. rewrite !filter_app, Hf, Hpace.
        destruct (chunksFrom fuel (i + BATCH_SIZE) posts) as [|c cs]; [congruence|].
        unfold reported. destruct onProgress; reflexivity.
      * intros Hon _. cbn [progressReports].
        rewrite !progressReports_app, Hp. cbn [progressReports app].
        specialize (Hprog Hon Hmore).
        destruct (progressReports performed) as [|r rs] eqn:Hrs.
        -- cbn in Hprog. unfold BATCH_SIZE in *. injection Hprog as H0 _. lia.
        -- rewrite last_append; [exact Hprog | discriminate].
      * lia.
    + unfold ret in Hrun.
      assert (Hnone : chunksFrom fuel (i + BATCH_SIZE) posts = []).
      { destruct fuel; cbn [chunksFrom];
          destruct (Nat.ltb_spec (i + BATCH_SIZE) (List.length posts)); (lia || reflexivity). }
      assert (Hexit : batchLoop fuel posts analysisConfig onProgress (i + BATCH_SIZE) acc1 w1
                      = (Returned acc1, w1)).
      { destruct fuel; cbn [batchLoop];
          destruct (Nat.ltb_spec (i + BATCH_SIZE) (List.length posts)); (lia || reflexivity). }
      rewrite Hexit in Hrun. injection Hrun as _ <-.
      exists (BatchStarted (slice posts i (i + BATCH_SIZE)) :: rest ++ reported posts onProgress i).
      rewrite Hnone. repeat split.
      * exact Hw1.
      * cbn [batchesStarted]. rewrite batchesStarted_app, Hb.
        unfold reported. destruct onProgress; reflexivity.
      * cbn [filter isPacing]. rewrite filter_app, Hf.
        unfold reported. destruct onProgress; reflexivity.
      * intros Hon _. cbn [progressReports]. rewrite progressReports_app, Hp.
        unfold reported. rewrite Hon. cbn. f_equal. lia.
      * lia.
Qed.

End Loop.



End BatchFacts.

(* ================================================================== *)
(** * Properties of the placement *)
(* ================================================================== *)

Module PlacementFacts.
Import AiService Properties Samples.

Lemma siblingsOf_cons (fragment : string -> list node) (tag : string) (k : nat)
    (c : node) (rest : list node) :
  siblingsOf fragment tag k (c :: rest)
  = if isParagraph c && (k =? 0)%nat then c :: fragment tag ++ rest
    else if (k <? List.length (paragraphsOf c))%nat
         then insertAfterIn fragment (k - (if isParagraph c then 1 else 0)) c :: rest
         else c :: siblingsOf fragment tag (k - List.length (paragraphsOf c)) rest.
Proof. reflexivity. Qed.

Lemma paragraphsOf_self (c : node) :
  isParagraph c = true -> 1 <= List.length (paragraphsOf c).
Proof.
  destruct c as [d|d|tag attrs children]; cbn [isParagraph]; try discriminate.
  intro H. cbn [paragraphsOf isParagraph]. rewrite H. cbn. lia.
Qed.

(** When the paragraph number [k] of the document is a child of the body,
    the markup lands right after it, among the children of the body. *)
Lemma insertAfterParagraph_top (fragment : string -> list node) (before : list node) :
  forall (k : nat) (p : node) (after : list node),
    isParagraph p = true ->
    List.length (querySelectorAll_p before) = k ->
    insertAfterParagraph fragment k (before ++ p :: after)
    = before ++ p :: fragment "body" ++ after.
Proof.
  unfold insertAfterParagraph.
  change (forall k p after, isParagraph p = true ->
            List.length (querySelectorAll_p before) = k ->
            siblingsOf fragment "body" k (before ++ p :: after)
            = before ++ p :: fragment "body" ++ after).
  induction before as [|c before IH]; intros k p after Hp Hk.
  - cbn in Hk. subst k. cbn [app]. rewrite siblingsOf_cons, Hp. reflexivity.
  - cbn [app]. rewrite siblingsOf_cons.
    unfold querySelectorAll_p in Hk. cbn [flat_map] in Hk. rewrite length_app in Hk.
    destruct (isParagraph c) eqn:Hc.
    + pose proof (paragraphsOf_self c Hc).
      destruct (Nat.eqb_spec k 0) as [->|_]; [lia|]. cbn [andb].
      destruct (Nat.ltb_spec k (List.length (paragraphsOf c))); [lia|].
      f_equal. apply IH; [assumption | unfold querySelectorAll_p; lia].
    + cbn [andb].
      destruct (Nat.ltb_spec k (List.length (paragraphsOf c))); [lia|].
      f_equal. apply IH; [assumption | unfold querySelectorAll_p; lia].
Qed.

(** The branches of the heuristic, by the number of paragraphs. *)
Lemma heuristic_cases {browser : Browser} (postContent placeholder : string) :
  insertPlaceholderHeuristically postContent placeholder
  = match List.length (querySelectorAll_p (parseFromString postContent)) with
    | 0 =>
        innerHTML (parseFragment "body"
                     (placeholder ++ nl ++ innerHTML (parseFromString postContent)))
    | 1 | 2 => afterParagraph postContent placeholder 0
    | _ => afterParagraph postContent placeholder 1
    end.
Proof.
  unfold insertPlaceholderHeuristically, afterParagraph.
  destruct (querySelectorAll_p (parseFromString postContent)) as [|p1 [|p2 [|p3 rest]]];
    reflexivity.
Qed.






(** The index the reply leads to, by the shape of the reply. *)
Lemma targetOf_cases (responseText : string) (n : nat) :
  1 <= n ->
  match firstDigits (list_ascii_of_string (trim responseText)) with
  | None => targetOf responseText n = 0
  | Some digits =>
      let m := parseInt digits in
      if ((1 <=? m)%N && (m <=? N.of_nat n)%N)%bool
      then targetOf responseText n = N.to_nat m - 1
      else targetOf responseText n = 1
  end.
Proof.
  intro Hn. unfold targetOf, chosenNumber.
  destruct (firstDigits (list_ascii_of_string (trim responseText))) as [digits|].
  - cbv zeta.
    destruct (N.leb_spec 1 (parseInt digits)), (N.leb_spec (parseInt digits) (N.of_nat n));
      destruct (N.ltb_spec (parseInt digits) 1), (N.ltb_spec (N.of_nat n) (parseInt digits));
      cbn [andb orb]; try lia; reflexivity.
  - destruct (N.ltb_spec (N.of_nat n) 1); [lia|]. reflexivity.
Qed.

Lemma targetOf_in_range (responseText : string) (n : nat) :
  3 <= n -> targetOf responseText n < n.
Proof.
  intro Hn. unfold targetOf.
  destruct (N.ltb_spec (chosenNumber responseText) 1),
           (N.ltb_spec (N.of_nat n) (chosenNumber responseText)); cbn [orb]; lia.
Qed.




End PlacementFacts.

(* ================================================================== *)
(** * Properties of the job processor and of the queue drainer *)
(* ================================================================== *)

Module ResultsFacts.
Import AiService ResultsStep Properties Samples.

Lemma runJob_insert_without_url {Env : Type} {browser : Browser} {json : Json}
    {providers : Providers Env} {wp : WordPress Env}
    (config : Configuration) (current : list WordPressPost) (job : Job) (w : World Env) :
  action job = insert ->
  lacksImageUrl job ->
  runJob config current job w = (Threw (Error (insertFailure current job)), w).
Proof.
  intros Haction Hlacks. unfold runJob, insertFailure.
  destruct (find (fun p => (id p =? id (post job))%Z) current) as [currentPost|];
    [|reflexivity].
  rewrite Haction.
  destruct Hlacks as [Hnone|[pl [Hsome Hempty]]].
  - rewrite Hnone. reflexivity.
  - rewrite Hsome. unfold truthy. rewrite Hempty. reflexivity.
Qed.

(** C8: a job whose action is insert and whose payload lacks the image
    URL makes the processor publish one update and nothing else: the
    status error with a message that tells the failure.  No remote call is
    made (the environment is untouched and the trace holds no call), no
    other status is published, and only the posts with the id of the job
    change, in status and message alone. *)
Theorem insert_without_image_url_fails_at_once :
  forall (Env : Type) (browser : Browser) (json : Json) (providers : Providers Env)
         (wp : WordPress Env) (config : Configuration) (current : list WordPressPost)
         (job : Job) (w : World Env),
    action job = insert ->
    lacksImageUrl job ->
    let message := insertFailure current job in
    let published := [PostUpdated (id (post job)) (statusUpdate Status.error message)] in
    processJob config current job w = (Returned tt, mkWorld (env w) (trace w ++ published))
    /\ (find (fun p => (id p =? id (post job))%Z) current <> None ->
        message = "No image URL for insertion.")
    /\ forall posts : list WordPressPost,
         postsAfter published posts
         = map (fun p => if (id p =? id (post job))%Z then failed p message else p) posts.
Proof.
  intros Env browser json providers wp config current job w Haction Hlacks message published.
  split; [|split].
  - unfold processJob, tryCatch.
    rewrite (runJob_insert_without_url config current job w Haction Hlacks).
    reflexivity.
  - unfold message, insertFailure.
    destruct (find (fun p => (id p =? id (post job))%Z) current); [reflexivity | congruence].
  - intro posts. unfold published, postsAfter. cbn [fold_left]. unfold applyUpdate.
    apply map_ext. intro p. destruct (id p =? id (post job))%Z; reflexivity.
Qed.

Lemma insert_without_image_url_fails_at_once_witness :
  let job := insertJob 7 None in
  let current := [samplePost 7; samplePost 8] in
  let message := insertFailure current job in
  let published := [PostUpdated (id (post job)) (statusUpdate Status.error message)] in
  processJob (browser := SmallBrowser.browser) (json := emptyJson)
    (providers := promptCounter) (wp := acceptingPlatform)
    sampleConfiguration current job (mkWorld 0%nat [])
  = (Returned tt, mkWorld 0%nat ([] ++ published))
  /\ (find (fun p => (id p =? id (post job))%Z) current <> None ->
      message = "No image URL for insertion.")
  /\ forall posts : list WordPressPost,
       postsAfter published posts
       = map (fun p => if (id p =? id (post job))%Z then failed p message else p) posts.
Proof.
  apply (insert_without_image_url_fails_at_once nat SmallBrowser.browser emptyJson
           promptCounter acceptingPlatform sampleConfiguration
           [samplePost 7; samplePost 8] (insertJob 7 None)
           (mkWorld 0%nat [])).
  - reflexivity.
  - left. reflexivity.
Defined.

(* ------------------------------------------------------------------ *)
(** ** The queue drainer *)
(* ------------------------------------------------------------------ *)

Lemma Settled_Bounded (s : Scheduler) : Settled s -> Bounded s.
Proof. unfold Settled, Bounded. lia. Qed.

Lemma last_default {A} (l : list A) :
  forall (x d d' : A), last (x :: l) d = last (x :: l) d'.
Proof.
  induction l as [|y l IH]; intros x d d'; [reflexivity|].
  change (last (y :: l) d = last (y :: l) d'). apply IH.
Qed.

Lemma latest_cons (s x : Scheduler) (h : list Scheduler) : latest s (x :: h) = latest x h.
Proof.
  unfold latest. destruct h as [|y h]; [reflexivity|].
  change (last (y :: h) s = last (y :: h) x). apply last_default.
Qed.

Lemma latest_app (s : Scheduler) (h1 h2 : list Scheduler) :
  latest s (h1 ++ h2) = latest (latest s h1) h2.
Proof.
  revert s. induction h1 as [|x h1 IH]; intro s; [reflexivity|].
  cbn [app]. rewrite !latest_cons. apply IH.
Qed.

Lemma whileLoop_keeps (queue : list Job) :
  forall s, Settled s ->
            Forall Bounded (whileLoop queue s) /\ Settled (latest s (whileLoop queue s)).
Proof.
  induction queue as [|job rest IH]; intros s Hs; cbn [whileLoop].
  - split; [constructor | exact Hs].
  - destruct (Z.ltb_spec (activeCount s) MAX_CONCURRENT_JOBS) as [Hroom|Hfull];
      [|split; [constructor | exact Hs]].
    set (s3 := setRunning _ _).
    assert (H3 : Settled s3).
    { unfold Settled, MAX_CONCURRENT_JOBS in *. unfold s3. cbn.
      rewrite length_app. cbn. lia. }
    destruct (IH s3 H3) as [Hall Hend].
    rewrite !latest_cons. split; [|exact Hend].
    assert (Hlen : List.length (running s ++ [job]) = S (List.length (running s)))
      by (rewrite length_app; cbn; lia).
    unfold Settled, MAX_CONCURRENT_JOBS in Hs.
    unfold MAX_CONCURRENT_JOBS in Hroom.
    constructor;
      [unfold Bounded, MAX_CONCURRENT_JOBS; cbn [activeCount running setQueue]; lia|].
    constructor;
      [unfold Bounded, MAX_CONCURRENT_JOBS;
       cbn [activeCount running setQueue setActive]; lia|].
    constructor;
      [unfold Bounded, MAX_CONCURRENT_JOBS, s3;
       cbn [activeCount running setQueue setActive setRunning]; rewrite Hlen; lia|].
    exact Hall.
Qed.

Lemma tryNext_keeps (s : Scheduler) :
  Settled s -> Forall Bounded (tryNext s) /\ Settled (latest s (tryNext s)).
Proof.
  intro Hs. unfold tryNext.
  destruct (whileLoop_keeps (jobQueue s) s Hs) as [Hall Hend].
  destruct ((activeCount (latest s (whileLoop (jobQueue s) s)) =? 0)%Z
            && (List.length (jobQueue (latest s (whileLoop (jobQueue s) s))) =? 0)%nat).
  - rewrite latest_app. cbn. split.
    + apply Forall_app. split; [exact Hall|].
      constructor; [|constructor]. apply Settled_Bounded in Hend. exact Hend.
    + exact Hend.
  - split; assumption.
Qed.

Lemma handle_keeps (ev : Event) (s : Scheduler) :
  isClear ev = false ->
  Settled s -> Forall Bounded (handle ev s) /\ Settled (latest s (handle ev s)).
Proof.
  intros Hev Hs. destruct ev as [jobs|k|]; [| |discriminate]; cbn [handle].
  - unfold addJobsToQueue.
    destruct (List.length jobs =? 0)%nat; [split; [constructor | exact Hs]|].
    set (s1 := setQueue _ s). assert (H1 : Settled s1) by exact Hs.
    rewrite latest_cons. unfold drainQueue.
    destruct (isProcessing s1).
    + split; [repeat constructor; apply Settled_Bounded in H1; apply H1 | exact H1].
    + set (s2 := setProcessing true s1). assert (H2 : Settled s2) by exact H1.
      destruct (tryNext_keeps s2 H2) as [Hall Hend].
      rewrite latest_cons. split; [|exact Hend].
      constructor; [apply Settled_Bounded; exact H1|].
      constructor; [apply Settled_Bounded; exact H2 | exact Hall].
  - unfold settle.
    destruct (nth_error (running s) k) as [job|] eqn:Hk; [|split; [constructor | exact Hs]].
    set (s1 := setActive _ _).
    assert (H1 : Settled s1).
    { assert (Hlt : k < List.length (running s)) by (apply nth_error_Some; congruence).
      unfold Settled, removeAt in *. unfold s1.
      cbn [activeCount running setActive setRunning].
      rewrite length_app, length_firstn, length_skipn. lia. }
    destruct (tryNext_keeps s1 H1) as [Hall Hend].
    rewrite latest_cons. split; [|exact Hend].
    constructor; [apply Settled_Bounded; exact H1 | exact Hall].
Qed.

Lemma timeline_keeps (events : list Event) :
  forall s, forallb (fun ev => negb (isClear ev)) events = true ->
            Settled s ->
            Forall Bounded (timeline events s) /\ Settled (latest s (timeline events s)).
Proof.
  induction events as [|ev events IH]; intros s Hno Hs; cbn [timeline].
  - split; [constructor | exact Hs].
  - cbn [forallb] in Hno. apply andb_true_iff in Hno. destruct Hno as [Hev Hno].
    apply negb_true_iff in Hev.
    destruct (handle_keeps ev s Hev Hs) as [Hall Hend].
    destruct (IH (latest s (handle ev s)) Hno Hend) as [Hall' Hend'].
    rewrite latest_app. split; [|exact Hend'].
    apply Forall_app. split; assumption.
Qed.

(** C1: under any sequence of enqueues and completions, without a clear,
    the counter of active jobs is at every instant between 0 and
    MAX_CONCURRENT_JOBS = 3 and at least the number of jobs in flight;
    between two events it is that number. *)
Theorem active_count_never_exceeds_ceiling :
  forall events : list Event,
    forallb (fun ev => negb (isClear ev)) events = true ->
    Forall (fun s => (0 <= activeCount s <= 3)%Z
                     /\ (Z.of_nat (List.length (running s)) <= activeCount s)%Z)
           (initial :: timeline events initial)
    /\ activeCount (latest initial (timeline events initial))
       = Z.of_nat (List.length (running (latest initial (timeline events initial)))).
Proof.
  intros events Hno.
  assert (H0 : Settled initial) by (unfold Settled, initial, MAX_CONCURRENT_JOBS; cbn; lia).
  destruct (timeline_keeps events initial Hno H0) as [Hall [Hend _]].
  split; [|exact Hend].
  constructor; [apply (Settled_Bounded initial H0) | exact Hall].
Qed.

Lemma active_count_never_exceeds_ceiling_witness :
  let events := [Enqueue (jobsNumbered 1 25); Settle 1; Settle 0; Enqueue (jobsNumbered 26 2);
                 Settle 2; Settle 2] in
  Forall (fun s => (0 <= activeCount s <= 3)%Z
                   /\ (Z.of_nat (List.length (running s)) <= activeCount s)%Z)
         (initial :: timeline events initial)
  /\ activeCount (latest initial (timeline events initial))
     = Z.of_nat (List.length (running (latest initial (timeline events initial)))).
Proof.
  apply (active_count_never_exceeds_ceiling
           [Enqueue (jobsNumbered 1 25); Settle 1; Settle 0; Enqueue (jobsNumbered 26 2);
            Settle 2; Settle 2]).
  reflexivity.
Defined.

(** C2 fails on the code: a clear while three jobs are in flight empties
    the queue and zeroes the counter; the first completion then takes the
    counter to -1, and an enqueue after the clear starts three more jobs
    next to the three still in flight. *)
Lemma clear_while_running_breaks_the_bound :
  let afterClear := latest initial (timeline [Enqueue (jobsNumbered 1 3); Clear] initial) in
  let afterCompletion :=
    latest initial (timeline [Enqueue (jobsNumbered 1 3); Clear; Settle 0] initial) in
  let afterEnqueue :=
    latest initial
      (timeline [Enqueue (jobsNumbered 1 3); Clear; Enqueue (jobsNumbered 4 3)] initial) in
  jobQueue afterClear = []
  /\ activeCount afterClear = 0%Z
  /\ List.length (running afterClear) = 3
  /\ activeCount afterCompletion = (-1)%Z
  /\ List.length (running afterEnqueue) = 6
  /\ activeCount afterEnqueue = 3%Z.
Proof. repeat split. Qed.

End ResultsFacts.

(* ================================================================== *)
(** * More properties of the queue drainer *)
(* ================================================================== *)

Module QueueFacts.
Import ResultsStep Properties Samples QueueReadings ResultsFacts.

(** The state the [while] loop ends in. *)
Lemma whileLoop_end (queue : list Job) :
  forall s, jobQueue s = queue ->
    latest s (whileLoop queue s)
    = {| jobQueue := skipn (startable s) queue;
         activeCount := activeCount s + Z.of_nat (startable s);
         isProcessing := isProcessing s;
         running := running s ++ firstn (startable s) queue |}.
Proof.
  unfold startable, MAX_CONCURRENT_JOBS.
  induction queue as [|job rest IH]; intros s Hq; rewrite Hq; cbn [whileLoop List.length].
  - rewrite Nat.min_0_r. cbn. rewrite app_nil_r, Z.add_0_r.
    destruct s; cbn in *; subst; reflexivity.
  - unfold MAX_CONCURRENT_JOBS.
    destruct (Z.ltb_spec (activeCount s) 3) as [Hroom|Hfull].
    + rewrite !latest_cons.
      set (s3 := setRunning _ _).
      rewrite (IH s3 eq_refl).
      assert (Hn : Z.to_nat (3 - activeCount s) = S (Z.to_nat (3 - activeCount s3))).
      { unfold s3. cbn [activeCount setRunning setActive setQueue]. lia. }
      rewrite Hn. cbn [Nat.min skipn firstn]. unfold s3.
      cbn [activeCount running isProcessing jobQueue setRunning setActive setQueue List.length].
      rewrite <- app_assoc. cbn [app]. f_equal. lia.
    + replace (Z.to_nat (3 - activeCount s)) with 0 by lia.
      cbn. rewrite app_nil_r, Z.add_0_r.
      destruct s; cbn in *; subst; reflexivity.
Qed.

Lemma tryNext_end (s : Scheduler) :
  latest s (tryNext s)
  = let s' := latest s (whileLoop (jobQueue s) s) in
    if (activeCount s' =? 0)%Z && (List.length (jobQueue s') =? 0)%nat
    then setProcessing false s' else s'.
Proof.
  unfold tryNext. cbv zeta.
  destruct ((activeCount (latest s (whileLoop (jobQueue s) s)) =? 0)%Z
            && (List.length (jobQueue (latest s (whileLoop (jobQueue s) s))) =? 0)%nat).
  - rewrite latest_app. reflexivity.
  - reflexivity.
Qed.

Lemma length_zero_nil {A} (l : list A) : (List.length l =? 0)%nat = true <-> l = [].
Proof. destruct l; cbn; split; congruence. Qed.

(** [tryNext] from a state whose counter is the number of jobs in
    flight, the drainer being on. *)
Lemma tryNext_armed (s : Scheduler) :
  isProcessing s = true ->
  activeCount s = Z.of_nat (List.length (running s)) ->
  (activeCount s <= MAX_CONCURRENT_JOBS)%Z ->
  Armed (latest s (tryNext s))
  /\ (jobQueue (latest s (tryNext s)) = []
      \/ activeCount (latest s (tryNext s)) = MAX_CONCURRENT_JOBS)
  /\ running (latest s (tryNext s)) = running s ++ firstn (startable s) (jobQueue s)
  /\ jobQueue (latest s (tryNext s)) = skipn (startable s) (jobQueue s).
Proof.
  intros Hon Hcount Hmax. rewrite tryNext_end. cbv zeta.
  rewrite (whileLoop_end (jobQueue s) s eq_refl).
  cbn [activeCount jobQueue].
  assert (Hn : startable s <= List.length (jobQueue s)) by (unfold startable; lia).
  assert (Hfree : (Z.of_nat (startable s) <= MAX_CONCURRENT_JOBS - activeCount s)%Z)
    by (unfold startable, MAX_CONCURRENT_JOBS in *; lia).
  assert (Hrest : skipn (startable s) (jobQueue s) = []
                  \/ (activeCount s + Z.of_nat (startable s))%Z = MAX_CONCURRENT_JOBS).
  { destruct (Nat.eq_dec (startable s) (List.length (jobQueue s))) as [Hall|Hsome].
    - left. rewrite Hall. apply skipn_all.
    - right. unfold startable, MAX_CONCURRENT_JOBS in *. lia. }
  assert (Hlen : List.length (running s ++ firstn (startable s) (jobQueue s))
                 = List.length (running s) + startable s).
  { rewrite length_app, length_firstn. lia. }
  destruct ((activeCount s + Z.of_nat (startable s) =? 0)%Z
            && (List.length (skipn (startable s) (jobQueue s)) =? 0)%nat) eqn:Hidle.
  - apply andb_true_iff in Hidle. destruct Hidle as [H0 Hq].
    apply Z.eqb_eq in H0. apply length_zero_nil in Hq.
    unfold Armed, setProcessing.
    cbn [activeCount jobQueue isProcessing running].
    rewrite Hlen. repeat split; try lia; try assumption; try discriminate.
  - unfold Armed. cbn [activeCount jobQueue isProcessing running].
    rewrite Hlen. repeat split; try lia; try congruence; try assumption.
    intros _. apply andb_false_iff in Hidle.
    destruct Hidle as [H0|Hq].
    + apply Z.eqb_neq in H0. lia.
    + destruct Hrest as [Hnil|Hfull].
      * rewrite Hnil in Hq. discriminate.
      * unfold MAX_CONCURRENT_JOBS in *. lia.
Qed.

Lemma removeAt_length {A} (k : nat) (l : list A) :
  k < List.length l -> S (List.length (removeAt k l)) = List.length l.
Proof.
  intro Hk. unfold removeAt. rewrite length_app, length_firstn, length_skipn. lia.
Qed.

Lemma handle_armed (ev : Event) (s : Scheduler) :
  isClear ev = false -> Armed s -> Armed (latest s (handle ev s)).
Proof.
  intros Hev [Hcount [Hmax [Hoff Hon]]].
  destruct ev as [jobs|k|]; [| |discriminate]; cbn [handle].
  - unfold addJobsToQueue.
    destruct (List.length jobs =? 0)%nat eqn:Hjobs;
      [exact (conj Hcount (conj Hmax (conj Hoff Hon)))|].
    rewrite latest_cons. unfold drainQueue.
    cbn [isProcessing setQueue].
    destruct (isProcessing s) eqn:Hp.
    + cbn [latest last]. unfold Armed. cbn [activeCount jobQueue isProcessing running setQueue].
      repeat split; try assumption; try congruence. intros _. apply Hon. reflexivity.
    + rewrite latest_cons.
      apply (tryNext_armed (setProcessing true (setQueue (jobQueue s ++ jobs) s)));
        [reflexivity | exact Hcount | exact Hmax].
  - unfold settle.
    destruct (nth_error (running s) k) as [job|] eqn:Hk;
      [|exact (conj Hcount (conj Hmax (conj Hoff Hon)))].
    rewrite latest_cons.
    assert (Hlt : k < List.length (running s)) by (apply nth_error_Some; congruence).
    pose proof (removeAt_length k (running s) Hlt) as Hrem.
    destruct (isProcessing s) eqn:Hp.
    + apply tryNext_armed; cbn [activeCount running isProcessing setActive setRunning].
      * exact Hp.
      * lia.
      * lia.
    + destruct (Hoff eq_refl) as [H0 _]. lia.
Qed.

Lemma timeline_armed (events : list Event) :
  forall s, forallb (fun ev => negb (isClear ev)) events = true ->
            Armed s -> Armed (latest s (timeline events s)).
Proof.
  induction events as [|ev events IH]; intros s Hno Hs; cbn [timeline]; [exact Hs|].
  cbn [forallb] in Hno. apply andb_true_iff in Hno. destruct Hno as [Hev Hno].
  apply negb_true_iff in Hev.
  rewrite latest_app. apply IH; [exact Hno | apply handle_armed; assumption].
Qed.

Lemma initial_armed : Armed initial.
Proof. unfold Armed, initial, MAX_CONCURRENT_JOBS. cbn. repeat split; try lia; discriminate. Qed.

(** X1: under enqueues and completions, without a clear, the drainer
    never stalls: between two events a pending job implies that the
    drainer is on and at least one job is in flight (whose completion calls
    tryNext), and the drainer is off exactly when nothing is pending and
    nothing is in flight. *)
Theorem pending_jobs_never_stall :
  forall events : list Event,
    forallb (fun ev => negb (isClear ev)) events = true ->
    let s := latest initial (timeline events initial) in
    (jobQueue s <> [] -> isProcessing s = true /\ 1 <= List.length (running s))
    /\ (isProcessing s = false <-> running s = [] /\ jobQueue s = []).
Proof.
  intros events Hno s.
  destruct (timeline_armed events initial Hno initial_armed) as [Hcount [Hmax [Hoff Hon]]].
  fold s in Hcount, Hmax, Hoff, Hon.
  split.
  - intro Hq. destruct (isProcessing s) eqn:Hp.
    + split; [reflexivity | specialize (Hon eq_refl); lia].
    + destruct (Hoff eq_refl) as [_ Hnil]. contradiction.
  - split.
    + intro Hp. destruct (Hoff Hp) as [H0 Hnil]. split; [|exact Hnil].
      destruct (running s); [reflexivity | cbn in Hcount; lia].
    + intros [Hr _]. destruct (isProcessing s) eqn:Hp; [|reflexivity].
      specialize (Hon eq_refl). rewrite Hr in Hcount. cbn in Hcount. lia.
Qed.

Lemma pending_jobs_never_stall_witness :
  let events := [Enqueue (jobsNumbered 1 2); Enqueue (jobsNumbered 3 5); Settle 0] in
  let s := latest initial (timeline events initial) in
  (jobQueue s <> [] -> isProcessing s = true /\ 1 <= List.length (running s))
  /\ (isProcessing s = false <-> running s = [] /\ jobQueue s = []).
Proof.
  apply (pending_jobs_never_stall
           [Enqueue (jobsNumbered 1 2); Enqueue (jobsNumbered 3 5); Settle 0]).
  reflexivity.
Defined.



Lemma removeAt_incl {A} (k : nat) (l : list A) : incl (removeAt k l) l.
Proof.
  unfold removeAt. intros x Hx. apply in_app_or in Hx. destruct Hx as [Hx|Hx].
  - rewrite <- (firstn_skipn k l). apply in_or_app. left. exact Hx.
  - rewrite <- (firstn_skipn (S k) l). apply in_or_app. right. exact Hx.
Qed.

(** [tryNext] moves jobs from the head of the queue to the jobs in
    flight, whatever the state. *)
Lemma tryNext_moves (s : Scheduler) :
  jobQueue s = firstn (startable s) (jobQueue s) ++ jobQueue (latest s (tryNext s))
  /\ running (latest s (tryNext s)) = running s ++ firstn (startable s) (jobQueue s).
Proof.
  rewrite tryNext_end. cbv zeta. rewrite (whileLoop_end (jobQueue s) s eq_refl).
  cbn [activeCount jobQueue].
  destruct ((activeCount s + Z.of_nat (startable s) =? 0)%Z
            && (List.length (skipn (startable s) (jobQueue s)) =? 0)%nat);
    cbn [jobQueue running setProcessing]; rewrite firstn_skipn; split; reflexivity.
Qed.

Lemma tryNext_state (s : Scheduler) :
  let s' := latest s (tryNext s) in
  jobQueue s' = skipn (startable s) (jobQueue s)
  /\ activeCount s' = (activeCount s + Z.of_nat (startable s))%Z
  /\ running s' = running s ++ firstn (startable s) (jobQueue s).
Proof.
  cbv zeta. rewrite tryNext_end. cbv zeta. rewrite (whileLoop_end (jobQueue s) s eq_refl).
  cbn [activeCount jobQueue].
  destruct ((activeCount s + Z.of_nat (startable s) =? 0)%Z
            && (List.length (skipn (startable s) (jobQueue s)) =? 0)%nat);
    repeat split.
Qed.

Lemma firstn_min_length {A} (n : nat) (l : list A) :
  firstn (Nat.min n (List.length l)) l = firstn n l.
Proof.
  destruct (Nat.le_ge_cases n (List.length l)) as [H|H].
  - rewrite Nat.min_l by exact H. reflexivity.
  - rewrite Nat.min_r by exact H. rewrite firstn_all, firstn_all2 by exact H. reflexivity.
Qed.

Lemma skipn_min_length {A} (n : nat) (l : list A) :
  skipn (Nat.min n (List.length l)) l = skipn n l.
Proof.
  destruct (Nat.le_ge_cases n (List.length l)) as [H|H].
  - rewrite Nat.min_l by exact H. reflexivity.
  - rewrite Nat.min_r by exact H. rewrite skipn_all, skipn_all2 by exact H. reflexivity.
Qed.

(** What one event does to the queue and to the jobs in flight. *)
Lemma handle_moves (ev : Event) (s : Scheduler) :
  isClear ev = false ->
  exists moved,
    jobQueue s ++ enqueued [ev] = moved ++ jobQueue (latest s (handle ev s))
    /\ incl (running (latest s (handle ev s))) (running s ++ moved)
    /\ List.length (running s) + List.length moved
       = List.length (running (latest s (handle ev s))) + completed [ev] s.
Proof.
  intro Hev. destruct ev as [jobs|k|]; [| |discriminate];
    cbn [handle enqueued flat_map completed]; rewrite ?app_nil_r, ?Nat.add_0_r.
  - unfold addJobsToQueue.
    destruct (List.length jobs =? 0)%nat eqn:Hjobs.
    + apply length_zero_nil in Hjobs. subst jobs. exists [].
      unfold latest. cbn [last app List.length]. rewrite !app_nil_r.
      repeat split; try apply incl_refl; try lia.
    + rewrite latest_cons. unfold drainQueue. cbn [isProcessing setQueue].
      destruct (isProcessing s).
      * exists []. unfold latest. cbn [last app List.length running jobQueue setQueue].
        rewrite !app_nil_r. repeat split; try apply incl_refl; try lia.
      * rewrite latest_cons.
        set (s2 := setProcessing true (setQueue (jobQueue s ++ jobs) s)).
        destruct (tryNext_moves s2) as [Hq Hr].
        exists (firstn (startable s2) (jobQueue s2)). repeat split.
        -- exact Hq.
        -- rewrite Hr. apply incl_refl.
        -- rewrite Hr, length_app. cbn. lia.
  - unfold settle.
    destruct (nth_error (running s) k) as [job|] eqn:Hk.
    + rewrite latest_cons.
      assert (Hlt : k < List.length (running s)) by (apply nth_error_Some; congruence).
      pose proof (removeAt_length k (running s) Hlt) as Hrem.
      set (s1 := setActive (activeCount s - 1) (setRunning (removeAt k (running s)) s)).
      destruct (tryNext_moves s1) as [Hq Hr].
      exists (firstn (startable s1) (jobQueue s1)). repeat split.
      * exact Hq.
      * rewrite Hr. unfold s1 at 1. cbn [running setActive setRunning].
        apply incl_app; [apply incl_appl, removeAt_incl | apply incl_appr, incl_refl].
      * rewrite Hr, length_app.
        change (running s1) with (removeAt k (running s)). cbn [Nat.add]. lia.
    + exists []. unfold latest. cbn [last app List.length]. rewrite !app_nil_r.
      repeat split; try apply incl_refl; try lia.
Qed.

Lemma timeline_conserves (events : list Event) :
  forall (s : Scheduler) (before started : list Job),
    forallb (fun ev => negb (isClear ev)) events = true ->
    before = started ++ jobQueue s ->
    incl (running s) started ->
    exists started',
      before ++ enqueued events = started' ++ jobQueue (latest s (timeline events s))
      /\ incl (running (latest s (timeline events s))) started'
      /\ List.length started' + List.length (running s)
         = List.length started + List.length (running (latest s (timeline events s)))
           + completed events s.
Proof.
  induction events as [|ev events IH]; intros s before started Hno Hbefore Hincl.
  - exists started. cbn. rewrite app_nil_r. repeat split; [exact Hbefore | exact Hincl | lia].
  - cbn [forallb] in Hno. apply andb_true_iff in Hno. destruct Hno as [Hev Hno].
    apply negb_true_iff in Hev.
    destruct (handle_moves ev s Hev) as [moved [Hq [Hr Hn]]].
    cbn [timeline]. rewrite latest_app.
    destruct (IH (latest s (handle ev s)) (before ++ enqueued [ev]) (started ++ moved) Hno)
      as [started' [Hq' [Hr' Hn']]].
    + rewrite Hbefore, <- !app_assoc. f_equal. exact Hq.
    + intros x Hx. apply Hr in Hx. apply in_app_or in Hx. apply in_or_app.
      destruct Hx as [Hx|Hx]; [left; apply Hincl; exact Hx | right; exact Hx].
    + exists started'. repeat split.
      * rewrite <- Hq'. rewrite <- app_assoc. f_equal.
        unfold enqueued. cbn [flat_map]. rewrite app_nil_r. reflexivity.
      * exact Hr'.
      * rewrite length_app in Hn'. cbn [completed] in Hn |- *.
        rewrite Nat.add_0_r in Hn. lia.
Qed.

(** X3: without a clear no job is dropped or overtaken: the pending queue
    is what is left of the jobs enqueued, in order, once a prefix of them
    has been started; every job in flight is one of the started jobs; and
    the started jobs are as many as the jobs in flight plus the
    completions. *)
Theorem jobs_are_started_in_order_and_never_dropped :
  forall events : list Event,
    forallb (fun ev => negb (isClear ev)) events = true ->
    let s := latest initial (timeline events initial) in
    exists started,
      enqueued events = started ++ jobQueue s
      /\ incl (running s) started
      /\ List.length started = List.length (running s) + completed events initial.
Proof.
  intros events Hno s.
  destruct (timeline_conserves events initial [] [] Hno eq_refl (incl_refl _))
    as [started [Hq [Hr Hn]]].
  exists started. repeat split; [exact Hq | exact Hr | cbn in Hn; fold s in Hn; lia].
Qed.

Lemma jobs_are_started_in_order_and_never_dropped_witness :
  let events := [Enqueue (jobsNumbered 1 2); Enqueue (jobsNumbered 3 5); Settle 0; Settle 5] in
  let s := latest initial (timeline events initial) in
  exists started,
    enqueued events = started ++ jobQueue s
    /\ incl (running s) started
    /\ List.length started = List.length (running s) + completed events initial.
Proof.
  apply (jobs_are_started_in_order_and_never_dropped
           [Enqueue (jobsNumbered 1 2); Enqueue (jobsNumbered 3 5); Settle 0; Settle 5]).
  reflexivity.
Defined.

(** X4: a clear neither cancels nor counts the jobs in flight: after
    [handleClearCompleted] in any state, the next enqueue of a non-empty
    list starts its first three jobs next to the jobs still in flight and
    leaves the others pending. *)
Theorem enqueue_after_clear_starts_three_more :
  forall (s : Scheduler) (jobs : list Job),
    jobs <> [] ->
    let cleared := latest s (handleClearCompleted s) in
    let s' := latest cleared (addJobsToQueue jobs cleared) in
    running cleared = running s
    /\ running s' = running s ++ firstn 3 jobs
    /\ jobQueue s' = skipn 3 jobs
    /\ activeCount s' = Z.of_nat (Nat.min 3 (List.length jobs)).
Proof.
  intros s jobs Hjobs cleared s'.
  split; [reflexivity|].
  unfold s', addJobsToQueue.
  destruct (List.length jobs =? 0)%nat eqn:Hlen;
    [apply length_zero_nil in Hlen; contradiction|].
  rewrite latest_cons.
  change (drainQueue (setQueue (jobQueue cleared ++ jobs) cleared))
    with (setProcessing true (setQueue jobs cleared)
          :: tryNext (setProcessing true (setQueue jobs cleared))).
  rewrite latest_cons.
  destruct (tryNext_state (setProcessing true (setQueue jobs cleared))) as [Hq [Ha Hr]].
  rewrite Hq, Ha, Hr.
  change (startable (setProcessing true (setQueue jobs cleared)))
    with (Nat.min 3 (List.length jobs)).
  cbn [jobQueue activeCount running setProcessing setQueue].
  rewrite firstn_min_length, skipn_min_length.
  repeat split.
Qed.

Lemma enqueue_after_clear_starts_three_more_witness :
  let s := latest initial (timeline [Enqueue (jobsNumbered 1 5)] initial) in
  let cleared := latest s (handleClearCompleted s) in
  let s' := latest cleared (addJobsToQueue (jobsNumbered 6 4) cleared) in
  running cleared = running s
  /\ running s' = running s ++ firstn 3 (jobsNumbered 6 4)
  /\ jobQueue s' = skipn 3 (jobsNumbered 6 4)
  /\ activeCount s' = Z.of_nat (Nat.min 3 (List.length (jobsNumbered 6 4))).
Proof.
  apply (enqueue_after_clear_starts_three_more
           (latest initial (timeline [Enqueue (jobsNumbered 1 5)] initial))
           (jobsNumbered 6 4)).
  discriminate.
Defined.

End QueueFacts.

(* ================================================================== *)
(** * Properties of the job processor *)
(* ================================================================== *)

Module ProcessorFacts.
Import AiService ResultsStep Properties Samples ProcessorReadings RetryFacts.

Section Combinators.

Context {Env : Type}.
Variable P : Effect -> Prop.

Lemma Adds_ret {A} (a : A) : Adds P (ret (Env := Env) a).
Proof. intro w. exists []. cbn. rewrite app_nil_r. split; constructor. Qed.

Lemma Adds_throw {A} (e : Thrown) : Adds P (throw (Env := Env) (A := A) e).
Proof. intro w. exists []. cbn. rewrite app_nil_r. split; constructor. Qed.

Lemma Adds_emit (ev : Effect) : P ev -> Adds P (emit (Env := Env) ev).
Proof. intros Hev w. exists [ev]. cbn. split; [reflexivity | repeat constructor; exact Hev]. Qed.

Lemma Adds_perform {A} (op : Remote Env A) : Adds P (perform op).
Proof.
  intro w. exists []. unfold perform. destruct (op (env w)). cbn. rewrite app_nil_r.
  split; constructor.
Qed.

Lemma Adds_bind {A B} (m : Async Env A) (k : A -> Async Env B) :
  Adds P m -> (forall a, Adds P (k a)) -> Adds P (bind m k).
Proof.
  intros Hm Hk w. unfold bind. destruct (Hm w) as [added [Heq Hall]].
  destruct (m w) as [[a|e] w1]; cbn [snd] in Heq.
  - destruct (Hk a w1) as [added' [Heq' Hall']].
    exists (added ++ added'). rewrite Heq', Heq, app_assoc.
    split; [reflexivity | apply Forall_app; split; assumption].
  - exists added. split; assumption.
Qed.

Lemma Adds_tryCatch {A} (m : Async Env A) (handler : Thrown -> Async Env A) :
  Adds P m -> (forall e, Adds P (handler e)) -> Adds P (tryCatch m handler).
Proof.
  intros Hm Hh w. unfold tryCatch. destruct (Hm w) as [added [Heq Hall]].
  destruct (m w) as [[a|e] w1]; cbn [snd] in Heq.
  - exists added. split; assumption.
  - destruct (Hh e w1) as [added' [Heq' Hall']].
    exists (added ++ added'). rewrite Heq', Heq, app_assoc.
    split; [reflexivity | apply Forall_app; split; assumption].
Qed.

End Combinators.

Section Quiet.

Context {Env : Type} {browser : Browser} {json : Json} {providers : Providers Env}
        {wp : WordPress Env}.
Variable P : Effect -> Prop.
Hypothesis P_invoked : P Invoked.
Hypothesis P_delayed : forall ms, P (Delayed ms).

Lemma Adds_retryLoop {T} (apiCall : Remote Env T) (retries : nat) (initialDelay : Z)
    (left : nat) :
  forall i lastError, Adds P (retryLoop apiCall retries initialDelay left i lastError).
Proof.
  induction left as [|left IH]; intros i lastError; cbn [retryLoop].
  - apply Adds_throw.
  - apply Adds_tryCatch.
    + apply Adds_bind; [apply Adds_emit; exact P_invoked | intros _; apply Adds_perform].
    + intro e. destruct (isRateLimitError e); [|apply Adds_throw].
      apply Adds_bind; [apply Adds_emit, P_delayed | intros _; apply IH].
Qed.

Lemma Adds_retryable {T} (apiCall : Remote Env T) (retries : nat) (initialDelay : Z) :
  Adds P (retryableAIOperation apiCall retries initialDelay).
Proof. apply Adds_retryLoop. Qed.

Lemma Adds_generateImage (imageConfig : ImageAIConfig) (prompt : string)
    (settings : ImageSettings) :
  Adds P (generateImage imageConfig prompt settings).
Proof.
  unfold generateImage.
  destruct (missing (imageApiKey imageConfig) && _); [apply Adds_throw | apply Adds_retryable].
Qed.

Lemma Adds_placement (analysisConfig : AnalysisAIConfig) (postContent postTitle : string) :
  Adds P (getContentWithImagePlaceholder analysisConfig postContent postTitle).
Proof.
  unfold getContentWithImagePlaceholder.
  destruct (_ <? 3)%nat; [apply Adds_ret|].
  apply Adds_tryCatch; [|intro e; apply Adds_ret].
  destruct (_ <? 2)%nat; [apply Adds_ret|].
  apply Adds_bind; [apply Adds_retryable|].
  intro responseText. destruct (nth_error _ _); apply Adds_ret.
Qed.

Hypothesis P_batch : forall batch, P (BatchStarted batch).
Hypothesis P_progress : forall a b, P (Progress a b).

Lemma Adds_reportProgress (onProgress : bool) (a b : nat) :
  Adds P (reportProgress (Env := Env) onProgress a b).
Proof.
  unfold reportProgress. destruct onProgress; [apply Adds_emit, P_progress | apply Adds_ret].
Qed.

Lemma Adds_batchLoop (posts : list WordPressPost) (analysisConfig : AnalysisAIConfig)
    (onProgress : bool) (fuel : nat) :
  forall i acc, Adds P (batchLoop fuel posts analysisConfig onProgress i acc).
Proof.
  induction fuel as [|fuel IH]; intros i acc; cbn [batchLoop];
    destruct (i <? List.length posts)%nat; try apply Adds_ret.
  apply Adds_bind.
  - apply Adds_tryCatch.
    + unfold processBatch.
      apply Adds_bind; [apply Adds_emit, P_batch | intros _].
      apply Adds_bind; [apply Adds_retryable | intro responseText].
      destruct (extractJson responseText); [|apply Adds_throw].
      destruct (parseBriefs _); [|apply Adds_throw].
      apply Adds_bind; [apply Adds_reportProgress | intros _; apply Adds_ret].
    + intro e. destruct (isSyntaxError e); apply Adds_throw.
  - intro acc'. apply Adds_bind; [|intros _; apply IH].
    destruct (_ <? _)%nat; [apply Adds_emit, P_delayed | apply Adds_ret].
Qed.

Lemma Adds_briefs (posts : list WordPressPost) (analysisConfig : AnalysisAIConfig)
    (onProgress : bool) :
  Adds P (generateImageBriefsAndAltsBatch posts analysisConfig onProgress).
Proof.
  unfold generateImageBriefsAndAltsBatch.
  apply Adds_bind; [apply Adds_reportProgress | intros _; apply Adds_batchLoop].
Qed.

Hypothesis P_remote : forall name, P (RemoteCall name).

Lemma Adds_remote {A} (name : string) (op : Remote Env A) : Adds P (remote name op).
Proof.
  unfold remote. apply Adds_bind; [apply Adds_emit, P_remote | intros _; apply Adds_perform].
Qed.

End Quiet.

Lemma updatesOf_app (a b : list Effect) : updatesOf (a ++ b) = updatesOf a ++ updatesOf b.
Proof.
  induction a as [|ev a IH]; [reflexivity|].
  destruct ev; cbn; rewrite ?IH; reflexivity.
Qed.

Lemma updatesOf_silent (added : list Effect) : Forall Silent added -> updatesOf added = [].
Proof.
  induction 1 as [|ev added Hev _ IH]; [reflexivity|].
  destruct ev; cbn; try exact IH. discriminate.
Qed.

Lemma published_updates (tr : list Effect) :
  published tr = map (fun up => (fst up, newStatus (snd up))) (updatesOf tr).
Proof.
  induction tr as [|ev tr IH]; [reflexivity|].
  destruct ev; cbn; rewrite ?IH; reflexivity.
Qed.

Lemma Interim_announces (postId : Z) (sts : list Status.t) (ups : list (Z * PostUpdate)) :
  Interim postId sts ups ->
  map (fun up => (fst up, newStatus (snd up))) ups = announces postId sts.
Proof.
  induction 1 as [|st up sts ups [message ->] _ IH]; [reflexivity|].
  cbn. unfold announces in IH. rewrite IH. reflexivity.
Qed.

Section Machine.

Context {Env : Type} {browser : Browser} {json : Json} {providers : Providers Env}
        {wp : WordPress Env}.
Variable postId : Z.
Variable Final : PostUpdate -> Prop.

Lemma Script_throw {A} (todo : list Status.t) (e : Thrown) :
  Script postId todo Final (throw (Env := Env) (A := A) e).
Proof.
  intro w. exists []. cbn. rewrite app_nil_r. split; [reflexivity|].
  exists 0. split; [lia | constructor].
Qed.

Lemma Script_quiet_bind {A B} (todo : list Status.t) (m : Async Env A)
    (k : A -> Async Env B) :
  Adds Silent m -> (forall a, Script postId todo Final (k a)) ->
  Script postId todo Final (bind m k).
Proof.
  intros Hm Hk w. unfold bind. destruct (Hm w) as [added [Heq Hall]].
  apply updatesOf_silent in Hall.
  destruct (m w) as [[a|e] w1]; cbn [snd] in Heq.
  - destruct (Hk a w1) as [added' [Heq' Hend]].
    exists (added ++ added'). rewrite Heq', Heq, app_assoc. split; [reflexivity|].
    rewrite updatesOf_app, Hall. exact Hend.
  - exists added. split; [exact Heq|]. cbn [fst]. exists 0. rewrite Hall.
    split; [lia | constructor].
Qed.

Lemma Script_step {A} (st : Status.t) (message : string) (todo : list Status.t)
    (rest : Async Env A) :
  Script postId todo Final rest ->
  Script postId (st :: todo) Final
    (bind (updatePostState postId (statusUpdate st message)) (fun _ => rest)).
Proof.
  intros Hrest w. unfold bind, updatePostState, emit.
  set (w1 := mkWorld (env w) (trace w ++ [PostUpdated postId (statusUpdate st message)])).
  destruct (Hrest w1) as [added [Heq Hend]].
  exists (PostUpdated postId (statusUpdate st message) :: added).
  fold w1. rewrite Heq. unfold w1 at 1. cbn [trace]. rewrite <- app_assoc.
  split; [reflexivity|].
  destruct (rest w1) as [[a|e] w2]; cbn [fst] in *.
  - destruct Hend as [front [u [Hups [Hfront [Hu HF]]]]].
    exists ((postId, statusUpdate st message) :: front), u.
    cbn [updatesOf]. rewrite Hups. repeat split; try assumption.
    constructor; [exists message; reflexivity | exact Hfront].
  - destruct Hend as [j [Hj Hups]]. exists (S j). split; [cbn; lia|].
    cbn [updatesOf firstn]. constructor; [exists message; reflexivity | exact Hups].
Qed.

Lemma Script_final (u : PostUpdate) :
  newStatus u = Some Status.success -> Final u ->
  Script postId [] Final (updatePostState (Env := Env) postId u).
Proof.
  intros Hu HF w. exists [PostUpdated postId u]. cbn. split; [reflexivity|].
  exists [], u. repeat split; try assumption. constructor.
Qed.

End Machine.

Section Jobs.

Context {Env : Type} {browser : Browser} {json : Json} {providers : Providers Env}
        {wp : WordPress Env}.

Ltac quiet :=
  first [ apply Adds_briefs | apply Adds_generateImage | apply Adds_placement
        | apply Adds_remote | apply Adds_perform ];
  intros; reflexivity.

Ltac finish := apply Script_final; [reflexivity | cbn; congruence].

(** The [try] block of [processJob]: it throws at once when a check
    fails, and otherwise publishes the first step and goes on with the
    other steps. *)
Lemma runJob_cases (config : Configuration) (current : list WordPressPost) (job : Job) :
  match refusal current job with
  | Some message => runJob config current job = throw (Error message)
  | None =>
      exists (message : string) (rest : Async Env unit),
        runJob config current job
        = bind (updatePostState (id (post job))
                  (statusUpdate (hd Status.idle (steps (action job))) message))
               (fun _ => rest)
        /\ Script (id (post job)) (tl (steps (action job))) (records (action job)) rest
  end.
Proof.
  unfold runJob, refusal.
  destruct (find _ current) as [currentPost|]; [|reflexivity].
  destruct (action job); cbn [steps hd tl].
  - eexists _, _. split; [reflexivity|].
    apply Script_quiet_bind; [quiet|]. intros [|briefData rest];
      [apply Script_throw|].
    apply Script_step. apply Script_quiet_bind; [quiet|]. intro imageDataUrl.
    apply Script_step. apply Script_quiet_bind; [quiet|]. intro uploadedImage.
    finish.
  - destruct (payload job) as [pl|]; [|reflexivity].
    destruct (truthy (imageUrl pl)); [|reflexivity].
    eexists _, _. split; [reflexivity|].
    apply Script_quiet_bind; [quiet|]. intro contentWithPlaceholder.
    apply Script_step. apply Script_quiet_bind; [quiet|]. intros _.
    finish.
  - destruct (payload job) as [pl|]; [|reflexivity].
    destruct (prebuiltContent pl) as [prebuilt|]; [|reflexivity].
    destruct (truthy prebuilt); [|reflexivity].
    eexists _, _. split; [reflexivity|].
    apply Script_quiet_bind; [quiet|]. intros _.
    finish.
  - destruct (generatedImage currentPost) as [generated|]; [|reflexivity].
    destruct (mediaId generated =? 0)%Z; [reflexivity|]. cbn [negb].
    eexists _, _. split; [reflexivity|].
    apply Script_quiet_bind; [quiet|]. intros _.
    finish.
  - destruct (payload job) as [pl|]; [|reflexivity].
    destruct (imageDataUrl pl) as [dataUrl|]; [|reflexivity].
    destruct (truthy dataUrl && truthy (payloadAltText pl)); [|reflexivity].
    eexists _, _. split; [reflexivity|].
    apply Script_quiet_bind; [quiet|]. intro now.
    apply Script_quiet_bind; [quiet|]. intro uploadedImage.
    apply Script_step. apply Script_quiet_bind; [quiet|]. intro contentWithPlaceholder.
    apply Script_step. apply Script_quiet_bind; [quiet|]. intros _.
    finish.
Qed.

Lemma steps_hd_tl (a : JobAction) : steps a = hd Status.idle (steps a) :: tl (steps a).
Proof. destruct a; reflexivity. Qed.

(** The [try] block of [processJob] follows the steps of its action. *)
Lemma runJob_script (config : Configuration) (current : list WordPressPost) (job : Job) :
  Script (id (post job)) (steps (action job)) (records (action job))
    (runJob config current job).
Proof.
  pose proof (runJob_cases config current job) as H.
  destruct (refusal current job) as [message|].
  - rewrite H. apply Script_throw.
  - destruct H as [message [rest [-> Hrest]]].
    rewrite (steps_hd_tl (action job)) at 1. apply Script_step. exact Hrest.
Qed.

(** A job that fails a check: one update to error, and nothing else. *)
Lemma processJob_refused (config : Configuration) (current : list WordPressPost) (job : Job)
    (message : string) (w : World Env) :
  refusal current job = Some message ->
  processJob config current job w
  = (Returned tt,
     mkWorld (env w)
       (trace w ++ [PostUpdated (id (post job)) (statusUpdate Status.error message)])).
Proof.
  intro Href. pose proof (runJob_cases config current job) as H. rewrite Href in H.
  unfold processJob. rewrite H. reflexivity.
Qed.

(** A job that passes the checks publishes its first step first. *)
Lemma processJob_accepted (config : Configuration) (current : list WordPressPost) (job : Job)
    (w : World Env) :
  refusal current job = None ->
  exists (message : string) (rest : list Effect),
    trace (snd (processJob config current job w))
    = trace w ++ PostUpdated (id (post job))
                   (statusUpdate (hd Status.idle (steps (action job))) message) :: rest.
Proof.
  intro Href. pose proof (runJob_cases config current job) as H. rewrite Href in H.
  destruct H as [message [rest [Hrun Hrest]]].
  unfold processJob, tryCatch. rewrite Hrun. unfold bind, updatePostState at 1, emit.
  set (w1 := mkWorld _ _).
  destruct (Hrest w1) as [added [Heq _]].
  destruct (rest w1) as [[[]|e] w2]; cbn [snd] in *.
  - exists message, added. rewrite Heq. unfold w1. cbn [trace].
    rewrite <- app_assoc. reflexivity.
  - exists message,
      (added ++ [PostUpdated (id (post job)) (statusUpdate Status.error (failureMessage e))]).
    unfold updatePostState, emit. cbn [snd trace]. rewrite Heq. unfold w1. cbn [trace].
    rewrite <- !app_assoc. reflexivity.
Qed.

(** [processJob] as a whole: it returns, and its updates are a prefix of
    the steps followed by one terminal update. *)
Lemma processJob_script (config : Configuration) (current : list WordPressPost) (job : Job)
    (w : World Env) :
  exists (w' : World Env) (added : list Effect) (front : list (Z * PostUpdate))
         (u : PostUpdate) (j : nat),
    processJob config current job w = (Returned tt, w')
    /\ trace w' = trace w ++ added
    /\ updatesOf added = front ++ [(id (post job), u)]
    /\ j <= List.length (steps (action job))
    /\ Interim (id (post job)) (firstn j (steps (action job))) front
    /\ ((j = List.length (steps (action job))
         /\ newStatus u = Some Status.success /\ records (action job) u)
        \/ exists message, u = statusUpdate Status.error message).
Proof.
  unfold processJob, tryCatch.
  destruct (runJob_script config current job w) as [added [Heq Hend]].
  destruct (runJob config current job w) as [[[]|e] w1]; cbn [fst snd] in Heq, Hend.
  - destruct Hend as [front [u [Hups [Hfront [Hu HF]]]]].
    exists w1, added, front, u, (List.length (steps (action job))).
    rewrite firstn_all. repeat split; try assumption; [lia|]. left. repeat split; assumption.
  - destruct Hend as [j [Hj Hups]].
    exists (mkWorld (env w1)
              (trace w1 ++ [PostUpdated (id (post job))
                              (statusUpdate Status.error (failureMessage e))])),
           (added ++ [PostUpdated (id (post job))
                        (statusUpdate Status.error (failureMessage e))]),
           (updatesOf added), (statusUpdate Status.error (failureMessage e)), j.
    repeat split; try assumption.
    + cbn [trace]. rewrite Heq, app_assoc. reflexivity.
    + rewrite updatesOf_app. reflexivity.
    + right. exists (failureMessage e). reflexivity.
Qed.

End Jobs.

(** X5: [processJob] never rejects, and the statuses it publishes follow
    the step list of the action of the job, for the post of the job alone:
    either all the steps in order and then success, or the first j steps
    (j may be 0) and then error; nothing is published after the terminal
    status. *)
Theorem job_statuses_follow_the_steps_of_the_action :
  forall (Env : Type) (browser : Browser) (json : Json) (providers : Providers Env)
         (wp : WordPress Env) (config : Configuration) (current : list WordPressPost)
         (job : Job) (w : World Env),
  exists (w' : World Env) (added : list Effect),
    processJob config current job w = (Returned tt, w')
    /\ trace w' = trace w ++ added
    /\ (published added
        = announces (id (post job)) (steps (action job) ++ [Status.success])
        \/ exists j, j <= List.length (steps (action job))
                     /\ published added
                        = announces (id (post job))
                            (firstn j (steps (action job)) ++ [Status.error])).
Proof.
  intros Env browser json providers wp config current job w.
  destruct (processJob_script config current job w)
    as [w' [added [front [u [j [Hrun [Heq [Hups [Hj [Hfront Hlast]]]]]]]]]].
  exists w', added. split; [exact Hrun|]. split; [exact Heq|].
  rewrite published_updates, Hups, map_app, (Interim_announces _ _ _ Hfront).
  unfold announces. cbn [map fst snd].
  destruct Hlast as [[-> [Hu _]] | [message ->]].
  - left. rewrite firstn_all, Hu, map_app. reflexivity.
  - right. exists j. split; [exact Hj|]. rewrite map_app. reflexivity.
Qed.

(** X6: every check of [processJob] comes before any outside call and
    before any status update.  A job that fails one (post not in the
    current posts; insert without image URL; insert_at without content;
    set_featured without the media id of a generated image; upload_insert
    without image data or alternative text) leaves the outside world as
    it is and publishes one update, to error with the message of the
    check; any other job publishes the first step of its action first. *)
Theorem checks_come_before_any_outside_call :
  forall (Env : Type) (browser : Browser) (json : Json) (providers : Providers Env)
         (wp : WordPress Env) (config : Configuration) (current : list WordPressPost)
         (job : Job) (w : World Env),
  match refusal current job with
  | Some message =>
      processJob config current job w
      = (Returned tt,
         mkWorld (env w)
           (trace w ++ [PostUpdated (id (post job)) (statusUpdate Status.error message)]))
  | None =>
      exists (message : string) (rest : list Effect),
        trace (snd (processJob config current job w))
        = trace w ++ PostUpdated (id (post job))
                       (statusUpdate (hd Status.idle (steps (action job))) message) :: rest
  end.
Proof.
  intros Env browser json providers wp config current job w.
  destruct (refusal current job) as [message|] eqn:Href.
  - apply processJob_refused. exact Href.
  - apply processJob_accepted. exact Href.
Qed.

(** ** The posts after a job *)

Lemma postsAfter_revised (tr : list Effect) (posts : list WordPressPost) :
  postsAfter tr posts = map (revised (updatesOf tr)) posts.
Proof.
  unfold postsAfter. revert posts.
  induction tr as [|ev tr IH]; intro posts.
  - cbn. rewrite map_id. reflexivity.
  - cbn [fold_left]. rewrite IH. destruct ev; cbn [updatesOf]; try reflexivity.
    unfold applyUpdate. rewrite map_map. reflexivity.
Qed.

Lemma revise_id (up : Z * PostUpdate) (p : WordPressPost) : id (revise up p) = id p.
Proof. unfold revise. destruct (id p =? fst up)%Z; reflexivity. Qed.

Lemma revised_id (ups : list (Z * PostUpdate)) (p : WordPressPost) :
  id (revised ups p) = id p.
Proof.
  unfold revised. revert p. induction ups as [|up ups IH]; intro p; [reflexivity|].
  cbn [fold_left]. rewrite IH. apply revise_id.
Qed.

Lemma revised_app (a b : list (Z * PostUpdate)) (p : WordPressPost) :
  revised (a ++ b) p = revised b (revised a p).
Proof. unfold revised. apply fold_left_app. Qed.

Lemma revised_other (postId : Z) (ups : list (Z * PostUpdate)) (p : WordPressPost) :
  Forall (fun up => fst up = postId) ups -> id p <> postId -> revised ups p = p.
Proof.
  unfold revised. intros Hall Hne. revert p Hne.
  induction Hall as [|up ups Hup _ IH]; intros p Hne; [reflexivity|].
  cbn [fold_left]. unfold revise at 2. rewrite Hup.
  destruct (Z.eqb_spec (id p) postId) as [Heq|_]; [contradiction|]. apply IH. exact Hne.
Qed.

Lemma Interim_ids (postId : Z) (sts : list Status.t) (ups : list (Z * PostUpdate)) :
  Interim postId sts ups -> Forall (fun up => fst up = postId) ups.
Proof.
  induction 1 as [|st up sts ups [message ->] _ IH]; constructor; [reflexivity | exact IH].
Qed.

(** The interim updates set the status and its message, and nothing else. *)
Lemma Interim_keeps (postId : Z) (sts : list Status.t) (ups : list (Z * PostUpdate))
    (p : WordPressPost) :
  Interim postId sts ups ->
  generatedImage (revised ups p) = generatedImage p
  /\ featured_media (revised ups p) = featured_media p
  /\ imageCount (revised ups p) = imageCount p
  /\ content (revised ups p) = content p.
Proof.
  unfold revised. intro H. revert p.
  induction H as [|st up sts ups [message ->] _ IH]; intro p; [repeat split|].
  cbn [fold_left]. destruct (IH (revise (postId, statusUpdate st message) p))
    as [H1 [H2 [H3 H4]]].
  rewrite H1, H2, H3, H4. unfold revise. cbn [fst snd].
  destruct (id p =? postId)%Z; repeat split.
Qed.

Lemma Forall2_map_right {A B} (R : A -> B -> Prop) (f : A -> B) (l : list A) :
  (forall a, R a (f a)) -> Forall2 R l (map f l).
Proof. intro H. induction l as [|a l IH]; constructor; [apply H | exact IH]. Qed.

(** X7: a job changes no post but its own, and leaves its post settled:
    whatever the providers and the content platform do, when the promise
    of [processJob] is fulfilled every post with another id is as it was,
    and the posts with the id of the job have status success or error,
    so that their card shows no spinner. *)
Theorem a_job_changes_its_post_alone_and_leaves_it_settled :
  forall (Env : Type) (browser : Browser) (json : Json) (providers : Providers Env)
         (wp : WordPress Env) (config : Configuration) (current : list WordPressPost)
         (job : Job) (w : World Env) (posts : list WordPressPost),
  exists (w' : World Env) (added : list Effect),
    processJob config current job w = (Returned tt, w')
    /\ trace w' = trace w ++ added
    /\ Forall2
         (fun p q =>
            id q = id p
            /\ (id p <> id (post job) -> q = p)
            /\ (id p = id (post job) ->
                (status q = Some Status.success \/ status q = Some Status.error)
                /\ PostCard.getStatusIndicator q = false))
         posts (postsAfter added posts).
Proof.
  intros Env browser json providers wp config current job w posts.
  destruct (processJob_script config current job w)
    as [w' [added [front [u [j [Hrun [Heq [Hups [Hj [Hfront Hlast]]]]]]]]]].
  exists w', added. split; [exact Hrun|]. split; [exact Heq|].
  rewrite postsAfter_revised, Hups. apply Forall2_map_right. intro p.
  split; [apply revised_id|]. split.
  - intro Hne. apply (revised_other (id (post job))); [|exact Hne].
    apply Forall_app. split; [exact (Interim_ids _ _ _ Hfront)|].
    constructor; [reflexivity | constructor].
  - intro Hid. rewrite revised_app. cbn [revised fold_left]. unfold revise. cbn [fst snd].
    rewrite revised_id, Hid, Z.eqb_refl.
    assert (Hst : status (merge (revised front p) u) = Some Status.success
                  \/ status (merge (revised front p) u) = Some Status.error).
    { destruct Hlast as [[_ [Hu _]] | [message ->]]; cbn [merge status].
      - left. rewrite Hu. reflexivity.
      - right. reflexivity. }
    split; [exact Hst|]. unfold PostCard.getStatusIndicator.
    destruct Hst as [-> | ->]; reflexivity.
Qed.

(** X8: the list of posts without image ([missingImagePosts], what
    generate-for-all-missing works on) after a job that generates or
    uploads an image: a post of the job is still in the list only if the
    job has failed. *)
Theorem a_post_stays_missing_only_if_its_job_failed :
  forall (Env : Type) (browser : Browser) (json : Json) (providers : Providers Env)
         (wp : WordPress Env) (config : Configuration) (current : list WordPressPost)
         (job : Job) (w : World Env) (posts : list WordPressPost),
  action job = generate \/ action job = upload_insert ->
  exists (w' : World Env) (added : list Effect),
    processJob config current job w = (Returned tt, w')
    /\ trace w' = trace w ++ added
    /\ forall q, In q (Handlers.missingImagePosts (postsAfter added posts)) ->
                 id q = id (post job) -> status q = Some Status.error.
Proof.
  intros Env browser json providers wp config current job w posts Haction.
  destruct (processJob_script config current job w)
    as [w' [added [front [u [j [Hrun [Heq [Hups [Hj [Hfront Hlast]]]]]]]]]].
  exists w', added. split; [exact Hrun|]. split; [exact Heq|].
  intros q Hq Hid. unfold Handlers.missingImagePosts in Hq.
  apply filter_In in Hq. destruct Hq as [Hin Hmissing].
  rewrite postsAfter_revised, Hups in Hin. apply in_map_iff in Hin.
  destruct Hin as [p [Hq Hp]]. subst q. rewrite revised_id in Hid.
  rewrite revised_app in *. cbn [revised fold_left] in *. unfold revise in *.
  cbn [fst snd] in *. fold (revised front p) in *.
  rewrite revised_id, Hid, Z.eqb_refl in *.
  destruct Hlast as [[_ [_ Hrec]] | [message ->]]; [|reflexivity].
  exfalso. cbn [merge generatedImage] in Hmissing.
  assert (Hsome : newGeneratedImage u <> None)
    by (destruct Haction as [Ha | Ha]; rewrite Ha in Hrec; exact Hrec).
  destruct (newGeneratedImage u); [discriminate | contradiction].
Qed.

Lemma a_post_stays_missing_only_if_its_job_failed_witness :
  let job := {| post := Samples.samplePost 1; action := generate; payload := None |} in
  (action job = generate \/ action job = upload_insert)
  /\ exists (w' : World nat) (added : list Effect),
       processJob (browser := SmallBrowser.browser) (json := Samples.emptyJson)
         (providers := Samples.promptCounter) (wp := Samples.acceptingPlatform)
         Samples.sampleConfiguration [Samples.samplePost 1] job (mkWorld 0 [])
       = (Returned tt, w')
       /\ trace w' = trace (mkWorld 0 []) ++ added
       /\ forall q, In q (Handlers.missingImagePosts
                            (postsAfter added [Samples.samplePost 1])) ->
                    id q = id (post job) -> status q = Some Status.error.
Proof.
  split; [left; reflexivity|].
  apply (a_post_stays_missing_only_if_its_job_failed nat SmallBrowser.browser
           Samples.emptyJson Samples.promptCounter Samples.acceptingPlatform
           Samples.sampleConfiguration [Samples.samplePost 1]
           {| post := Samples.samplePost 1; action := generate; payload := None |}
           (mkWorld 0 []) [Samples.samplePost 1]).
  left. reflexivity.
Defined.

End ProcessorFacts.

(* ================================================================== *)
(** * The handlers and the job processor together *)
(* ================================================================== *)

Module HandlerFacts.
Import AiService ResultsStep PostCard UploadImageModal Handlers ProcessorReadings.
Import ProcessorFacts.

Lemma find_present (postId : Z) (current : list WordPressPost) :
  (exists p, In p current /\ id p = postId) ->
  exists c, find (fun p => (id p =? postId)%Z) current = Some c.
Proof.
  intros [p [Hin Hid]].
  destruct (find (fun p => (id p =? postId)%Z) current) as [c|] eqn:Hfind;
    [exists c; reflexivity|].
  exfalso. apply (find_none _ _ Hfind) in Hin. rewrite Hid, Z.eqb_refl in Hin.
  discriminate.
Qed.

Section Together.

Context {Env : Type} {browser : Browser} {json : Json} {providers : Providers Env}
        {wp : WordPress Env}.
Variable config : Configuration.
Variable current : list WordPressPost.

(** X9: [handleBulkInsertExisting] hands the processor only jobs that pass
    its image check: each job is an insert job for one of the selected
    posts, and when its post is among the current posts [processJob]
    starts the placement analysis instead of failing with
    No image URL for insertion. *)
Theorem bulk_insert_jobs_pass_the_image_check :
  forall (postsToProcess : list WordPressPost) (job : Job) (w : World Env),
  In job (bulkInsertJobs postsToProcess) ->
  (exists p, In p current /\ id p = id (post job)) ->
  In (post job) postsToProcess
  /\ action job = insert
  /\ exists (message : string) (rest : list Effect),
       trace (snd (processJob config current job w))
       = trace w ++ PostUpdated (id (post job))
                      (statusUpdate Status.analyzing_placement message) :: rest.
Proof.
  intros postsToProcess job w Hjob Hcur. unfold bulkInsertJobs in Hjob.
  apply in_map_iff in Hjob. destruct Hjob as [p [<- Hp]].
  apply filter_In in Hp. destruct Hp as [Hin Hurl].
  split; [exact Hin|]. split; [reflexivity|].
  set (job := {| post := p; action := insert; payload := _ |}) in *.
  assert (Href : refusal current job = None).
  { unfold refusal. destruct (find_present _ _ Hcur) as [c ->].
    unfold job. cbn [post action payload imageUrl].
    unfold present in Hurl. destruct (existingImageUrl p) as [existing|]; [|discriminate].
    cbn [orElse]. rewrite Hurl. reflexivity. }
  exact (processJob_accepted config current job w Href).
Qed.

(** X10: the Insert button of a card, [handleInsert] and the automatic
    insertion.  When the button is enabled [handleInsert] opens the
    dialog (it never alerts), and the generated image is preferred to the
    existing one even when its URL is empty: the job of the automatic
    insertion passes the image check of [processJob] exactly when the
    post has no generated image or the URL of the generated image is not
    empty, and is failed with No image URL for insertion otherwise. *)
Theorem enabled_insert_button_and_the_image_check :
  forall (post : WordPressPost) (w : World Env),
  canInsert post = true ->
  (exists p, In p current /\ id p = id post) ->
  exists d : InsertModalData,
    handleInsert post = Some d
    /\ modalPost d = post
    /\ if match generatedImage post with
          | Some generated => truthy (imageUrlOf generated)
          | None => true
          end
       then exists (message : string) (rest : list Effect),
              trace (snd (processJob config current (autoInsertJob d) w))
              = trace w ++ PostUpdated (id post)
                             (statusUpdate Status.analyzing_placement message) :: rest
       else processJob config current (autoInsertJob d) w
            = (Returned tt,
               mkWorld (env w)
                 (trace w ++ [PostUpdated (id post)
                                (statusUpdate Status.error "No image URL for insertion.")])).
Proof.
  intros post w Hcan Hcur. unfold canInsert in Hcan. unfold handleInsert.
  destruct (find_present _ _ Hcur) as [c Hfind].
  destruct (generatedImage post) as [generated|].
  - set (d := {| modalPost := post; modalImageUrl := imageUrlOf generated;
                 modalAltText := alt generated |}).
    exists d. split; [reflexivity|]. split; [reflexivity|].
    destruct (truthy (imageUrlOf generated)) eqn:Hurl.
    + assert (Href : refusal current (autoInsertJob d) = None).
      { unfold refusal, autoInsertJob, d.
        cbn [ResultsStep.post action payload imageUrl modalPost modalImageUrl].
        rewrite Hfind, Hurl. reflexivity. }
      exact (processJob_accepted config current (autoInsertJob d) w Href).
    + assert (Href : refusal current (autoInsertJob d) = Some "No image URL for insertion.").
      { unfold refusal, autoInsertJob, d.
        cbn [ResultsStep.post action payload imageUrl modalPost modalImageUrl].
        rewrite Hfind, Hurl. reflexivity. }
      exact (processJob_refused config current (autoInsertJob d) _ w Href).
  - cbn [orb] in Hcan. unfold present in Hcan.
    destruct (existingImageUrl post) as [existing|]; [|discriminate].
    rewrite Hcan.
    set (d := {| modalPost := post; modalImageUrl := existing;
                 modalAltText := orElse (existingImageAltText post) EmptyString |}).
    exists d. split; [reflexivity|]. split; [reflexivity|].
    assert (Href : refusal current (autoInsertJob d) = None).
    { unfold refusal, autoInsertJob, d.
      cbn [ResultsStep.post action payload imageUrl modalPost modalImageUrl].
      rewrite Hfind, Hcan. reflexivity. }
    exact (processJob_accepted config current (autoInsertJob d) w Href).
Qed.

(** X11: the Set-featured button of a card agrees with the check of the
    processor when the card shows the current state of the post: the job
    of [handleSetFeatured] starts setting the featured image when the
    button is enabled, and would be failed with No generated image to set
    as featured when it is disabled. *)
Theorem set_featured_button_agrees_with_the_processor :
  forall (post : WordPressPost) (w : World Env),
  find (fun p => (id p =? id post)%Z) current = Some post ->
  if canSetFeatured post
  then exists (message : string) (rest : list Effect),
         trace (snd (processJob config current (setFeaturedJob post) w))
         = trace w ++ PostUpdated (id post)
                        (statusUpdate Status.setting_featured message) :: rest
  else processJob config current (setFeaturedJob post) w
       = (Returned tt,
          mkWorld (env w)
            (trace w ++ [PostUpdated (id post)
                           (statusUpdate Status.error
                              "No generated image to set as featured.")])).
Proof.
  intros post w Hfind. unfold canSetFeatured.
  assert (Href : refusal current (setFeaturedJob post)
                 = match generatedImage post with
                   | Some generated =>
                       if (mediaId generated =? 0)%Z
                       then Some "No generated image to set as featured."
                       else None
                   | None => Some "No generated image to set as featured."
                   end).
  { unfold refusal, setFeaturedJob. cbn [ResultsStep.post action]. rewrite Hfind. reflexivity. }
  destruct (generatedImage post) as [generated|].
  - destruct (mediaId generated =? 0)%Z; cbn [negb].
    + exact (processJob_refused config current (setFeaturedJob post) _ w Href).
    + exact (processJob_accepted config current (setFeaturedJob post) w Href).
  - exact (processJob_refused config current (setFeaturedJob post) _ w Href).
Qed.

(** X12: what the upload dialog submits passes the check of the
    processor: when [handleUpload] calls [onUpload] the alternative text
    is the trimmed input, and the upload_insert job [handleUploadImage]
    builds from it starts uploading instead of failing with Image data
    and alt text required. *)
Theorem submitted_uploads_pass_the_check :
  forall (post : WordPressPost) (preview : option string) (altText dataUrl submitted : string)
         (w : World Env),
  handleUpload preview altText = Some (dataUrl, submitted) ->
  (exists p, In p current /\ id p = id post) ->
  preview = Some dataUrl
  /\ submitted = trim altText
  /\ exists (message : string) (rest : list Effect),
       trace (snd (processJob config current (uploadJob post dataUrl submitted) w))
       = trace w ++ PostUpdated (id post) (statusUpdate Status.uploading message) :: rest.
Proof.
  intros post preview altText dataUrl submitted w Hup Hcur. unfold handleUpload in Hup.
  destruct preview as [picked|]; [|discriminate].
  destruct (truthy picked) eqn:Hpicked; [|discriminate].
  destruct (truthy (trim altText)) eqn:Halt; [|discriminate].
  cbn in Hup. injection Hup as <- <-.
  split; [reflexivity|]. split; [reflexivity|].
  assert (Href : refusal current (uploadJob post picked (trim altText)) = None).
  { unfold refusal, uploadJob. cbn [ResultsStep.post action payload imageDataUrl payloadAltText].
    destruct (find_present _ _ Hcur) as [c ->]. rewrite Hpicked, Halt. reflexivity. }
  exact (processJob_accepted config current (uploadJob post picked (trim altText)) w Href).
Qed.

End Together.

Lemma bulk_insert_jobs_pass_the_image_check_witness :
  let job := {| post := MoreSamples.illustrated 1; action := insert;
                payload := Some {| imageUrl := "https://example.org/old.png";
                                   payloadAltText := "An old picture";
                                   imageDataUrl := None; prebuiltContent := None |} |} in
  In (post job) [Samples.samplePost 0; MoreSamples.illustrated 1]
  /\ action job = insert
  /\ exists (message : string) (rest : list Effect),
       trace (snd (processJob (browser := SmallBrowser.browser) (json := Samples.emptyJson)
                     (providers := Samples.promptCounter) (wp := Samples.acceptingPlatform)
                     Samples.sampleConfiguration [MoreSamples.illustrated 1] job
                     (mkWorld 0 [])))
       = trace (mkWorld 0 []) ++ PostUpdated (id (post job))
                      (statusUpdate Status.analyzing_placement message) :: rest.
Proof.
  apply (bulk_insert_jobs_pass_the_image_check (browser := SmallBrowser.browser)
           (json := Samples.emptyJson) (providers := Samples.promptCounter)
           (wp := Samples.acceptingPlatform) Samples.sampleConfiguration
           [MoreSamples.illustrated 1] [Samples.samplePost 0; MoreSamples.illustrated 1]).
  - left. reflexivity.
  - exists (MoreSamples.illustrated 1). split; [left; reflexivity | reflexivity].
Defined.

Lemma enabled_insert_button_and_the_image_check_witness :
  exists d : InsertModalData,
    handleInsert (MoreSamples.withGenerated 1) = Some d
    /\ modalPost d = MoreSamples.withGenerated 1
    /\ exists (message : string) (rest : list Effect),
         trace (snd (processJob (browser := SmallBrowser.browser) (json := Samples.emptyJson)
                       (providers := Samples.promptCounter)
                       (wp := Samples.acceptingPlatform)
                       Samples.sampleConfiguration [MoreSamples.withGenerated 1]
                       (autoInsertJob d) (mkWorld 0 [])))
         = trace (mkWorld 0 []) ++ PostUpdated 1%Z
                        (statusUpdate Status.analyzing_placement message) :: rest.
Proof.
  apply (enabled_insert_button_and_the_image_check (browser := SmallBrowser.browser)
           (json := Samples.emptyJson) (providers := Samples.promptCounter)
           (wp := Samples.acceptingPlatform) Samples.sampleConfiguration
           [MoreSamples.withGenerated 1] (MoreSamples.withGenerated 1) (mkWorld 0 [])).
  - reflexivity.
  - exists (MoreSamples.withGenerated 1). split; [left; reflexivity | reflexivity].
Defined.

Lemma set_featured_button_agrees_with_the_processor_witness :
  exists (message : string) (rest : list Effect),
    trace (snd (processJob (browser := SmallBrowser.browser) (json := Samples.emptyJson)
                  (providers := Samples.promptCounter) (wp := Samples.acceptingPlatform)
                  Samples.sampleConfiguration [MoreSamples.withGenerated 1]
                  (setFeaturedJob (MoreSamples.withGenerated 1)) (mkWorld 0 [])))
    = trace (mkWorld 0 []) ++ PostUpdated 1%Z
                   (statusUpdate Status.setting_featured message) :: rest.
Proof.
  apply (set_featured_button_agrees_with_the_processor (browser := SmallBrowser.browser)
           (json := Samples.emptyJson) (providers := Samples.promptCounter)
           (wp := Samples.acceptingPlatform) Samples.sampleConfiguration
           [MoreSamples.withGenerated 1] (MoreSamples.withGenerated 1) (mkWorld 0 [])).
  reflexivity.
Defined.

Lemma submitted_uploads_pass_the_check_witness :
  Some "data:image/png;base64,AAAA" = Some "data:image/png;base64,AAAA"
  /\ "A caption" = trim " A caption "
  /\ exists (message : string) (rest : list Effect),
       trace (snd (processJob (browser := SmallBrowser.browser) (json := Samples.emptyJson)
                     (providers := Samples.promptCounter) (wp := Samples.acceptingPlatform)
                     Samples.sampleConfiguration [Samples.samplePost 1]
                     (uploadJob (Samples.samplePost 1) "data:image/png;base64,AAAA"
                        "A caption")
                     (mkWorld 0 [])))
       = trace (mkWorld 0 []) ++ PostUpdated 1%Z
                      (statusUpdate Status.uploading message) :: rest.
Proof.
  apply (submitted_uploads_pass_the_check (browser := SmallBrowser.browser)
           (json := Samples.emptyJson) (providers := Samples.promptCounter)
           (wp := Samples.acceptingPlatform) Samples.sampleConfiguration
           [Samples.samplePost 1] (Samples.samplePost 1)
           (Some "data:image/png;base64,AAAA") " A caption "
           "data:image/png;base64,AAAA" "A caption" (mkWorld 0 [])).
  - reflexivity.
  - exists (Samples.samplePost 1). split; [left; reflexivity | reflexivity].
Defined.

End HandlerFacts.

(* ================================================================== *)
(** * Properties of the provider layer *)
(* ================================================================== *)

Module ClientFacts.
Import JsText AiService AiClient ClientReadings ResultsStep ProcessorReadings.

Lemma statuses_checked (prefix : string) :
  forallb (statusSigns prefix) (seq 0 1000) = true ->
  forall status : Z, (0 <= status <= 999)%Z ->
  signs (prefix ++ decimalZ status)
  = [ (status =? 401)%Z; false; false; (status =? 404)%Z; (status =? 429)%Z; false; false ].
Proof.
  intros Hall status Hrange.
  assert (Hin : In (Z.to_nat status) (seq 0 1000)) by (apply in_seq; lia).
  pose proof (proj1 (forallb_forall _ _) Hall _ Hin) as H.
  unfold statusSigns in H. rewrite Z2Nat.id in H by lia.
  destruct (signs (prefix ++ decimalZ status))
    as [|s401 [|key [|auth [|s404 [|s429 [|exhausted [|timedOut [|extra more]]]]]]]];
    try discriminate.
  repeat (apply andb_prop in H; destruct H as [H ?]).
  repeat match goal with
         | E : Bool.eqb _ _ = true |- _ => apply Bool.eqb_prop in E
         | E : negb _ = true |- _ => apply negb_true_iff in E
         end.
  subst.
  replace (Z.to_nat status =? 401)%nat with (status =? 401)%Z
    by (destruct (Z.eqb_spec status 401), (Nat.eqb_spec (Z.to_nat status) 401); lia).
  replace (Z.to_nat status =? 404)%nat with (status =? 404)%Z
    by (destruct (Z.eqb_spec status 404), (Nat.eqb_spec (Z.to_nat status) 404); lia).
  replace (Z.to_nat status =? 429)%nat with (status =? 429)%Z
    by (destruct (Z.eqb_spec status 429), (Nat.eqb_spec (Z.to_nat status) 429); lia).
  reflexivity.
Qed.

Lemma request_statuses : forallb (statusSigns "API request failed with status ") (seq 0 1000) = true.
Proof. vm_compute. reflexivity. Qed.

Lemma test_statuses : forallb (statusSigns "API test failed with status ") (seq 0 1000) = true.
Proof. vm_compute. reflexivity. Qed.

Lemma signs_rate_limit (cls : ErrorClass) (message : string) (s401 key auth s404 : bool)
    (s429 exhausted timedOut : bool) :
  signs message = [s401; key; auth; s404; s429; exhausted; timedOut] ->
  isRateLimitError (ErrorObject cls message)
  = match cls with FetchError status => (status =? 429)%Z | _ => false end
    || s429 || exhausted.
Proof.
  unfold signs. intro H. injection H as _ _ _ _ H429 Hex _.
  unfold isRateLimitError. cbn [messageOrJson]. rewrite H429, Hex. reflexivity.
Qed.

Lemma getFriendlyAIError_signs (cls : ErrorClass) (message provider : string)
    (s401 key auth s404 s429 exhausted timedOut : bool) :
  signs message = [s401; key; auth; s404; s429; exhausted; timedOut] ->
  getFriendlyAIError (ErrorObject cls message) provider
  = (if s401 || key || auth
     then "Authentication failed for " ++ provider ++ ". Please check your API Key."
     else if s404
     then "Model not found for " ++ provider ++ ". Please check the model name."
     else if s429 || exhausted
     then "API rate limit exceeded for " ++ provider ++ ". Please wait and try again."
     else if timedOut
     then "The request to " ++ provider ++ " timed out. The service may be unavailable."
     else message)%string.
Proof.
  unfold signs. intro H. injection H as H401 Hkey Hauth H404 H429 Hex Hto.
  unfold getFriendlyAIError. rewrite H401, Hkey, Hauth, H404, H429, Hex, Hto. reflexivity.
Qed.

(** ** Cutting strings *)

Lemma length_app (a b : string) :
  String.length (a ++ b) = String.length a + String.length b.
Proof. induction a as [|c a IH]; cbn; [reflexivity | rewrite IH; reflexivity]. Qed.

Lemma substring_skip (a s : string) (n : nat) :
  String.substring (String.length a) n (a ++ s) = String.substring 0 n s.
Proof. induction a as [|c a IH]; cbn; [reflexivity | exact IH]. Qed.

Lemma substring_take (m b : string) : String.substring 0 (String.length m) (m ++ b) = m.
Proof. induction m as [|c m IH]; cbn; [destruct b; reflexivity | rewrite IH; reflexivity]. Qed.

Lemma substring_all (s : string) : String.substring 0 (String.length s) s = s.
Proof. induction s as [|c s IH]; cbn; [reflexivity | rewrite IH; reflexivity]. Qed.

Lemma prefix_unit (c d : ascii) (rest : string) :
  String.prefix (String c EmptyString) (String d rest) = Ascii.eqb c d.
Proof.
  cbn. destruct (ascii_dec c d) as [->|Hne].
  - rewrite Ascii.eqb_refl. destruct rest; reflexivity.
  - symmetry. apply Ascii.eqb_neq. exact Hne.
Qed.

Lemma lacks_app (c : ascii) (a b : string) : lacks c (a ++ b) = lacks c a && lacks c b.
Proof.
  induction a as [|d a IH]; cbn; [reflexivity|]. rewrite IH, andb_assoc. reflexivity.
Qed.

(** The first occurrence of a code unit is after the text that lacks it. *)
Lemma indexFrom_skip (c : ascii) (a b : string) (i : nat) :
  lacks c a = true ->
  indexFrom i (a ++ String c b) (String c EmptyString) = Z.of_nat (i + String.length a).
Proof.
  revert i. induction a as [|d a IH]; intros i Hlacks.
  - cbn [append indexFrom]. rewrite prefix_unit, Ascii.eqb_refl. cbn. f_equal. lia.
  - cbn [lacks] in Hlacks. apply andb_prop in Hlacks. destruct Hlacks as [Hd Ha].
    cbn [append indexFrom]. rewrite prefix_unit.
    apply negb_true_iff in Hd. rewrite Hd, (IH (S i) Ha). cbn [String.length]. f_equal. lia.
Qed.

Lemma indexOf_skip (c : ascii) (a b : string) :
  lacks c a = true ->
  indexOf (a ++ String c b) (String c EmptyString) = Z.of_nat (String.length a).
Proof. intro H. unfold indexOf. rewrite (indexFrom_skip c a b 0 H). reflexivity. Qed.

Lemma substring_middle (a m b : string) :
  JsText.substring (a ++ m ++ b) (Z.of_nat (String.length a))
    (Z.of_nat (String.length a + String.length m)) = m.
Proof.
  unfold JsText.substring. rewrite !length_app.
  replace (Z.to_nat (Z.min _ _)) with (String.length a) by lia.
  replace (Z.to_nat (_ - _)) with (String.length m) by lia.
  rewrite substring_skip. apply substring_take.
Qed.

Lemma substringFrom_tail (a b : string) :
  substringFrom (a ++ b) (Z.of_nat (String.length a)) = b.
Proof.
  unfold substringFrom, JsText.substring. rewrite !length_app.
  replace (Z.to_nat (Z.min _ _)) with (String.length a) by lia.
  replace (Z.to_nat (_ - _)) with (String.length b) by lia.
  rewrite substring_skip. apply substring_all.
Qed.

Lemma append_assoc (a b c : string) : ((a ++ b) ++ c = a ++ b ++ c)%string.
Proof. induction a as [|d a IH]; cbn; [reflexivity | rewrite IH; reflexivity]. Qed.

(** A data URL is cut back into the mime type and the data it was made of. *)
Lemma mimeTypeOf_dataUrl (mime payload : string) :
  lacks ";" mime = true ->
  mimeTypeOf ("data:" ++ mime ++ ";base64," ++ payload) = mime.
Proof.
  intro Hmime. unfold mimeTypeOf.
  assert (Hcolon : indexOf ("data:" ++ mime ++ ";base64," ++ payload) ":" = 4%Z)
    by (apply (indexOf_skip ":" "data" (mime ++ ";base64," ++ payload)); reflexivity).
  assert (Hsemi : indexOf ("data:" ++ mime ++ ";base64," ++ payload) ";"
                  = Z.of_nat (String.length ("data:" ++ mime))).
  { rewrite <- (append_assoc "data:" mime).
    apply (indexOf_skip ";" ("data:" ++ mime) ("base64," ++ payload)).
    rewrite lacks_app, Hmime. reflexivity. }
  rewrite Hcolon, Hsemi, length_app.
  exact (substring_middle "data:" mime (";base64," ++ payload)).
Qed.

Lemma dataOf_dataUrl (mime payload : string) :
  lacks "," mime = true ->
  dataOf ("data:" ++ mime ++ ";base64," ++ payload) = payload.
Proof.
  intro Hmime. unfold dataOf.
  assert (Hcomma : indexOf ("data:" ++ mime ++ ";base64," ++ payload) ","
                   = Z.of_nat (String.length ("data:" ++ mime ++ ";base64"))).
  { replace ("data:" ++ mime ++ ";base64," ++ payload)%string
      with (("data:" ++ mime ++ ";base64") ++ String "," payload)%string
      by (rewrite !append_assoc; reflexivity).
    apply indexOf_skip. rewrite !lacks_app, Hmime. reflexivity. }
  rewrite Hcomma.
  replace (Z.of_nat (String.length ("data:" ++ mime ++ ";base64")) + 1)%Z
    with (Z.of_nat (String.length ("data:" ++ mime ++ ";base64,")))
    by (rewrite !length_app; cbn [String.length]; lia).
  replace ("data:" ++ mime ++ ";base64," ++ payload)%string
    with (("data:" ++ mime ++ ";base64,") ++ payload)%string
    by (rewrite !append_assoc; reflexivity).
  apply substringFrom_tail.
Qed.

Section Network.

Context {Env : Type} {net : Network Env}.

(** A response that is not ok makes the chat call throw a fetch error
    with the status. *)
Lemma call_fails_with_status (apiUrl apiKey model prompt : string) (maxTokens timeout : option N)
    (e e1 e2 : Env) (response : Response) (errorBody : string) :
  fetch (chatRequest apiUrl apiKey model prompt maxTokens) e = (Returned response, e1) ->
  responseOk response = false ->
  responseText response e1 = (Returned errorBody, e2) ->
  callOpenAICompatibleAPI apiUrl apiKey model prompt maxTokens timeout e
  = (Threw (ErrorObject (FetchError (responseStatus response))
              ("API request failed with status " ++ decimalZ (responseStatus response))),
     e2).
Proof.
  intros Hfetch Hok Htext.
  unfold callOpenAICompatibleAPI, andThen, fetchWithTimeout. rewrite Hfetch, Hok.
  cbn [negb]. rewrite Htext. reflexivity.
Qed.

(** X13: among the HTTP failures of an OpenAI-compatible chat endpoint
    only status 429 is retried.  When the endpoint answers a request of
    [callOpenAICompatibleAPI] with a response that is not ok, the retrier
    waits [initialDelay] and goes on if the status is 429, and for every
    other status from 0 to 999 (500 and 503 among them) rethrows the
    fetch error at once, after one invocation and without a wait. *)
Theorem only_status_429_is_retried :
  forall (apiUrl apiKey model prompt : string) (maxTokens timeout : option N)
         (retries : nat) (initialDelay : Z) (w : World Env)
         (response : Response) (errorBody : string) (e1 e2 : Env),
  fetch (chatRequest apiUrl apiKey model prompt maxTokens) (env w) = (Returned response, e1) ->
  responseOk response = false ->
  (0 <= responseStatus response <= 999)%Z ->
  responseText response e1 = (Returned errorBody, e2) ->
  if (responseStatus response =? 429)%Z
  then exists rest : list Effect,
         trace (snd (retryableAIOperation
                       (callOpenAICompatibleAPI apiUrl apiKey model prompt maxTokens timeout)
                       (S retries) initialDelay w))
         = trace w ++ Invoked :: Delayed initialDelay :: rest
  else retryableAIOperation
         (callOpenAICompatibleAPI apiUrl apiKey model prompt maxTokens timeout)
         (S retries) initialDelay w
       = (Threw (ErrorObject (FetchError (responseStatus response))
                   ("API request failed with status "
                    ++ decimalZ (responseStatus response))),
          mkWorld e2 (trace w ++ [Invoked])).
Proof.
  intros apiUrl apiKey model prompt maxTokens timeout retries initialDelay w response
         errorBody e1 e2 Hfetch Hok Hrange Htext.
  unfold retryableAIOperation. rewrite RetryFacts.retryLoop_step.
  rewrite (call_fails_with_status _ _ _ _ _ _ _ _ _ _ _ Hfetch Hok Htext).
  rewrite (signs_rate_limit _ _ _ _ _ _ _ _ _
             (statuses_checked _ request_statuses _ Hrange)).
  rewrite !orb_false_r, orb_diag.
  destruct (responseStatus response =? 429)%Z; [|reflexivity].
  set (w1 := mkWorld e2 _).
  destruct (ProcessorFacts.Adds_retryLoop (fun _ => True) I (fun _ => I)
              (callOpenAICompatibleAPI apiUrl apiKey model prompt maxTokens timeout)
              (S retries) initialDelay retries 1
              (Some (ErrorObject (FetchError (responseStatus response))
                       ("API request failed with status "
                        ++ decimalZ (responseStatus response)))) w1)
    as [added [Heq _]].
  exists added. rewrite Heq. unfold w1. cbn [trace].
  rewrite Z.pow_0_r, Z.mul_1_r, <- app_assoc. reflexivity.
Qed.

(** ** A provider without its API key *)

Lemma generateJsonText_without_key (analysisConfig : AnalysisAIConfig) (prompt : string)
    (e : Env) :
  missing (analysisApiKey analysisConfig) = true ->
  AiClient.generateJsonText analysisConfig prompt e
  = (Threw (Error (keyMessage (analysisProvider analysisConfig))), e).
Proof.
  intro Hkey. unfold AiClient.generateJsonText, AiClient.generateText, getGeminiClient,
    andThen, raise.
  destruct (analysisProvider analysisConfig); cbn [keyMessage]; rewrite ?Hkey;
    try reflexivity.
  destruct (analysisApiKey analysisConfig); reflexivity.
Qed.

Lemma generateText_without_key (analysisConfig : AnalysisAIConfig) (prompt : string)
    (maxTokens timeout : option N) (e : Env) :
  missing (analysisApiKey analysisConfig) = true ->
  AiClient.generateText analysisConfig prompt maxTokens timeout e
  = (Threw (Error (keyMessage (analysisProvider analysisConfig))), e).
Proof.
  intro Hkey. unfold AiClient.generateText, getGeminiClient, andThen, raise.
  destruct (analysisProvider analysisConfig); cbn [keyMessage]; rewrite ?Hkey;
    try reflexivity.
  destruct (analysisApiKey analysisConfig); reflexivity.
Qed.

Lemma keyMessage_not_retried (provider : TextAIProvider) :
  isRateLimitError (Error (keyMessage provider)) = false.
Proof. destruct provider; vm_compute; reflexivity. Qed.

Context {browser : Browser} {json : Json} {wp : WordPress Env}.

Lemma retry_without_key (analysisConfig : AnalysisAIConfig) (prompt : string)
    (w : World Env) :
  missing (analysisApiKey analysisConfig) = true ->
  retryableAIOperation (AiService.generateJsonText analysisConfig prompt) 3 2000 w
  = (Threw (Error (keyMessage (analysisProvider analysisConfig))),
     mkWorld (env w) (trace w ++ [Invoked])).
Proof.
  intro Hkey. unfold retryableAIOperation. rewrite RetryFacts.retryLoop_step.
  change (AiService.generateJsonText analysisConfig prompt (env w))
    with (AiClient.generateJsonText analysisConfig prompt (env w)).
  rewrite (generateJsonText_without_key _ _ _ Hkey), keyMessage_not_retried. reflexivity.
Qed.

(** The first pass of the batch loop, for a provider without its key. *)
Lemma first_batch_without_key (p : WordPressPost) (rest : list WordPressPost)
    (analysisConfig : AnalysisAIConfig) (onProgress : bool) (w : World Env) :
  missing (analysisApiKey analysisConfig) = true ->
  batchLoop (List.length (p :: rest)) (p :: rest) analysisConfig onProgress 0 [] w
  = (Threw (Error (keyMessage (analysisProvider analysisConfig))),
     mkWorld (env w)
       (trace w ++ [BatchStarted (firstn BATCH_SIZE (p :: rest)); Invoked])).
Proof.
  intro Hkey. cbn [batchLoop List.length Nat.ltb Nat.leb].
  unfold bind at 1, tryCatch, processBatch. unfold bind at 1, emit at 1.
  unfold bind at 1. rewrite (retry_without_key _ _ _ Hkey).
  cbn [isSyntaxError Error]. unfold throw. cbn [env trace].
  rewrite <- app_assoc. reflexivity.
Qed.

(** X14: a text provider without its API key stops the briefs at the
    first batch, before any request: for any non-empty list of posts
    [generateImageBriefsAndAltsBatch] rejects with the key message of
    the provider after starting the first batch and invoking the
    operation once; nothing is sent, nothing is retried, no wait is
    made, and no progress beyond the initial report is made. *)
Theorem missing_key_aborts_the_first_batch :
  forall (posts : list WordPressPost) (analysisConfig : AnalysisAIConfig)
         (onProgress : bool) (w : World Env),
  posts <> [] ->
  missing (analysisApiKey analysisConfig) = true ->
  generateImageBriefsAndAltsBatch posts analysisConfig onProgress w
  = (Threw (Error (keyMessage (analysisProvider analysisConfig))),
     mkWorld (env w)
       (trace w
        ++ (if onProgress then [Progress 0 (List.length posts)] else [])
        ++ [BatchStarted (firstn BATCH_SIZE posts); Invoked])).
Proof.
  intros posts analysisConfig onProgress w Hposts Hkey.
  destruct posts as [|p rest]; [contradiction|].
  unfold generateImageBriefsAndAltsBatch, bind, reportProgress. destruct onProgress.
  - unfold emit. rewrite (first_batch_without_key _ _ _ _ _ Hkey). cbn [env trace].
    rewrite <- app_assoc. reflexivity.
  - unfold ret. rewrite (first_batch_without_key _ _ _ _ _ Hkey). reflexivity.
Qed.

(** X15: a generate job whose analysis provider has no API key fails
    with the key message of the provider, without any request: the card
    goes to generating_brief and then to error, the outside world is
    untouched, the operation is invoked once and nothing is retried. *)
Theorem generate_job_without_analysis_key :
  forall (config : Configuration) (current : list WordPressPost) (job : Job)
         (currentPost : WordPressPost) (w : World Env),
  action job = generate ->
  find (fun p => (id p =? id (post job))%Z) current = Some currentPost ->
  missing (analysisApiKey (aiAnalysis config)) = true ->
  processJob config current job w
  = (Returned tt,
     mkWorld (env w)
       (trace w
        ++ [PostUpdated (id (post job))
              (statusUpdate Status.generating_brief "Analyzing content...");
            BatchStarted [currentPost];
            Invoked;
            PostUpdated (id (post job))
              (statusUpdate Status.error
                 (keyMessage (analysisProvider (aiAnalysis config))))])).
Proof.
  intros config current job currentPost w Haction Hfind Hkey.
  unfold processJob, tryCatch, runJob. rewrite Hfind, Haction.
  unfold bind at 1, updatePostState at 1, emit at 1. unfold bind at 1.
  unfold generateImageBriefsAndAltsBatch, bind, reportProgress, ret.
  rewrite (first_batch_without_key currentPost [] _ _ _ Hkey).
  unfold updatePostState, emit. cbn [env trace failureMessage Error firstn BATCH_SIZE].
  rewrite <- !app_assoc. reflexivity.
Qed.

(** ** The connection tests *)

(** X16: a connection test without API key asks nobody and reports an
    authentication failure, for every provider: the error thrown inside
    says API Key is required, which [getFriendlyAIError] reads as an
    authentication failure.  This holds for the image provider
    Pollinations too, for which [generateImage] asks no key. *)
Theorem connection_tests_without_key_report_authentication :
  forall (textConfig : AnalysisAIConfig) (imageConfig : ImageAIConfig) (e : Env),
  missing (analysisApiKey textConfig) = true ->
  missing (imageApiKey imageConfig) = true ->
  testTextAIProvider textConfig e
  = (Returned {| testSuccess := false;
                 testMessage := "Authentication failed for "
                                ++ textProviderName (analysisProvider textConfig)
                                ++ ". Please check your API Key." |}, e)
  /\ testImageAIProvider imageConfig e
     = (Returned {| testSuccess := false;
                    testMessage := "Authentication failed for "
                                   ++ providerName (imageProvider imageConfig)
                                   ++ ". Please check your API Key." |}, e).
Proof.
  intros textConfig imageConfig e Htext Himage.
  unfold testTextAIProvider, testImageAIProvider, orCatch, raise, pure.
  rewrite Htext, Himage. split; reflexivity.
Qed.

(** X17: the connection test of DALL-E 3, OpenRouter and Stability never
    rejects and reads the status of a response that is not ok: 401 is
    reported as an authentication failure, 404 as a model that was not
    found, 429 as a rate limit, and any other status from 0 to 999
    verbatim, as API test failed with status followed by the status. *)
Theorem image_connection_test_reads_the_status :
  forall (config : ImageAIConfig) (testUrl : string) (e e1 : Env) (response : Response),
  missing (imageApiKey config) = false ->
  testUrlOf (imageProvider config) = Some testUrl ->
  fetch (testRequest testUrl (orElse (imageApiKey config) EmptyString)) e
  = (Returned response, e1) ->
  responseOk response = false ->
  (0 <= responseStatus response <= 999)%Z ->
  testImageAIProvider config e
  = (Returned {| testSuccess := false;
                 testMessage := reportOfStatus (responseStatus response)
                                  (providerName (imageProvider config)) |}, e1).
Proof.
  intros config testUrl e e1 response Hkey Hurl Hfetch Hok Hrange.
  unfold testImageAIProvider, orCatch. rewrite Hkey.
  assert (Hrun :
    andThen
      (fetchWithTimeout
         (fetch (testRequest (orElse (testUrlOf (imageProvider config)) EmptyString)
                   (orElse (imageApiKey config) EmptyString)))
         20000)
      (fun response0 =>
         if negb (responseOk response0)
         then raise (ErrorObject (FetchError (responseStatus response0))
                       ("API test failed with status "
                        ++ decimalZ (responseStatus response0)))
         else pure {| testSuccess := true; testMessage := "Connection successful." |}) e
    = (Threw (ErrorObject (FetchError (responseStatus response))
                ("API test failed with status " ++ decimalZ (responseStatus response))),
       e1)).
  { unfold andThen, fetchWithTimeout. rewrite Hurl. cbn [orElse]. rewrite Hfetch, Hok.
    reflexivity. }
  assert (Hreport :
    getFriendlyAIError
      (ErrorObject (FetchError (responseStatus response))
         ("API test failed with status " ++ decimalZ (responseStatus response)))
      (providerName (imageProvider config))
    = reportOfStatus (responseStatus response) (providerName (imageProvider config))).
  { rewrite (getFriendlyAIError_signs _ _ _ _ _ _ _ _ _ _
               (statuses_checked _ test_statuses _ Hrange)).
    unfold reportOfStatus. rewrite !orb_false_r. reflexivity. }
  destruct (imageProvider config); try discriminate Hurl;
    rewrite Hrun; unfold pure; rewrite Hreport; reflexivity.
Qed.

(** X18: a connection test the timer aborts reports a time-out: the
    message [fetchWithTimeout] throws (Request timed out after 20
    seconds.) is the one [getFriendlyAIError] reads as a time-out, so
    the test of DALL-E 3, OpenRouter and Stability answers that the
    request to the provider timed out. *)
Theorem aborted_connection_test_reports_a_timeout :
  forall (config : ImageAIConfig) (testUrl text : string) (e e1 : Env),
  missing (imageApiKey config) = false ->
  testUrlOf (imageProvider config) = Some testUrl ->
  fetch (testRequest testUrl (orElse (imageApiKey config) EmptyString)) e
  = (Threw (ErrorObject (DOMException "AbortError") text), e1) ->
  testImageAIProvider config e
  = (Returned {| testSuccess := false;
                 testMessage := "The request to " ++ providerName (imageProvider config)
                                ++ " timed out. The service may be unavailable." |}, e1).
Proof.
  intros config testUrl text e e1 Hkey Hurl Hfetch.
  unfold testImageAIProvider, orCatch. rewrite Hkey.
  destruct (imageProvider config); try discriminate Hurl;
    unfold andThen, fetchWithTimeout; rewrite Hurl; cbn [orElse]; rewrite Hfetch;
    reflexivity.
Qed.

(** ** Image data *)

(** X19: a data URL goes through the analysis without any fetch and is
    cut back into its parts: for a data URL made of a mime type without
    semicolon and comma and of any data (what the three image calls
    build, data:image/png;base64, followed by the bytes, is one),
    [analyzeImageWithVision] asks the vision model with exactly that
    mime type and that data, the outside world passing untouched from
    the call to the first attempt. *)
Theorem data_urls_are_analysed_without_a_fetch :
  forall (geminiApiKey mime payload : string) (w : World Env),
  missing (Some geminiApiKey) = false ->
  lacks ";" mime = true ->
  lacks "," mime = true ->
  analyzeImageWithVision geminiApiKey ("data:" ++ mime ++ ";base64," ++ payload) w
  = bind (retryableAIOperation (geminiVision geminiApiKey mime payload) 3 2000)
      (fun response =>
         match parseAnalysis response with
         | Some analysis => ret analysis
         | None => throw (Error "AI failed to generate valid analysis data.")
         end) w.
Proof.
  intros geminiApiKey mime payload w Hkey Hsemi Hcomma.
  unfold analyzeImageWithVision, getGeminiClient. rewrite Hkey.
  unfold bind at 1, perform at 1, pure. unfold bind at 1, perform at 1, fetchImageAsBase64.
  unfold startsWith.
  rewrite (proj2 (String.prefix_correct "data:" ("data:" ++ mime ++ ";base64," ++ payload))
             (substring_take "data:" (mime ++ ";base64," ++ payload))).
  unfold pure. cbv beta iota.
  rewrite (mimeTypeOf_dataUrl _ _ Hsemi), (dataOf_dataUrl _ _ Hcomma).
  destruct w as [e tr]. reflexivity.
Qed.

End Network.

Lemma only_status_429_is_retried_witness :
  retryableAIOperation
    (callOpenAICompatibleAPI (net := SampleNetwork.answering 503)
       "https://api.openai.com/v1/chat/completions" "key" "gpt-4-turbo" "Hello" None None)
    3 2000 (mkWorld 0 [])
  = (Threw (ErrorObject (FetchError 503) "API request failed with status 503"),
     mkWorld 1 [Invoked]).
Proof.
  apply (only_status_429_is_retried (net := SampleNetwork.answering 503)
           "https://api.openai.com/v1/chat/completions" "key" "gpt-4-turbo" "Hello"
           None None 2 2000 (mkWorld 0 [])
           {| SampleNetwork.sampleOk := false; SampleNetwork.sampleStatus := 503 |}
           "body" 1 1);
    [reflexivity | reflexivity | cbn; lia | reflexivity].
Defined.

Lemma missing_key_aborts_the_first_batch_witness :
  generateImageBriefsAndAltsBatch (browser := SmallBrowser.browser)
    (json := Samples.emptyJson)
    (providers := AiClient.providers (net := SampleNetwork.answering 200))
    [Samples.samplePost 1] (aiAnalysis (SampleNetwork.keyless TextOpenAI)) true
    (mkWorld 0 [])
  = (Threw (Error "OpenAI API key is required."),
     mkWorld 0 [Progress 0 1; BatchStarted [Samples.samplePost 1]; Invoked]).
Proof.
  apply (missing_key_aborts_the_first_batch (net := SampleNetwork.answering 200)
           (browser := SmallBrowser.browser) (json := Samples.emptyJson)
           [Samples.samplePost 1] (aiAnalysis (SampleNetwork.keyless TextOpenAI)) true
           (mkWorld 0 []));
    [discriminate | reflexivity].
Defined.

Lemma generate_job_without_analysis_key_witness :
  processJob (browser := SmallBrowser.browser) (json := Samples.emptyJson)
    (providers := AiClient.providers (net := SampleNetwork.answering 200))
    (wp := Samples.acceptingPlatform)
    (SampleNetwork.keyless TextGroq) [Samples.samplePost 1]
    (Handlers.generateJob (Samples.samplePost 1)) (mkWorld 0 [])
  = (Returned tt,
     mkWorld 0
       [PostUpdated 1 (statusUpdate Status.generating_brief "Analyzing content...");
        BatchStarted [Samples.samplePost 1];
        Invoked;
        PostUpdated 1 (statusUpdate Status.error "Groq API key is required.")]).
Proof.
  apply (generate_job_without_analysis_key (net := SampleNetwork.answering 200)
           (browser := SmallBrowser.browser) (json := Samples.emptyJson)
           (wp := Samples.acceptingPlatform)
           (SampleNetwork.keyless TextGroq) [Samples.samplePost 1]
           (Handlers.generateJob (Samples.samplePost 1)) (Samples.samplePost 1)
           (mkWorld 0 []));
    reflexivity.
Defined.

Lemma connection_tests_without_key_report_authentication_witness :
  testTextAIProvider (net := SampleNetwork.answering 200)
    (aiAnalysis (SampleNetwork.keyless TextGemini)) 0
  = (Returned {| testSuccess := false;
                 testMessage := "Authentication failed for gemini. Please check your API Key." |},
     0)
  /\ testImageAIProvider (net := SampleNetwork.answering 200)
       (aiImage (SampleNetwork.keyless TextGemini)) 0
     = (Returned {| testSuccess := false;
                    testMessage :=
                      "Authentication failed for pollinations. Please check your API Key." |},
        0).
Proof.
  apply (connection_tests_without_key_report_authentication
           (net := SampleNetwork.answering 200)
           (aiAnalysis (SampleNetwork.keyless TextGemini))
           (aiImage (SampleNetwork.keyless TextGemini)) 0);
    reflexivity.
Defined.

Lemma image_connection_test_reads_the_status_witness :
  testImageAIProvider (net := SampleNetwork.answering 404)
    {| imageProvider := Stability; imageApiKey := Some "key"; imageModel := None |} 0
  = (Returned {| testSuccess := false;
                 testMessage :=
                   "Model not found for stability. Please check the model name." |}, 1).
Proof.
  apply (image_connection_test_reads_the_status (net := SampleNetwork.answering 404)
           {| imageProvider := Stability; imageApiKey := Some "key"; imageModel := None |}
           "https://api.stability.ai/v1/user/balance" 0 1
           {| SampleNetwork.sampleOk := false; SampleNetwork.sampleStatus := 404 |});
    [reflexivity | reflexivity | reflexivity | reflexivity | cbn; lia].
Defined.

Lemma aborted_connection_test_reports_a_timeout_witness :
  testImageAIProvider (net := SampleNetwork.stalled)
    {| imageProvider := DallE3; imageApiKey := Some "key"; imageModel := None |} 0
  = (Returned {| testSuccess := false;
                 testMessage :=
                   "The request to dall-e-3 timed out. The service may be unavailable." |},
     1).
Proof.
  apply (aborted_connection_test_reports_a_timeout (net := SampleNetwork.stalled)
           {| imageProvider := DallE3; imageApiKey := Some "key"; imageModel := None |}
           "https://api.openai.com/v1/models" "The operation was aborted." 0 1);
    reflexivity.
Defined.

Lemma data_urls_are_analysed_without_a_fetch_witness :
  analyzeImageWithVision (net := SampleNetwork.answering 200) "key"
    (pngDataUrl "AAAA") (mkWorld 0 [])
  = (Returned "{}", mkWorld 1 [Invoked]).
Proof.
  apply (data_urls_are_analysed_without_a_fetch (net := SampleNetwork.answering 200)
           "key" "image/png" "AAAA" (mkWorld 0 []));
    reflexivity.
Defined.

Section Placement.

Context {Env : Type} {net : Network Env} {browser : Browser}.

(** X22: with a text provider that has no API key the placement is the
    heuristic one, at no cost: [getContentWithImagePlaceholder] resolves
    with the result of [insertPlaceholderHeuristically], the outside
    world is untouched, and the only trace is one invocation of the
    operation when the content is long enough to ask (three paragraphs
    or more, two of the first five of them longer than 80 characters);
    nothing is retried and no wait is made. *)
Theorem placement_without_key_is_the_heuristic :
  forall (analysisConfig : AnalysisAIConfig) (postContent postTitle : string)
         (w : World Env),
  missing (analysisApiKey analysisConfig) = true ->
  getContentWithImagePlaceholder analysisConfig postContent postTitle w
  = (Returned (insertPlaceholderHeuristically postContent PLACEHOLDER),
     mkWorld (env w)
       (trace w
        ++ if (List.length (querySelectorAll_p (parseFromString postContent)) <? 3)%nat
              || (List.length
                    (significantParagraphs
                       (querySelectorAll_p (parseFromString postContent))) <? 2)%nat
           then []
           else [Invoked])).
Proof.
  intros analysisConfig postContent postTitle w Hkey.
  unfold getContentWithImagePlaceholder.
  destruct (List.length (querySelectorAll_p (parseFromString postContent)) <? 3)%nat.
  - cbn [orb]. rewrite app_nil_r. destruct w; reflexivity.
  - cbn [orb]. unfold tryCatch.
    destruct (List.length
                (significantParagraphs
                   (querySelectorAll_p (parseFromString postContent))) <? 2)%nat.
    + rewrite app_nil_r. destruct w; reflexivity.
    + unfold bind, retryableAIOperation. rewrite RetryFacts.retryLoop_step.
      change (AiService.generateText analysisConfig ?prompt ?m ?t (env w))
        with (AiClient.generateText analysisConfig prompt m t (env w)).
      rewrite (generateText_without_key _ _ _ _ _ Hkey), keyMessage_not_retried.
      reflexivity.
Qed.

End Placement.

Lemma placement_without_key_is_the_heuristic_witness :
  getContentWithImagePlaceholder (browser := SmallBrowser.browser)
    (providers := AiClient.providers (net := SampleNetwork.answering 200))
    (aiAnalysis (SampleNetwork.keyless TextOpenRouter)) Samples.threeParagraphs "Title"
    (mkWorld 0 [])
  = (Returned (insertPlaceholderHeuristically (browser := SmallBrowser.browser)
                 Samples.threeParagraphs PLACEHOLDER),
     mkWorld 0 [Invoked]).
Proof.
  apply (placement_without_key_is_the_heuristic (net := SampleNetwork.answering 200)
           (browser := SmallBrowser.browser)
           (aiAnalysis (SampleNetwork.keyless TextOpenRouter)) Samples.threeParagraphs
           "Title" (mkWorld 0 [])).
  reflexivity.
Defined.

(** ** Failures that look like rate limits *)

Lemma includes_app_right (a b sub : string) :
  includes b sub = true -> includes (a ++ b) sub = true.
Proof.
  intro H. induction a as [|c a IH]; [exact H|].
  cbn [append includes]. rewrite IH. apply orb_true_r.
Qed.

Section Pollinations.

Context {Env : Type} {net : Network Env}.

Lemma pollinations_fails (imageConfig : ImageAIConfig) (prompt : string)
    (settings : ImageSettings) (e e' : Env) (response : Response) :
  imageProvider imageConfig = Pollinations ->
  missing supabaseUrl = true ->
  fetch (pollinationsRequest prompt) e = (Returned response, e') ->
  responseOk response = false ->
  operation imageConfig prompt settings e
  = (Threw (Error ("Failed to fetch image from URL: https://pollinations.ai/p/"
                   ++ encodeURIComponent prompt)), e').
Proof.
  intros Hprovider Hproxy Hfetch Hok. unfold operation. rewrite Hprovider.
  unfold fetchImageAsBase64.
  replace (startsWith ("https://pollinations.ai/p/" ++ encodeURIComponent prompt) "data:")
    with false by reflexivity.
  rewrite Hproxy. cbn [negb andb].
  unfold directFetch, andThen, fetchWithTimeout.
  change {| resource := "https://pollinations.ai/p/" ++ encodeURIComponent prompt;
            method := None; headers := []; body := None |}
    with (pollinationsRequest prompt).
  rewrite Hfetch, Hok. reflexivity.
Qed.

(** X26: whether a failure of Pollinations is retried depends on the
    text of the prompt.  The error of a failed fetch quotes the address,
    which ends with the encoded prompt; when that holds the digits 429
    the retrier takes any failure (whatever the status of the response)
    for a rate limit: with a server that keeps answering responses that
    are not ok, [generateImage] makes three attempts, waits 2000, 4000
    and 8000 ms, and only then rejects. *)
Theorem a_prompt_with_429_makes_every_failure_a_rate_limit :
  forall (imageConfig : ImageAIConfig) (prompt : string) (settings : ImageSettings)
         (w : World Env),
  imageProvider imageConfig = Pollinations ->
  missing supabaseUrl = true ->
  includes (encodeURIComponent prompt) "429" = true ->
  (forall e : Env, exists (response : Response) (e' : Env),
      fetch (pollinationsRequest prompt) e = (Returned response, e')
      /\ responseOk response = false) ->
  exists e' : Env,
    generateImage imageConfig prompt settings w
    = (Threw (Error ("AI request failed after 3 attempts. Last error: Failed to fetch image from URL: https://pollinations.ai/p/"
                     ++ encodeURIComponent prompt)),
       mkWorld e'
         (trace w ++ [Invoked; Delayed 2000; Invoked; Delayed 4000;
                      Invoked; Delayed 8000])).
Proof.
  intros imageConfig prompt settings w Hprovider Hproxy Hprompt Hserver.
  unfold generateImage. rewrite Hprovider, andb_false_r.
  assert (Hfails : forall e : Env,
            fst (operation imageConfig prompt settings e)
            = Threw (Error ("Failed to fetch image from URL: https://pollinations.ai/p/"
                            ++ encodeURIComponent prompt))).
  { intro e. destruct (Hserver e) as [response [e' [Hfetch Hok]]].
    rewrite (pollinations_fails _ _ _ _ _ _ Hprovider Hproxy Hfetch Hok). reflexivity. }
  assert (Hrate : isRateLimitError
                    (Error ("Failed to fetch image from URL: https://pollinations.ai/p/"
                            ++ encodeURIComponent prompt)) = true).
  { unfold isRateLimitError. cbn [Error messageOrJson orb].
    rewrite (includes_app_right "Failed to fetch image from URL: https://pollinations.ai/p/"
               _ _ Hprompt). reflexivity. }
  exists (envAfter (operation imageConfig prompt settings) 3 (env w)).
  unfold retryableAIOperation.
  change (imageOperation imageConfig prompt settings)
    with (operation imageConfig prompt settings).
  rewrite (RetryFacts.retryLoop_exhausts (operation imageConfig prompt settings) 3 2000 2
             0 None w
             (Error ("Failed to fetch image from URL: https://pollinations.ai/p/"
                     ++ encodeURIComponent prompt))).
  - reflexivity.
  - intros j _. eexists. split; [apply Hfails | exact Hrate].
  - apply Hfails.
Qed.

End Pollinations.

Lemma a_prompt_with_429_makes_every_failure_a_rate_limit_witness :
  exists e' : nat,
    generateImage (providers := AiClient.providers (net := SampleNetwork.answering 500))
      {| imageProvider := Pollinations; imageApiKey := None; imageModel := None |}
      "room 429 of a hotel"
      {| style := "photo"; negativePrompt := None; aspectRatio := None |} (mkWorld 0 [])
    = (Threw (Error "AI request failed after 3 attempts. Last error: Failed to fetch image from URL: https://pollinations.ai/p/room 429 of a hotel"),
       mkWorld e' [Invoked; Delayed 2000; Invoked; Delayed 4000; Invoked; Delayed 8000]).
Proof.
  apply (a_prompt_with_429_makes_every_failure_a_rate_limit
           (net := SampleNetwork.answering 500)
           {| imageProvider := Pollinations; imageApiKey := None; imageModel := None |}
           "room 429 of a hotel"
           {| style := "photo"; negativePrompt := None; aspectRatio := None |}
           (mkWorld 0 []));
    [reflexivity | reflexivity | reflexivity |].
  intro e. eexists _, _. split; reflexivity.
Defined.

End ClientFacts.

(* ================================================================== *)
(** * Properties of the insertion dialog *)
(* ================================================================== *)

Module ModalFacts.
Import JsText AiService InsertImageModal.

(** The block number [k] of a list of children: the child it was made
    of, its index, and the blocks shown before it. *)
Lemma blocks_nth (l : list node) :
  forall (off k : nat) (b : ContentBlock),
  nth_error
    (filter (fun block => (0 <? String.length (textPreview block))%nat)
       (map blockOf (combine (seq off (List.length l)) l))) k = Some b ->
  exists (i : nat) (c : node),
    nth_error l i = Some c
    /\ b = blockOf (off + i, c)
    /\ List.length (filter (fun c => (0 <? String.length (preview c))%nat) (firstn i l)) = k.
Proof.
  induction l as [|c l IH]; intros off k b Hnth.
  - destruct k; discriminate.
  - cbn [List.length seq combine map filter] in Hnth.
    cbn [blockOf textPreview snd] in Hnth.
    destruct (0 <? String.length (preview c))%nat eqn:Hvis.
    + destruct k as [|k].
      * injection Hnth as <-. exists 0, c. rewrite Nat.add_0_r. repeat split.
      * cbn [nth_error] in Hnth. destruct (IH (S off) k b Hnth) as [i [c' [Hi [Hb Hlen]]]].
        exists (S i), c'. split; [exact Hi|]. split.
        -- rewrite Hb. f_equal. f_equal. lia.
        -- cbn [firstn filter]. rewrite Hvis. cbn [List.length]. rewrite Hlen. reflexivity.
    + destruct (IH (S off) k b Hnth) as [i [c' [Hi [Hb Hlen]]]].
      exists (S i), c'. split; [exact Hi|]. split.
      * rewrite Hb. f_equal. f_equal. lia.
      * cbn [firstn filter]. rewrite Hvis. exact Hlen.
Qed.

Lemma children_element (body : list node) (i : nat) (c : node) :
  nth_error (children body) i = Some c -> isElement c = true.
Proof.
  intro H. apply nth_error_In in H. unfold children in H. apply filter_In in H. apply H.
Qed.

(** Where [insertAfterChild] puts the fragment. *)
Lemma insertAfterChild_spec (fragment : list node) (body : list node) :
  forall (i : nat) (c : node),
  nth_error (children body) i = Some c ->
  exists pre post : list node,
    body = pre ++ c :: post
    /\ children pre = firstn i (children body)
    /\ insertAfterChild fragment i body = pre ++ c :: fragment ++ post.
Proof.
  induction body as [|d body IH]; intros i c Hnth.
  - destruct i; discriminate.
  - cbn [children filter] in Hnth. cbn [insertAfterChild].
    destruct (isElement d) eqn:Hd.
    + destruct i as [|i].
      * injection Hnth as <-. exists [], body. repeat split.
      * cbn [nth_error] in Hnth. destruct (IH i c Hnth) as [pre [post [Hbody [Hpre Hins]]]].
        exists (d :: pre), post. cbn [app children filter]. rewrite Hd.
        fold (children pre). fold (children body). cbn [firstn].
        rewrite Hpre, Hins. split; [rewrite Hbody at 1; reflexivity|]. split; reflexivity.
    + destruct (IH i c Hnth) as [pre [post [Hbody [Hpre Hins]]]].
      exists (d :: pre), post. cbn [app children filter]. rewrite Hd.
      fold (children pre). fold (children body).
      rewrite Hpre, Hins. split; [rewrite Hbody at 1; reflexivity|]. split; reflexivity.
Qed.

Lemma shown_children (l : list node) :
  filter shown l = filter (fun c => (0 <? String.length (preview c))%nat) (children l).
Proof.
  unfold children, shown. induction l as [|c l IH]; [reflexivity|].
  cbn [filter]. destruct (isElement c); cbn [andb filter]; rewrite IH; reflexivity.
Qed.

Section Modal.

Context {browser : Browser}.

(** X20: a manual insertion puts the image right after the block the
    user selected.  The dialog numbers the blocks it shows (the element
    children of the body whose trimmed text is not empty), and for the
    block number [k] of that list [handleManualConfirm] hands over the
    content with the image markup as the next sibling of the very child
    the block was made of: the child has the tag and the text preview of
    the block, exactly [k] shown blocks come before it, and every other
    node of the content stays where it was. *)
Theorem manual_insertion_goes_after_the_selected_block :
  forall (content imageUrl altText : string) (k : nat) (b : ContentBlock),
  nth_error (contentBlocks content) k = Some b ->
  exists (pre : list node) (c : node) (post : list node),
    parseFromString content = pre ++ c :: post
    /\ isElement c = true
    /\ tagName b = toLowerCase (tagOf c)
    /\ textPreview b = preview c
    /\ List.length (filter shown pre) = k
    /\ handleManualConfirm content imageUrl altText (Some (Z.of_nat k))
       = Some (innerHTML
                 (pre ++ c :: parseFragment "body" (blockHtml imageUrl altText) ++ post)).
Proof.
  intros content imageUrl altText k b Hnth.
  destruct (blocks_nth _ 0 k b Hnth) as [i [c [Hi [Hb Hlen]]]].
  destruct (insertAfterChild_spec (parseFragment "body" (blockHtml imageUrl altText))
              _ i c Hi) as [pre [post [Hbody [Hpre Hins]]]].
  exists pre, c, post. split; [exact Hbody|].
  split; [exact (children_element _ _ _ Hi)|].
  split; [rewrite Hb; reflexivity|]. split; [rewrite Hb; reflexivity|].
  split; [rewrite shown_children, Hpre; exact Hlen|].
  unfold handleManualConfirm.
  replace (Z.of_nat k =? -1)%Z with false by (symmetry; apply Z.eqb_neq; lia).
  replace (Z.of_nat k <? 0)%Z with false by (symmetry; apply Z.ltb_ge; lia).
  rewrite Nat2Z.id, Hnth, Hb. cbn [index blockOf fst Nat.add]. rewrite Hi, Hins. reflexivity.
Qed.

(** X21: a manual insertion never drops or reorders a node of the
    content, and always hands a content over: for every selected
    position (the beginning, a block, or a number that names no block)
    the content handed to [onManualInsert] is the parsed content cut in
    two with the image markup in between. *)
Theorem manual_insertion_keeps_the_content :
  forall (content imageUrl altText : string) (position : Z),
  exists before after : list node,
    parseFromString content = before ++ after
    /\ handleManualConfirm content imageUrl altText (Some position)
       = Some (innerHTML
                 (before ++ parseFragment "body" (blockHtml imageUrl altText) ++ after)).
Proof.
  intros content imageUrl altText position. unfold handleManualConfirm.
  destruct (position =? -1)%Z.
  - exists [], (parseFromString content). split; reflexivity.
  - destruct (if (position <? 0)%Z then None
              else nth_error (contentBlocks content) (Z.to_nat position))
      as [targetBlock|].
    + destruct (nth_error (children (parseFromString content)) (index targetBlock))
        as [c|] eqn:Hc.
      * destruct (insertAfterChild_spec
                    (parseFragment "body" (blockHtml imageUrl altText)) _ _ c Hc)
          as [pre [post [Hbody [_ Hins]]]].
        exists (pre ++ [c]), post. rewrite <- !app_assoc. cbn [app].
        split; [exact Hbody | rewrite Hins; reflexivity].
      * exists (parseFromString content), []. rewrite !app_nil_r. split; reflexivity.
    + exists (parseFromString content), []. rewrite !app_nil_r. split; reflexivity.
Qed.

End Modal.

Lemma manual_insertion_goes_after_the_selected_block_witness :
  exists (pre : list node) (c : node) (post : list node),
    SmallBrowser.parse "<p></p><h2>Title</h2><p>Body</p>" = pre ++ c :: post
    /\ isElement c = true
    /\ "p" = toLowerCase (tagOf c)
    /\ "Body" = preview c
    /\ List.length (filter shown pre) = 1
    /\ handleManualConfirm (browser := SmallBrowser.browser)
         "<p></p><h2>Title</h2><p>Body</p>" "https://example.org/1.png" "A picture"
         (Some 1%Z)
       = Some (SmallBrowser.printAll
                 (pre ++ c :: SmallBrowser.parse
                                (blockHtml "https://example.org/1.png" "A picture")
                      ++ post)).
Proof.
  apply (manual_insertion_goes_after_the_selected_block (browser := SmallBrowser.browser)
           "<p></p><h2>Title</h2><p>Body</p>" "https://example.org/1.png" "A picture" 1
           {| index := 2; tagName := "p"; textPreview := "Body"; isHeading := false |}).
  reflexivity.
Defined.

End ModalFacts.

(* ================================================================== *)
(** * Properties of the extraction of JSON *)
(* ================================================================== *)

Module JsonFacts.
Import JsText JsonText ClientReadings.

(** ** Lists of code units *)

Lemma list_of_app (a b : string) :
  list_ascii_of_string (a ++ b) = list_ascii_of_string a ++ list_ascii_of_string b.
Proof. induction a as [|c a IH]; cbn; [reflexivity | rewrite IH; reflexivity]. Qed.

Lemma lacks_Forall (c : ascii) (s : string) :
  lacks c s = true -> Forall (fun d => d <> c) (list_ascii_of_string s).
Proof.
  induction s as [|d s IH]; cbn; intro H; constructor.
  - apply andb_prop in H. destruct H as [H _]. apply negb_true_iff, Ascii.eqb_neq in H.
    congruence.
  - apply IH. apply andb_prop in H. apply H.
Qed.

Lemma blank_Forall (s : string) :
  blank s = true -> Forall (fun d => isSpace d = true) (list_ascii_of_string s).
Proof.
  induction s as [|d s IH]; cbn; intro H; constructor;
    apply andb_prop in H; [apply H | apply IH, H].
Qed.

Lemma dropSpaces_blank (w rest : list ascii) :
  Forall (fun d => isSpace d = true) w -> dropSpaces (w ++ rest) = dropSpaces rest.
Proof. induction 1 as [|d w Hd _ IH]; cbn; [reflexivity | rewrite Hd; exact IH]. Qed.

Lemma dropSpaces_solid (c : ascii) (rest : list ascii) :
  isSpace c = false -> dropSpaces (c :: rest) = c :: rest.
Proof. intro H. cbn. rewrite H. reflexivity. Qed.

Lemma startsWith_fence_other (c : ascii) (rest : list ascii) :
  c <> backquote -> startsWith fence (c :: rest) = false.
Proof.
  intro H.
  change (startsWith fence (c :: rest))
    with (Ascii.eqb backquote c && startsWith [backquote; backquote] rest).
  replace (Ascii.eqb backquote c) with false; [reflexivity|].
  symmetry. apply Ascii.eqb_neq. congruence.
Qed.

(** Inside text without backquote that ends on something else than
    white space, the end of the pattern does not match. *)
Lemma closes_inside (body : list ascii) (last : ascii) (rest : list ascii) :
  Forall (fun d => d <> backquote) (body ++ [last]) ->
  isSpace last = false ->
  closes ((body ++ [last]) ++ rest) = false.
Proof.
  unfold closes. induction body as [|c body IH]; intros Hall Hlast.
  - cbn [app]. rewrite (dropSpaces_solid _ _ Hlast). apply startsWith_fence_other.
    inversion Hall; assumption.
  - cbn [app] in *. inversion Hall as [|? ? Hc Hrest]; subst.
    cbn [dropSpaces]. destruct (isSpace c).
    + apply IH; assumption.
    + apply startsWith_fence_other. exact Hc.
Qed.

Lemma closes_at_fence (w rest : list ascii) :
  Forall (fun d => isSpace d = true) w -> closes (w ++ fence ++ rest) = true.
Proof. intro Hw. unfold closes. rewrite (dropSpaces_blank _ _ Hw). reflexivity. Qed.

(** The lazy group stops before the white space that leads to the
    closing fence. *)
Lemma capture_body (body : list ascii) (last : ascii) (w rest : list ascii) :
  Forall (fun d => d <> backquote) (body ++ [last]) ->
  isSpace last = false ->
  Forall (fun d => isSpace d = true) w ->
  capture ((body ++ [last]) ++ w ++ fence ++ rest) = Some (body ++ [last]).
Proof.
  intros Hall Hlast Hw.
  assert (Hend : capture (w ++ fence ++ rest) = Some []).
  { destruct (w ++ fence ++ rest) eqn:Hl; cbn [capture]; rewrite <- Hl;
      rewrite (closes_at_fence _ _ Hw); reflexivity. }
  induction body as [|c body IH].
  - pose proof (closes_inside [] last (w ++ fence ++ rest) Hall Hlast) as Hin.
    cbn [app] in *. cbn [capture]. rewrite Hin, Hend. reflexivity.
  - pose proof (closes_inside (c :: body) last (w ++ fence ++ rest) Hall Hlast) as Hin.
    cbn [app] in *. cbn [capture]. rewrite Hin, IH; [reflexivity|].
    inversion Hall; assumption.
Qed.

(** Before the first backquote the pattern matches nowhere. *)
Lemma codeBlock_skip (a rest : list ascii) :
  Forall (fun d => d <> backquote) a -> codeBlock (a ++ rest) = codeBlock rest.
Proof.
  induction 1 as [|c a Hc _ IH]; [reflexivity|].
  cbn [app codeBlock]. unfold fromFence. rewrite (startsWith_fence_other _ _ Hc). exact IH.
Qed.

Lemma codeBlock_none (l : list ascii) :
  Forall (fun d => d <> backquote) l -> codeBlock l = None.
Proof.
  induction 1 as [|c l Hc _ IH]; [reflexivity|].
  cbn [codeBlock]. unfold fromFence. rewrite (startsWith_fence_other _ _ Hc). exact IH.
Qed.

(** ** Text between brackets *)

Lemma shape (j : string) :
  opens j = true -> shuts j = true ->
  exists (first : ascii) (middle : string) (last : ascii),
    j = String first (middle ++ String last EmptyString)
    /\ (first = "{"%char \/ first = "["%char)
    /\ (last = "}"%char \/ last = "]"%char).
Proof.
  destruct j as [|first j]; [discriminate|]. cbn [opens]. intros Hopen Hshut.
  assert (Hfirst : first = "{"%char \/ first = "["%char).
  { apply orb_prop in Hopen. destruct Hopen as [H|H]; apply Ascii.eqb_eq in H; auto. }
  assert (Htail : exists middle last,
            j = (middle ++ String last EmptyString)%string
            /\ (last = "}"%char \/ last = "]"%char)).
  { cbn [shuts] in Hshut. destruct j as [|c j].
    - exfalso. destruct Hfirst as [-> | ->]; discriminate.
    - clear Hopen Hfirst first. revert c Hshut.
      induction j as [|d j IH]; intros c Hshut.
      + exists EmptyString, c. split; [reflexivity|].
        cbn in Hshut. apply orb_prop in Hshut.
        destruct Hshut as [H|H]; apply Ascii.eqb_eq in H; auto.
      + destruct (IH d Hshut) as [middle [last [Heq Hlast]]].
        exists (String c middle), last. cbn. rewrite Heq. split; [reflexivity | exact Hlast]. }
  destruct Htail as [middle [last [-> Hlast]]].
  exists first, middle, last. repeat split; assumption.
Qed.

Lemma trim_solid (first last : ascii) (middle : list ascii) :
  isSpace first = false -> isSpace last = false ->
  trim (string_of_list_ascii (first :: middle ++ [last]))
  = string_of_list_ascii (first :: middle ++ [last]).
Proof.
  intros Hfirst Hlast. unfold trim. rewrite list_ascii_of_string_of_list_ascii.
  rewrite (dropSpaces_solid _ _ Hfirst).
  assert (Hrev : rev (first :: middle ++ [last]) = last :: rev middle ++ [first])
    by (cbn [rev]; rewrite rev_app_distr; reflexivity).
  rewrite Hrev, (dropSpaces_solid _ _ Hlast), <- Hrev, rev_involutive. reflexivity.
Qed.

Lemma codeBlock_here (l group : list ascii) :
  fromFence l = Some group -> codeBlock l = Some group.
Proof. intro H. destruct l; cbn [codeBlock]; rewrite H; reflexivity. Qed.

Lemma not_space_bracket (c : ascii) :
  c = "{"%char \/ c = "["%char \/ c = "}"%char \/ c = "]"%char -> isSpace c = false.
Proof. intros [-> | [-> | [-> | ->]]]; reflexivity. Qed.

(** Without the tag, the text after the opening fence does not start
    with json. *)
Lemma untagged (w rest : list ascii) (first : ascii) :
  Forall (fun d => isSpace d = true) w ->
  first = "{"%char \/ first = "["%char ->
  startsWith (list_ascii_of_string "json") (w ++ first :: rest) = false.
Proof.
  intros Hw Hfirst. destruct Hw as [|d w Hd _].
  - destruct Hfirst as [-> | ->]; reflexivity.
  - change (startsWith (list_ascii_of_string "json") ((d :: w) ++ first :: rest))
      with (Ascii.eqb "j" d
            && startsWith (list_ascii_of_string "son") (w ++ first :: rest)).
    destruct (Ascii.eqb_spec "j"%char d) as [<-|_]; [discriminate Hd | reflexivity].
Qed.

(** The match of the pattern in a fenced reply. *)
Lemma codeBlock_fenced (before tag spaces1 body spaces2 after : list ascii)
    (first last : ascii) :
  Forall (fun d => d <> backquote) before ->
  tag = [] \/ tag = list_ascii_of_string "json" ->
  Forall (fun d => isSpace d = true) spaces1 ->
  Forall (fun d => isSpace d = true) spaces2 ->
  first = "{"%char \/ first = "["%char ->
  isSpace last = false ->
  Forall (fun d => d <> backquote) ((first :: body) ++ [last]) ->
  codeBlock (before ++ fence ++ tag ++ spaces1 ++ ((first :: body) ++ [last])
             ++ spaces2 ++ fence ++ after)
  = Some ((first :: body) ++ [last]).
Proof.
  intros Hbefore Htag H1 H2 Hfirst Hlast Hbody.
  rewrite (codeBlock_skip _ _ Hbefore). apply codeBlock_here.
  set (tail := spaces2 ++ fence ++ after).
  assert (Hopen : forall rest : list ascii,
            fromFence (fence ++ rest)
            = capture (dropSpaces
                         (if startsWith (list_ascii_of_string "json") rest
                          then skipn 4 rest else rest))) by reflexivity.
  rewrite Hopen.
  assert (Hafter :
    (if startsWith (list_ascii_of_string "json")
          (tag ++ spaces1 ++ ((first :: body) ++ [last]) ++ tail)
     then skipn 4 (tag ++ spaces1 ++ ((first :: body) ++ [last]) ++ tail)
     else tag ++ spaces1 ++ ((first :: body) ++ [last]) ++ tail)
    = spaces1 ++ ((first :: body) ++ [last]) ++ tail).
  { destruct Htag as [-> | ->].
    - cbn [app]. rewrite (untagged _ _ _ H1 Hfirst). reflexivity.
    - reflexivity. }
  rewrite Hafter, (dropSpaces_blank _ _ H1).
  cbn [app]. rewrite dropSpaces_solid
    by (apply not_space_bracket; destruct Hfirst; auto).
  exact (capture_body (first :: body) last spaces2 after Hbody Hlast H2).
Qed.

Lemma list_of_shape (first last : ascii) (middle : string) :
  list_ascii_of_string (String first (middle ++ String last EmptyString))
  = (first :: list_ascii_of_string middle) ++ [last].
Proof. cbn. rewrite list_of_app. reflexivity. Qed.

(** X23: JSON in a code fence is extracted as it is.  For a reply made
    of any text without backquote, a fence with or without the tag json,
    white space, JSON text (it starts with an opening bracket, ends with
    a closing one and holds no backquote), white space, a closing fence
    and anything after it, [extractJson] returns the JSON text, whatever
    brackets the text around the fences holds. *)
Theorem fenced_json_is_extracted :
  forall (before spaces1 json spaces2 after : string) (tagged : bool),
  lacks "`" before = true ->
  blank spaces1 = true ->
  blank spaces2 = true ->
  opens json = true ->
  shuts json = true ->
  lacks "`" json = true ->
  extractJson (before ++ "```" ++ (if tagged then "json" else EmptyString) ++ spaces1
               ++ json ++ spaces2 ++ "```" ++ after)
  = Some json.
Proof.
  intros before spaces1 json spaces2 after tagged Hbefore H1 H2 Hopens Hshuts Hjson.
  destruct (shape json Hopens Hshuts) as [first [middle [last [Heq [Hfirst Hlast]]]]].
  assert (Hspace : isSpace last = false)
    by (apply not_space_bracket; destruct Hlast; auto).
  unfold extractJson. rewrite !list_of_app.
  assert (Hlist : list_ascii_of_string json
                  = (first :: list_ascii_of_string middle) ++ [last])
    by (rewrite Heq; apply list_of_shape).
  rewrite Hlist.
  change (list_ascii_of_string "```") with fence.
  rewrite (codeBlock_fenced (list_ascii_of_string before)
             (list_ascii_of_string (if tagged then "json" else EmptyString))
             (list_ascii_of_string spaces1) (list_ascii_of_string middle)
             (list_ascii_of_string spaces2) (list_ascii_of_string after) first last).
  - cbn [app]. rewrite (trim_solid first last _
                          (not_space_bracket first
                             ltac:(destruct Hfirst; auto)) Hspace).
    change (first :: list_ascii_of_string middle ++ [last])
      with ((first :: list_ascii_of_string middle) ++ [last]).
    rewrite <- Hlist, string_of_list_ascii_of_string. reflexivity.
  - apply lacks_Forall. exact Hbefore.
  - destruct tagged; [right | left]; reflexivity.
  - apply blank_Forall. exact H1.
  - apply blank_Forall. exact H2.
  - exact Hfirst.
  - exact Hspace.
  - rewrite <- Hlist. apply lacks_Forall. exact Hjson.
Qed.

Lemma fenced_json_is_extracted_witness :
  extractJson ("Here is the result:" ++ nl ++ "```json" ++ nl
               ++ "[{" ++ quote ++ "postId" ++ quote ++ ": 1}]" ++ nl ++ "```"
               ++ nl ++ "I hope {this} helps.")
  = Some ("[{" ++ quote ++ "postId" ++ quote ++ ": 1}]")%string.
Proof.
  apply (fenced_json_is_extracted ("Here is the result:" ++ nl) nl
           ("[{" ++ quote ++ "postId" ++ quote ++ ": 1}]") nl
           (nl ++ "I hope {this} helps.") true);
    reflexivity.
Defined.

(** ** The first and the last bracket *)

Lemma indexFrom_unit (c d : ascii) (rest : string) (i : nat) :
  indexFrom i (String d rest) (String c EmptyString)
  = if Ascii.eqb c d then Z.of_nat i else indexFrom (S i) rest (String c EmptyString).
Proof. cbn [indexFrom]. rewrite ClientFacts.prefix_unit. reflexivity. Qed.

Lemma indexFrom_lacks (c : ascii) (a s : string) (i : nat) :
  lacks c a = true ->
  indexFrom i (a ++ s) (String c EmptyString)
  = indexFrom (i + String.length a) s (String c EmptyString).
Proof.
  revert i. induction a as [|d a IH]; intros i Hlacks.
  - cbn [append String.length]. rewrite Nat.add_0_r. reflexivity.
  - cbn [lacks] in Hlacks. apply andb_prop in Hlacks. destruct Hlacks as [Hd Ha].
    apply negb_true_iff in Hd.
    cbn [append String.length]. rewrite indexFrom_unit, Hd, (IH (S i) Ha).
    f_equal. lia.
Qed.

Lemma indexFrom_range (c : ascii) (s : string) :
  forall i : nat,
  indexFrom i s (String c EmptyString) = (-1)%Z
  \/ (Z.of_nat i <= indexFrom i s (String c EmptyString))%Z.
Proof.
  induction s as [|d s IH]; intro i.
  - left. reflexivity.
  - rewrite indexFrom_unit. destruct (Ascii.eqb c d); [right; lia|].
    destruct (IH (S i)) as [H|H]; [left; exact H | right; lia].
Qed.

Lemma lastIndexFrom_unit (c d : ascii) (rest : string) (i : nat) (found : Z) :
  lastIndexFrom i (String d rest) (String c EmptyString) found
  = lastIndexFrom (S i) rest (String c EmptyString)
      (if Ascii.eqb c d then Z.of_nat i else found).
Proof. cbn [lastIndexFrom]. rewrite ClientFacts.prefix_unit. reflexivity. Qed.

Lemma lastIndexFrom_lacks (c : ascii) (b : string) :
  forall (i : nat) (found : Z),
  lacks c b = true -> lastIndexFrom i b (String c EmptyString) found = found.
Proof.
  induction b as [|d b IH]; intros i found Hlacks; [reflexivity|].
  cbn [lacks] in Hlacks. apply andb_prop in Hlacks. destruct Hlacks as [Hd Hb].
  apply negb_true_iff in Hd. rewrite lastIndexFrom_unit, Hd. apply IH. exact Hb.
Qed.

Lemma lastIndexFrom_at (c : ascii) (s b : string) :
  forall (i : nat) (found : Z),
  lacks c b = true ->
  lastIndexFrom i (s ++ String c b) (String c EmptyString) found
  = Z.of_nat (i + String.length s).
Proof.
  induction s as [|d s IH]; intros i found Hb.
  - cbn [append String.length]. rewrite lastIndexFrom_unit, Ascii.eqb_refl.
    rewrite (lastIndexFrom_lacks c b (S i) _ Hb). f_equal. lia.
  - cbn [append String.length]. rewrite lastIndexFrom_unit, (IH (S i) _ Hb). f_equal. lia.
Qed.

Lemma lastIndexFrom_le (c d : ascii) (s b : string) :
  forall (i : nat) (found : Z),
  lacks c b = true -> c <> d ->
  (found <= Z.of_nat (i + String.length s))%Z ->
  (lastIndexFrom i (s ++ String d b) (String c EmptyString) found
   <= Z.of_nat (i + String.length s))%Z.
Proof.
  induction s as [|e s IH]; intros i found Hb Hne Hfound.
  - cbn [append String.length] in *. rewrite lastIndexFrom_unit.
    replace (Ascii.eqb c d) with false by (symmetry; apply Ascii.eqb_neq; exact Hne).
    rewrite (lastIndexFrom_lacks c b (S i) _ Hb). exact Hfound.
  - cbn [append String.length] in *. rewrite lastIndexFrom_unit.
    replace (i + S (String.length s)) with (S i + String.length s) by lia.
    apply IH; [exact Hb | exact Hne |]. destruct (Ascii.eqb c e); lia.
Qed.

(** X24: JSON text in prose is extracted as it is.  For a reply without
    backquote made of prose without opening bracket, JSON text (it
    starts with an opening bracket and ends with a closing one), and
    prose without closing bracket, [extractJson] returns the JSON
    text. *)
Theorem bare_json_is_extracted :
  forall (before json after : string),
  lacks "`" (before ++ json ++ after) = true ->
  lacks "{" before = true ->
  lacks "[" before = true ->
  opens json = true ->
  shuts json = true ->
  lacks "}" after = true ->
  lacks "]" after = true ->
  extractJson (before ++ json ++ after) = Some json.
Proof.
  intros before json after Hquote Hb1 Hb2 Hopens Hshuts Ha1 Ha2.
  destruct (shape json Hopens Hshuts) as [first [middle [last [Heq [Hfirst Hlast]]]]].
  unfold extractJson. rewrite (codeBlock_none _ (lacks_Forall _ _ Hquote)).
  unfold betweenBrackets.
  (* the first opening bracket *)
  assert (Hstart :
    (if (indexOf (before ++ json ++ after) "{" =? -1)%Z
     then indexOf (before ++ json ++ after) "["
     else if (indexOf (before ++ json ++ after) "[" =? -1)%Z
          then indexOf (before ++ json ++ after) "{"
          else Z.min (indexOf (before ++ json ++ after) "{")
                     (indexOf (before ++ json ++ after) "["))
    = Z.of_nat (String.length before)).
  { unfold indexOf. rewrite (indexFrom_lacks "{" before _ 0 Hb1).
    rewrite (indexFrom_lacks "[" before _ 0 Hb2). cbn [Nat.add].
    rewrite Heq. cbn [append]. rewrite !indexFrom_unit.
    destruct Hfirst as [-> | ->].
    - rewrite Ascii.eqb_refl.
      replace (Ascii.eqb "[" "{") with false by reflexivity.
      destruct (indexFrom_range "[" ((middle ++ String last EmptyString) ++ after)
                  (S (String.length before))) as [H|H].
      + rewrite H. cbn. destruct (Z.eqb_spec (Z.of_nat (String.length before)) (-1)); lia.
      + destruct (Z.eqb_spec (Z.of_nat (String.length before)) (-1)); [lia|].
        destruct (Z.eqb_spec
                    (indexFrom (S (String.length before))
                       ((middle ++ String last EmptyString) ++ after) "[") (-1)); lia.
    - rewrite Ascii.eqb_refl.
      replace (Ascii.eqb "{" "[") with false by reflexivity.
      destruct (indexFrom_range "{" ((middle ++ String last EmptyString) ++ after)
                  (S (String.length before))) as [H|H].
      + rewrite H. cbn. reflexivity.
      + destruct (Z.eqb_spec
                    (indexFrom (S (String.length before))
                       ((middle ++ String last EmptyString) ++ after) "{") (-1)); [lia|].
        destruct (Z.eqb_spec (Z.of_nat (String.length before)) (-1)); lia. }
  rewrite Hstart.
  (* the last closing bracket *)
  assert (Htext : (before ++ json ++ after
                   = (before ++ String first middle) ++ String last after)%string).
  { rewrite Heq. cbn [append].
    rewrite (ClientFacts.append_assoc before), (ClientFacts.append_assoc middle).
    reflexivity. }
  assert (Hend :
    Z.max (lastIndexOf (before ++ json ++ after) "}")
          (lastIndexOf (before ++ json ++ after) "]")
    = Z.of_nat (String.length (before ++ String first middle))).
  { unfold lastIndexOf. rewrite Htext. destruct Hlast as [-> | ->].
    - rewrite (lastIndexFrom_at "}" _ after 0 _ Ha1).
      pose proof (lastIndexFrom_le "]" "}" (before ++ String first middle) after 0 (-1)
                    Ha2 ltac:(discriminate) ltac:(lia)) as Hle.
      cbn [Nat.add] in *. lia.
    - rewrite (lastIndexFrom_at "]" _ after 0 _ Ha2).
      pose proof (lastIndexFrom_le "}" "]" (before ++ String first middle) after 0 (-1)
                    Ha1 ltac:(discriminate) ltac:(lia)) as Hle.
      cbn [Nat.add] in *. lia. }
  rewrite Hend, ClientFacts.length_app. cbn [String.length].
  replace (Z.of_nat (String.length before) =? -1)%Z with false
    by (symmetry; apply Z.eqb_neq; lia).
  replace (Z.of_nat (String.length before + S (String.length middle)) =? -1)%Z with false
    by (symmetry; apply Z.eqb_neq; lia).
  replace (Z.of_nat (String.length before + S (String.length middle))
           <? Z.of_nat (String.length before))%Z with false
    by (symmetry; apply Z.ltb_ge; lia).
  cbn [orb].
  replace (Z.of_nat (String.length before + S (String.length middle)) + 1)%Z
    with (Z.of_nat (String.length before + String.length json))
    by (rewrite Heq; cbn [String.length]; rewrite ClientFacts.length_app;
        cbn [String.length]; lia).
  rewrite ClientFacts.substring_middle.
  rewrite <- (string_of_list_ascii_of_string json) at 1.
  rewrite Heq at 1. rewrite list_of_shape. cbn [app].
  rewrite (trim_solid first last _
             (not_space_bracket first ltac:(destruct Hfirst; auto))
             (not_space_bracket last ltac:(destruct Hlast; auto))).
  change (first :: list_ascii_of_string middle ++ [last])
    with ((first :: list_ascii_of_string middle) ++ [last]).
  rewrite <- list_of_shape, <- Heq, string_of_list_ascii_of_string. reflexivity.
Qed.

Lemma bare_json_is_extracted_witness :
  extractJson ("Sure! [{" ++ quote ++ "postId" ++ quote ++ ": 1}] Done.")
  = Some ("[{" ++ quote ++ "postId" ++ quote ++ ": 1}]")%string.
Proof.
  apply (bare_json_is_extracted "Sure! "
           ("[{" ++ quote ++ "postId" ++ quote ++ ": 1}]") " Done.");
    reflexivity.
Defined.

End JsonFacts.

(* ================================================================== *)
(** * Properties of the saving of alternative texts *)
(* ================================================================== *)

Module AltTextFacts.
Import ResultsStep SaveAltText ProcessorReadings.

Lemma Forall2_map_in {A B} (R : A -> B -> Prop) (f : A -> B) (l : list A) :
  (forall a, In a l -> R a (f a)) -> Forall2 R l (map f l).
Proof.
  induction l as [|a l IH]; intro H; constructor.
  - apply H. left. reflexivity.
  - apply IH. intros b Hb. apply H. right. exact Hb.
Qed.

(** A post that no update names stays as it is. *)
Lemma revised_untouched (ups : list (Z * PostUpdate)) (p : WordPressPost) :
  Forall (fun up => fst up <> id p) ups -> revised ups p = p.
Proof.
  unfold revised. induction 1 as [|up ups Hup _ IH]; [reflexivity|].
  cbn [fold_left]. unfold revise at 2.
  destruct (Z.eqb_spec (id p) (fst up)) as [Heq|_]; [symmetry in Heq; contradiction|].
  exact IH.
Qed.

(** The marks change neither the image of a post nor its id. *)
Lemma marks_keep (marked : list WordPressPost) (p : WordPressPost) :
  generatedImage (revised (map mark marked) p) = generatedImage p
  /\ id (revised (map mark marked) p) = id p.
Proof.
  unfold revised. revert p. induction marked as [|m marked IH]; intro p; [split; reflexivity|].
  cbn [map fold_left]. destruct (IH (revise (mark m) p)) as [H1 H2].
  rewrite H1, H2. unfold revise, mark. cbn [fst snd].
  destruct (id p =? id m)%Z; split; reflexivity.
Qed.

Lemma updatesOf_marks (l : list WordPressPost) :
  updatesOf (map (fun p => PostUpdated (fst (mark p)) (snd (mark p))) l) = map mark l.
Proof.
  induction l as [|m l IH]; [reflexivity|].
  cbn [map updatesOf]. rewrite IH. reflexivity.
Qed.

Section Saving.

Context {Env : Type} {library : MediaLibrary Env}.

Lemma markPosts_trace (ids : list Z) (posts : list WordPressPost) :
  forall w : World Env,
  markPosts ids posts w
  = (Returned tt,
     mkWorld (env w)
       (trace w
        ++ map (fun p => PostUpdated (fst (mark p)) (snd (mark p)))
             (filter (fun p => existsb (Z.eqb (id p)) ids) posts))).
Proof.
  induction posts as [|p posts IH]; intro w.
  - cbn. rewrite app_nil_r. destruct w; reflexivity.
  - cbn [markPosts filter]. unfold bind.
    destruct (existsb (Z.eqb (id p)) ids).
    + unfold updatePostState, emit. rewrite IH. cbn [env trace map mark fst snd].
      rewrite <- app_assoc. reflexivity.
    + unfold ret at 1. rewrite IH. reflexivity.
Qed.

Lemma saveAll_results (config : WordPressConfig) (updates : list Update) :
  forall w : World Env,
  exists (results : list Result) (e' : Env),
    saveAll config updates w = (Returned results, mkWorld e' (trace w))
    /\ map resultMediaId results = map updateMediaId updates.
Proof.
  induction updates as [|u updates IH]; intro w.
  - exists [], (env w). destruct w; split; reflexivity.
  - cbn [saveAll]. unfold bind at 1, saveOne, tryCatch, bind at 1, perform.
    destruct (updateMediaAltText config (updateMediaId u) (updateAltText u) (env w))
      as [[[]|error] e1]; unfold ret at 1.
    + destruct (IH (mkWorld e1 (trace w))) as [results [e' [Hrun Hids]]].
      unfold bind. rewrite Hrun. cbn [trace].
      eexists _, e'. split; [reflexivity|]. cbn [map resultMediaId]. rewrite Hids.
      reflexivity.
    + destruct (IH (mkWorld e1 (trace w))) as [results [e' [Hrun Hids]]].
      unfold bind. rewrite Hrun. cbn [trace].
      eexists _, e'. split; [reflexivity|]. cbn [map resultMediaId]. rewrite Hids.
      reflexivity.
Qed.

End Saving.

(** A result is found for a media id exactly when an update names it. *)
Lemma find_result (mediaId : Z) (results : list Result) :
  forall updates : list Update,
  map resultMediaId results = map updateMediaId updates ->
  match find (fun r => (resultMediaId r =? mediaId)%Z) results with
  | Some _ => existsb (fun u => (updateMediaId u =? mediaId)%Z) updates = true
  | None => existsb (fun u => (updateMediaId u =? mediaId)%Z) updates = false
  end.
Proof.
  induction results as [|r results IH]; intros [|u updates] Hids; try discriminate.
  - reflexivity.
  - cbn [map] in Hids. injection Hids as Hr Hrest. cbn [find existsb]. rewrite <- Hr.
    destruct (resultMediaId r =? mediaId)%Z; [reflexivity|]. cbn [orb].
    apply IH. exact Hrest.
Qed.

(** With ids that are all different, the posts whose id is marked are
    the posts an update names. *)
Lemma marked_posts (posts : list WordPressPost) (updates : list Update) (p : WordPressPost) :
  NoDup (map id posts) -> In p posts ->
  existsb (Z.eqb (id p)) (postIdsToUpdate posts updates) = hasUpdate updates p.
Proof.
  intros Hnodup Hin. unfold postIdsToUpdate.
  destruct (hasUpdate updates p) eqn:Hp.
  - apply existsb_exists. exists (id p). split; [|apply Z.eqb_refl].
    apply in_map. apply filter_In. split; assumption.
  - destruct (existsb (Z.eqb (id p)) (map id (filter (hasUpdate updates) posts))) eqn:Hex;
      [|reflexivity].
    exfalso. apply existsb_exists in Hex. destruct Hex as [z [Hz Heq]].
    apply Z.eqb_eq in Heq. subst z. apply in_map_iff in Hz. destruct Hz as [q [Hid Hq]].
    apply filter_In in Hq. destruct Hq as [Hqin Hqup].
    assert (q = p); [|subst q; congruence].
    clear Hqup Hp. induction posts as [|x posts IH]; [contradiction|].
    cbn [map] in Hnodup. inversion Hnodup as [|? ? Hnotin Hrest]; subst.
    destruct Hin as [-> | Hin], Hqin as [-> | Hqin].
    + reflexivity.
    + exfalso. apply Hnotin. rewrite <- Hid. apply in_map. exact Hqin.
    + exfalso. apply Hnotin. rewrite Hid. apply in_map. exact Hin.
    + apply IH; assumption.
Qed.

Section Theorems.

Context {Env : Type} {library : MediaLibrary Env}.

(** X25: saving alternative texts leaves no post in progress.  With
    posts whose ids are all different, [handleSaveAltText] is fulfilled
    whatever the media library does, and after its last update of the
    posts every post whose generated image is named by an update has
    status success or error (none stays in updating_meta), and every
    other post is exactly as it was. *)
Theorem saving_alt_texts_leaves_no_post_in_progress :
  forall (config : Configuration) (posts : list WordPressPost) (updates : list Update)
         (w : World Env),
  NoDup (map id posts) ->
  exists (transform : list WordPressPost -> list WordPressPost) (w' : World Env)
         (added : list Effect),
    handleSaveAltText config posts updates w = (Returned transform, w')
    /\ trace w' = trace w ++ added
    /\ Forall2
         (fun p q =>
            id q = id p
            /\ if hasUpdate updates p
               then status q = Some Status.success \/ status q = Some Status.error
               else q = p)
         posts (transform (postsAfter added posts)).
Proof.
  intros config posts updates w Hnodup.
  unfold handleSaveAltText, bind. rewrite markPosts_trace.
  set (added := map (fun p => PostUpdated (fst (mark p)) (snd (mark p))) _).
  destruct (saveAll_results (wordpress config) updates
              (mkWorld (env w) (trace w ++ added))) as [results [e' [Hrun Hids]]].
  rewrite Hrun. unfold ret. cbn [trace].
  exists (map (settleAltText results)), (mkWorld e' (trace w ++ added)), added.
  split; [reflexivity|]. split; [reflexivity|].
  rewrite ProcessorFacts.postsAfter_revised, map_map.
  assert (Hups : updatesOf added
                 = map mark (filter (fun p => existsb (Z.eqb (id p))
                                                (postIdsToUpdate posts updates)) posts)).
  { unfold added. apply updatesOf_marks. }
  rewrite Hups. apply Forall2_map_in. intros p Hin.
  destruct (marks_keep (filter (fun p => existsb (Z.eqb (id p))
                                           (postIdsToUpdate posts updates)) posts) p)
    as [Himage Hid].
  set (q := revised _ p) in *.
  assert (Hsettled : id (settleAltText results q) = id q).
  { unfold settleAltText. destruct (generatedImage q); [|reflexivity].
    destruct (find _ results) as [r|]; [|reflexivity].
    destruct (resultSuccess r); reflexivity. }
  split; [rewrite Hsettled; exact Hid|].
  destruct (hasUpdate updates p) eqn:Hp.
  - unfold settleAltText. rewrite Himage. unfold hasUpdate in Hp.
    destruct (generatedImage p) as [generated|]; [|discriminate].
    pose proof (find_result (mediaId generated) results updates Hids) as Hfind.
    destruct (find _ results) as [r|]; [|congruence].
    destruct (resultSuccess r); [left | right]; reflexivity.
  - assert (Hq : q = p).
    { unfold q. apply revised_untouched. apply Forall_forall. intros up Hup.
      apply in_map_iff in Hup. destruct Hup as [m [<- Hm]]. cbn [mark fst].
      apply filter_In in Hm. destruct Hm as [Hmin Hmarked].
      rewrite (marked_posts posts updates m Hnodup Hmin) in Hmarked.
      intro Heq.
      assert (m = p); [|subst m; congruence].
      clear - Hnodup Hmin Hin Heq. induction posts as [|x posts IH]; [contradiction|].
      cbn [map] in Hnodup. inversion Hnodup as [|? ? Hnotin Hrest]; subst.
      destruct Hin as [-> | Hin], Hmin as [-> | Hmin].
      + reflexivity.
      + exfalso. apply Hnotin. rewrite <- Heq. apply in_map. exact Hmin.
      + exfalso. apply Hnotin. rewrite Heq. apply in_map. exact Hin.
      + apply IH; assumption. }
    rewrite Hq. unfold settleAltText. unfold hasUpdate in Hp.
    destruct (generatedImage p) as [generated|]; [|reflexivity].
    pose proof (find_result (mediaId generated) results updates Hids) as Hfind.
    destruct (find _ results) as [r|]; [congruence | reflexivity].
Qed.

End Theorems.

Lemma saving_alt_texts_leaves_no_post_in_progress_witness :
  exists (transform : list WordPressPost -> list WordPressPost) (w' : World nat)
         (added : list Effect),
    handleSaveAltText (library := fussyLibrary) Samples.sampleConfiguration
      [MoreSamples.withGenerated 1; Samples.samplePost 2]
      [{| updateMediaId := 7; updateAltText := "A better text" |}] (mkWorld 0 [])
    = (Returned transform, w')
    /\ trace w' = trace (mkWorld 0 []) ++ added
    /\ Forall2
         (fun p q =>
            id q = id p
            /\ if hasUpdate [{| updateMediaId := 7; updateAltText := "A better text" |}] p
               then status q = Some Status.success \/ status q = Some Status.error
               else q = p)
         [MoreSamples.withGenerated 1; Samples.samplePost 2]
         (transform (postsAfter added [MoreSamples.withGenerated 1; Samples.samplePost 2])).
Proof.
  apply (saving_alt_texts_leaves_no_post_in_progress (library := fussyLibrary)
           Samples.sampleConfiguration
           [MoreSamples.withGenerated 1; Samples.samplePost 2]
           [{| updateMediaId := 7; updateAltText := "A better text" |}] (mkWorld 0 [])).
  repeat constructor; cbn; intuition discriminate.
Defined.

End AltTextFacts.

(* ================================================================== *)
(** * Properties of the image proxy *)
(* ================================================================== *)

Module ProxyFacts.
Import AiClient ImageProxy ClientReadings.

Section Function.

Context {Env : Type} {runtime : Runtime Env}.

(** What an answer of the function always has. *)
Lemma newResponse_answers (responseBody : option AnswerBody) (status : Z)
    (responseHeaders : list (string * string)) (e : Env) :
  match newResponse responseBody status responseHeaders e with
  | (Returned answer, e') =>
      e' = e /\ answerStatus answer = status /\ (200 <= status <= 599)%Z
      /\ answerHeaders answer = responseHeaders /\ answerBody answer = responseBody
  | (Threw error, e') => e' = e /\ exists message, error = ErrorObject PlainError message
  end.
Proof.
  unfold newResponse.
  destruct (status <? 200)%Z eqn:Hlow; [cbn; split; [reflexivity | eexists; reflexivity]|].
  destruct (599 <? status)%Z eqn:Hhigh; [cbn; split; [reflexivity | eexists; reflexivity]|].
  cbn [orb].
  destruct (_ && _); cbn; [split; [reflexivity | eexists; reflexivity]|].
  apply Z.ltb_ge in Hlow, Hhigh. repeat split; lia.
Qed.

Lemma cors_in_json : incl corsHeaders jsonHeaders.
Proof. unfold jsonHeaders. apply incl_appl, incl_refl. Qed.

(** The answer of the [catch] block. *)
Lemma failure_answer (message : string) (e : Env) :
  newResponse (Some (ErrorBody message)) 500 jsonHeaders e
  = (Returned {| answerStatus := 500; answerHeaders := jsonHeaders;
                 answerBody := Some (ErrorBody message) |}, e).
Proof. reflexivity. Qed.

(** X27: the image proxy always answers, and always with the headers
    that let a browser read the answer: whatever the request holds and
    whatever the fetch of the image does, the handler is fulfilled with
    a response whose status is between 200 and 599, whose headers
    include the three CORS headers, and which has a body unless the
    request is a preflight (OPTIONS).  A status of the upstream server
    that cannot be given to a response with a body (304) ends in the
    answer 500 of the [catch] block. *)
Theorem the_proxy_always_answers_with_cors_headers :
  forall (req : Incoming) (e : Env),
  exists (answer : Answer) (e' : Env),
    serve req e = (Returned answer, e')
    /\ (200 <= answerStatus answer <= 599)%Z
    /\ incl corsHeaders (answerHeaders answer)
    /\ (answerBody answer = None -> requestMethod req = "OPTIONS").
Proof.
  intros req e. unfold serve.
  destruct (String.eqb_spec (requestMethod req) "OPTIONS") as [Hoptions|_].
  - eexists _, e. split; [reflexivity|]. cbn. repeat split; try lia.
    + apply incl_refl.
    + intros _. exact Hoptions.
  - assert (Hanswer : forall (responseBody : AnswerBody) (status : Z) (e0 : Env),
              exists (answer : Answer) (e' : Env),
                orCatch (fun _ : Env => newResponse (Some responseBody) status jsonHeaders e0)
                  (fun error =>
                     newResponse
                       (Some (ErrorBody match error with
                                        | ErrorObject _ message => message
                                        | NonError _ => "Unknown error"
                                        end)) 500 jsonHeaders) e
                = (Returned answer, e')
                /\ (200 <= answerStatus answer <= 599)%Z
                /\ incl corsHeaders (answerHeaders answer)
                /\ (answerBody answer = None -> requestMethod req = "OPTIONS")).
    { intros responseBody status e0. unfold orCatch.
      pose proof (newResponse_answers (Some responseBody) status jsonHeaders e0) as H.
      destruct (newResponse (Some responseBody) status jsonHeaders e0) as [[answer|error] e1].
      - destruct H as [_ [Hs [Hrange [Hh Hb]]]]. exists answer, e1.
        split; [reflexivity|]. rewrite Hs, Hh, Hb.
        repeat split; try lia; [apply cors_in_json | discriminate].
      - rewrite failure_answer. eexists _, e1. split; [reflexivity|]. cbn.
        repeat split; try lia; [apply cors_in_json | discriminate]. }
    assert (Hfailed : forall (error : Thrown) (e0 : Env),
              exists (answer : Answer) (e' : Env),
                newResponse
                  (Some (ErrorBody match error with
                                   | ErrorObject _ message => message
                                   | NonError _ => "Unknown error"
                                   end)) 500 jsonHeaders e0
                = (Returned answer, e')
                /\ (200 <= answerStatus answer <= 599)%Z
                /\ incl corsHeaders (answerHeaders answer)
                /\ (answerBody answer = None -> requestMethod req = "OPTIONS")).
    { intros error e0. rewrite failure_answer. eexists _, e0. split; [reflexivity|]. cbn.
      repeat split; try lia; [apply cors_in_json | discriminate]. }
    unfold orCatch, andThen in *.
    destruct (requestImageUrl req e) as [[[imageUrl|]|error] e1]; [| |apply Hfailed].
    + destruct (String.eqb imageUrl EmptyString); [apply (Hanswer _ _ e1)|].
      destruct (fetchImage imageUrl e1) as [[imageResponse|error] e2]; [|apply Hfailed].
      destruct (upstreamOk imageResponse); cbn [negb]; [|apply (Hanswer _ _ e2)].
      destruct (arrayBuffer imageResponse e2) as [[bytes|error] e3]; [|apply Hfailed].
      apply (Hanswer _ _ e3).
    + apply (Hanswer _ _ e1).
Qed.


End Function.


End ProxyFacts.
